(** * U-Net architectures of [layout_data/models/unet.py]

    A shallow embedding of the two networks [UNet] and [UNetV2] and of
    their building blocks, together with the part of the tensor framework
    they are written against.

    - A tensor is its 4-D size together with an abstract payload: the
      floating-point contents are never inspected, they are only passed
      through the kernels of a [Backend].
    - A module object is a record of hyper-parameters and of references
      to the parameter and buffer tensors it owns; the tensors themselves
      live in a [Store], which also holds the train/eval flag and the
      state of the random generator.
    - [__init__] and [forward] are computations in a state-and-exception
      monad over the store: a raised exception keeps whatever was written
      to the store before it. *)

From Stdlib Require Import ZArith List Bool Lia.
Import ListNotations.
Open Scope Z_scope.

Set Implicit Arguments.

(** ** Exceptions and results *)

Inductive Error : Type :=
| ChannelMismatch      (* RuntimeError: expected input to have c channels *)
| PaddingTooLarge      (* RuntimeError: padding size should be less than the input dimension *)
| KernelTooLarge       (* RuntimeError: kernel size can't be greater than actual input size *)
| OutputTooSmall       (* RuntimeError: output size is too small *)
| OneValuePerChannel   (* ValueError: expected more than 1 value per channel *)
| SizesMustMatch       (* RuntimeError: sizes of tensors must match except in dimension 1 *)
| EmptyInterpolation   (* RuntimeError: input and output sizes should be greater than 0 *)
| NotDivisible         (* ValueError: num_channels must be divisible by num_groups *)
| NegativeDimension    (* RuntimeError: trying to create a tensor with negative dimension *)
| EmptyList            (* RuntimeError: expected a non-empty list of tensors *)
| AttributeError.      (* AttributeError: object has no such attribute *)

Inductive Result (A : Type) : Type :=
| Ok (a : A)
| Err (e : Error).

Arguments Ok {A} a.
Arguments Err {A} e.

(** ** Sizes *)

(** The size of a 4-D tensor, [(N, C, H, W)]. *)
Record Size : Type := mkSize {
  batch : Z;
  channels : Z;
  height : Z;
  width : Z
}.

(** References to the tensors owned by modules. *)
Definition Ref : Type := nat.

(** ** The backend: contents of tensors and the numeric kernels *)

Inductive PaddingMode : Type := zeros | reflect.

Class Backend : Type := {
  (** contents of a tensor *)
  D : Type;
  (** state of the random generator *)
  Seed : Type;
  conv2d_k : PaddingMode -> Z -> D -> D -> D -> D;
  conv_transpose2d_k : Z -> D -> D -> D -> D;
  group_norm_k : Z -> D -> D -> D -> D;
  (** batch statistics of the input itself *)
  batch_norm_train_k : D -> D -> D -> D;
  (** running statistics: mean, variance, then weight, bias, input *)
  batch_norm_eval_k : D -> D -> D -> D -> D -> D;
  running_mean_k : D -> D -> D;
  running_var_k : D -> D -> D;
  relu_k : D -> D;
  gelu_k : D -> D;
  dropout_k : Seed -> D -> D * Seed;
  max_pool2d_k : Z -> Z -> D -> D;
  avg_pool2d_k : Z -> Z -> D -> D;
  (** align_corners, target size, input *)
  bilinear_k : bool -> Z * Z -> D -> D;
  cat_k : D -> D -> D;
  randn_k : Seed -> Size -> D * Seed;
  (** value an initialiser gives to a parameter *)
  init_k : Seed -> D -> D * Seed
}.

Record Tensor `{Backend} : Type := mkTensor {
  size : Size;
  data : D
}.

(** ** The store *)

Record Store `{Backend} : Type := mkStore {
  next_ref : Ref;
  (** [Module.training], set for the whole network by [train()]/[eval()] *)
  training : bool;
  (** learnable parameters *)
  params : Ref -> D;
  (** buffers: running statistics of batch normalisation *)
  buffers : Ref -> D;
  (** [num_batches_tracked] *)
  counters : Ref -> Z;
  rng : Seed
}.

Arguments mkTensor {_} size data.
Arguments mkStore {_} next_ref training params buffers counters rng.

Definition upd {V : Type} (f : Ref -> V) (r : Ref) (v : V) : Ref -> V :=
  fun r' => if Nat.eqb r' r then v else f r'.

Section Monad.
Context `{Backend}.

Definition M (A : Type) : Type := Store -> Result A * Store.

Definition ret {A} (a : A) : M A := fun s => (Ok a, s).

Definition raise {A} (e : Error) : M A := fun s => (Err e, s).

Definition bind {A B} (m : M A) (k : A -> M B) : M B :=
  fun s => match m s with
           | (Ok a, s') => k a s'
           | (Err e, s') => (Err e, s')
           end.

Definition get : M Store := fun s => (Ok s, s).

Definition put (s : Store) : M unit := fun _ => (Ok tt, s).

(** Allocation of a fresh tensor. *)
Definition alloc : M Ref :=
  fun s => (Ok (next_ref s),
            mkStore (S (next_ref s)) (training s) (params s) (buffers s)
                    (counters s) (rng s)).

Definition set_training (b : bool) : M unit :=
  fun s => (Ok tt, mkStore (next_ref s) b (params s) (buffers s) (counters s) (rng s)).

Definition set_buffer (r : Ref) (d : D) : M unit :=
  fun s => (Ok tt, mkStore (next_ref s) (training s) (params s)
                           (upd (buffers s) r d) (counters s) (rng s)).

Definition set_counter (r : Ref) (n : Z) : M unit :=
  fun s => (Ok tt, mkStore (next_ref s) (training s) (params s) (buffers s)
                           (upd (counters s) r n) (rng s)).

Definition set_param (r : Ref) (d : D) : M unit :=
  fun s => (Ok tt, mkStore (next_ref s) (training s) (upd (params s) r d)
                           (buffers s) (counters s) (rng s)).

Definition set_rng (g : Seed) : M unit :=
  fun s => (Ok tt, mkStore (next_ref s) (training s) (params s) (buffers s)
                           (counters s) g).
End Monad.

Declare Scope torch_scope.
Delimit Scope torch_scope with torch.
Notation "x <- m ;; k" := (bind m (fun x => k))
  (at level 61, m at next level, right associativity) : torch_scope.
Notation "m ;; k" := (bind m (fun _ => k))
  (at level 61, right associativity) : torch_scope.
Open Scope torch_scope.

(** ** Layers of [torch.nn]

    Each layer class is a module holding the record of the object, its
    constructor and its [forward].  Only the arguments the networks use
    are modelled; the others keep their defaults (stride 1, dilation 1,
    one group, bias enabled, affine normalisation, running statistics
    tracked).  The size rules and the checks are those of the framework,
    raised in the order the framework raises them. *)

Module Conv2d.
Record t : Type := mk {
  in_channels : Z;
  out_channels : Z;
  kernel_size : Z;
  padding : Z;
  padding_mode : PaddingMode;
  weight : Ref;
  bias : Ref
}.

Section Methods.
Context `{Backend}.

Definition __init__ (cin cout k p : Z) (mode : PaddingMode) : M t :=
  if (cin <? 0) || (cout <? 0) then raise NegativeDimension
  else
    w <- alloc ;;
    b <- alloc ;;
    ret (mk cin cout k p mode w b).

(** With [padding_mode='reflect'] the input is first padded by
    [F.pad(..., mode='reflect')], which wants the padding smaller than
    the padded dimension; the convolution then runs without padding. *)
Definition forward (self : t) (x : Tensor) : M Tensor :=
  let sz := size x in
  let p := padding self in
  let k := kernel_size self in
  (match padding_mode self with
   | reflect =>
       if (p <? height sz) && (p <? width sz) then ret tt
       else raise PaddingTooLarge
   | zeros => ret tt
   end) ;;
  if negb (channels sz =? in_channels self) then raise ChannelMismatch
  else if (height sz + 2 * p <? k) || (width sz + 2 * p <? k)
  then raise KernelTooLarge
  else
    s <- get ;;
    ret (mkTensor
           (mkSize (batch sz) (out_channels self)
                   (height sz + 2 * p - k + 1) (width sz + 2 * p - k + 1))
           (conv2d_k (padding_mode self) p
                     (params s (weight self)) (params s (bias self)) (data x))).
End Methods.
End Conv2d.

Module ConvTranspose2d.
Record t : Type := mk {
  in_channels : Z;
  out_channels : Z;
  kernel_size : Z;
  stride : Z;
  weight : Ref;
  bias : Ref
}.

Section Methods.
Context `{Backend}.

Definition __init__ (cin cout k st : Z) : M t :=
  if (cin <? 0) || (cout <? 0) then raise NegativeDimension
  else
    w <- alloc ;;
    b <- alloc ;;
    ret (mk cin cout k st w b).

Definition forward (self : t) (x : Tensor) : M Tensor :=
  let sz := size x in
  if negb (channels sz =? in_channels self) then raise ChannelMismatch
  else
    s <- get ;;
    ret (mkTensor
           (mkSize (batch sz) (out_channels self)
                   ((height sz - 1) * stride self + (kernel_size self - 1) + 1)
                   ((width sz - 1) * stride self + (kernel_size self - 1) + 1))
           (conv_transpose2d_k (stride self)
                     (params s (weight self)) (params s (bias self)) (data x))).
End Methods.
End ConvTranspose2d.

Module GroupNorm.
Record t : Type := mk {
  num_groups : Z;
  num_channels : Z;
  weight : Ref;
  bias : Ref
}.

Section Methods.
Context `{Backend}.

Definition __init__ (groups chans : Z) : M t :=
  if negb (chans mod groups =? 0) then raise NotDivisible
  else if chans <? 0 then raise NegativeDimension
  else
    w <- alloc ;;
    b <- alloc ;;
    ret (mk groups chans w b).

(** [F.group_norm] first runs [_verify_batch_size] on
    [[N * C // num_groups, num_groups, H, W]], whatever the mode. *)
Definition forward (self : t) (x : Tensor) : M Tensor :=
  let sz := size x in
  if (batch sz * channels sz / num_groups self) * height sz * width sz =? 1
  then raise OneValuePerChannel
  else if negb (channels sz =? num_channels self) then raise ChannelMismatch
  else
    s <- get ;;
    ret (mkTensor sz
           (group_norm_k (num_groups self)
                     (params s (weight self)) (params s (bias self)) (data x))).
End Methods.
End GroupNorm.

Module BatchNorm2d.
Record t : Type := mk {
  num_features : Z;
  weight : Ref;
  bias : Ref;
  running_mean : Ref;
  running_var : Ref;
  num_batches_tracked : Ref
}.

Section Methods.
Context `{Backend}.

Definition __init__ (features : Z) : M t :=
  if features <? 0 then raise NegativeDimension
  else
    w <- alloc ;;
    b <- alloc ;;
    rm <- alloc ;;
    rv <- alloc ;;
    nbt <- alloc ;;
    set_counter nbt 0 ;;
    ret (mk features w b rm rv nbt).

(** In training mode the batch counter is bumped before anything is
    checked, [F.batch_norm] then runs [_verify_batch_size] on the input
    size, the running statistics are updated in place and the batch
    statistics normalise the input.  In evaluation mode the running
    statistics normalise the input and nothing is written. *)
Definition forward (self : t) (x : Tensor) : M Tensor :=
  let sz := size x in
  s <- get ;;
  (if training s
   then set_counter (num_batches_tracked self)
                    (counters s (num_batches_tracked self) + 1)
   else ret tt) ;;
  if training s && (batch sz * height sz * width sz =? 1)
  then raise OneValuePerChannel
  else if negb (channels sz =? num_features self) then raise ChannelMismatch
  else if training s
  then
    set_buffer (running_mean self)
               (running_mean_k (buffers s (running_mean self)) (data x)) ;;
    set_buffer (running_var self)
               (running_var_k (buffers s (running_var self)) (data x)) ;;
    ret (mkTensor sz
           (batch_norm_train_k (params s (weight self)) (params s (bias self))
                               (data x)))
  else
    ret (mkTensor sz
           (batch_norm_eval_k (buffers s (running_mean self))
                              (buffers s (running_var self))
                              (params s (weight self)) (params s (bias self))
                              (data x))).
End Methods.
End BatchNorm2d.

Module ReLU.
Record t : Type := mk { inplace : bool }.

Section Methods.
Context `{Backend}.

(** [inplace] overwrites the input tensor; in both networks that input
    is the output of the preceding normalisation, which nothing else
    holds, so the result is the only observable. *)
Definition forward (self : t) (x : Tensor) : M Tensor :=
  ret (mkTensor (size x) (relu_k (data x))).
End Methods.
End ReLU.

Module GELU.
Section Methods.
Context `{Backend}.

Definition forward (x : Tensor) : M Tensor :=
  ret (mkTensor (size x) (gelu_k (data x))).
End Methods.
End GELU.

Module Dropout.
Section Methods.
Context `{Backend}.

Definition forward (x : Tensor) : M Tensor :=
  s <- get ;;
  if training s
  then
    let dg := dropout_k (rng s) (data x) in
    set_rng (snd dg) ;;
    ret (mkTensor (size x) (fst dg))
  else ret x.
End Methods.
End Dropout.

(** Output length of a pooling window along one dimension (no padding,
    floor mode); [/] is the floor division of [Z]. *)
Definition pooling_output_shape (input k st : Z) : Z := (input - k) / st + 1.

Module MaxPool2d.
Record t : Type := mk { kernel_size : Z; stride : Z }.

Section Methods.
Context `{Backend}.

Definition forward (self : t) (x : Tensor) : M Tensor :=
  let sz := size x in
  let oh := pooling_output_shape (height sz) (kernel_size self) (stride self) in
  let ow := pooling_output_shape (width sz) (kernel_size self) (stride self) in
  if (oh <? 1) || (ow <? 1) then raise OutputTooSmall
  else
    ret (mkTensor (mkSize (batch sz) (channels sz) oh ow)
                  (max_pool2d_k (kernel_size self) (stride self) (data x))).
End Methods.
End MaxPool2d.

Module AvgPool2d.
Record t : Type := mk { kernel_size : Z; stride : Z }.

Section Methods.
Context `{Backend}.

Definition forward (self : t) (x : Tensor) : M Tensor :=
  let sz := size x in
  let oh := pooling_output_shape (height sz) (kernel_size self) (stride self) in
  let ow := pooling_output_shape (width sz) (kernel_size self) (stride self) in
  if (oh <? 1) || (ow <? 1) then raise OutputTooSmall
  else
    ret (mkTensor (mkSize (batch sz) (channels sz) oh ow)
                  (avg_pool2d_k (kernel_size self) (stride self) (data x))).
End Methods.
End AvgPool2d.

(** ** Functions of [torch.nn.functional] and [torch] *)

(** [x.size()[-2:]] *)
Definition spatial `{Backend} (x : Tensor) : Z * Z :=
  (height (size x), width (size x)).

Module F.
Section Functions.
Context `{Backend}.

(** [F.interpolate(x, size, mode='bilinear', align_corners=...)] *)
Definition interpolate (x : Tensor) (target : Z * Z) (align_corners : bool)
  : M Tensor :=
  let sz := size x in
  if (height sz <=? 0) || (width sz <=? 0)
     || (fst target <=? 0) || (snd target <=? 0)
  then raise EmptyInterpolation
  else
    ret (mkTensor (mkSize (batch sz) (channels sz) (fst target) (snd target))
                  (bilinear_k align_corners target (data x))).
End Functions.
End F.

Module torch.
Section Functions.
Context `{Backend}.

Fixpoint cat_onto (acc : Tensor) (ts : list Tensor) : M Tensor :=
  match ts with
  | [] => ret acc
  | t :: ts' =>
      if (batch (size t) =? batch (size acc))
         && (height (size t) =? height (size acc))
         && (width (size t) =? width (size acc))
      then
        cat_onto (mkTensor
                    (mkSize (batch (size acc))
                            (channels (size acc) + channels (size t))
                            (height (size acc)) (width (size acc)))
                    (cat_k (data acc) (data t))) ts'
      else raise SizesMustMatch
  end.

(** [torch.randn(n, c, h, w)] *)
Definition randn (n c h w : Z) : M Tensor :=
  if (n <? 0) || (c <? 0) || (h <? 0) || (w <? 0) then raise NegativeDimension
  else
    s <- get ;;
    let dg := randn_k (rng s) (mkSize n c h w) in
    set_rng (snd dg) ;;
    ret (mkTensor (mkSize n c h w) (fst dg)).

(** [torch.cat(ts, 1)]: concatenation along the channel dimension. *)
Definition cat (ts : list Tensor) : M Tensor :=
  match ts with
  | [] => raise EmptyList
  | t :: ts' => cat_onto t ts'
  end.
End Functions.
End torch.

(** ** Layers as values: [nn.Module] objects, [nn.Sequential] *)

Inductive Layer : Type :=
| LConv2d (m : Conv2d.t)
| LConvTranspose2d (m : ConvTranspose2d.t)
| LGroupNorm (m : GroupNorm.t)
| LBatchNorm2d (m : BatchNorm2d.t)
| LReLU (m : ReLU.t)
| LGELU
| LDropout
| LMaxPool2d (m : MaxPool2d.t)
| LAvgPool2d (m : AvgPool2d.t).

(** [Module.parameters()] of a layer: its learnable tensors. *)
Definition Layer_parameters (l : Layer) : list Ref :=
  match l with
  | LConv2d m => [Conv2d.weight m; Conv2d.bias m]
  | LConvTranspose2d m => [ConvTranspose2d.weight m; ConvTranspose2d.bias m]
  | LGroupNorm m => [GroupNorm.weight m; GroupNorm.bias m]
  | LBatchNorm2d m => [BatchNorm2d.weight m; BatchNorm2d.bias m]
  | LReLU _ | LGELU | LDropout | LMaxPool2d _ | LAvgPool2d _ => []
  end.

Section Call.
Context `{Backend}.

(** [layer(x)] *)
Definition call (l : Layer) (x : Tensor) : M Tensor :=
  match l with
  | LConv2d m => Conv2d.forward m x
  | LConvTranspose2d m => ConvTranspose2d.forward m x
  | LGroupNorm m => GroupNorm.forward m x
  | LBatchNorm2d m => BatchNorm2d.forward m x
  | LReLU m => ReLU.forward m x
  | LGELU => GELU.forward x
  | LDropout => Dropout.forward x
  | LMaxPool2d m => MaxPool2d.forward m x
  | LAvgPool2d m => AvgPool2d.forward m x
  end.
End Call.

Module Sequential.
Definition t : Type := list Layer.

Definition layers (self : t) : list Layer := self.

Definition parameters (self : t) : list Ref :=
  flat_map Layer_parameters (layers self).

Section Methods.
Context `{Backend}.

Fixpoint forward (self : t) (x : Tensor) : M Tensor :=
  match self with
  | [] => ret x
  | l :: ls => y <- call l x ;; forward ls y
  end.
End Methods.
End Sequential.

(** The constructors as the source calls them: [nn.Conv2d(...)] and so
    on build a layer; [Module_init] is [nn.Module.__init__], which puts
    the module in training mode. *)
Module nn.
Section Constructors.
Context `{Backend}.

Definition Module_init : M unit := set_training true.

Definition Conv2d (cin cout k p : Z) (mode : PaddingMode) : M Layer :=
  m <- Conv2d.__init__ cin cout k p mode ;; ret (LConv2d m).

Definition ConvTranspose2d (cin cout k st : Z) : M Layer :=
  m <- ConvTranspose2d.__init__ cin cout k st ;; ret (LConvTranspose2d m).

Definition GroupNorm (groups chans : Z) : M Layer :=
  m <- GroupNorm.__init__ groups chans ;; ret (LGroupNorm m).

Definition BatchNorm2d (features : Z) : M Layer :=
  m <- BatchNorm2d.__init__ features ;; ret (LBatchNorm2d m).

Definition ReLU (inplace : bool) : M Layer := ret (LReLU (ReLU.mk inplace)).

Definition GELU : M Layer := ret LGELU.

Definition Dropout : M Layer := ret LDropout.

Definition MaxPool2d (k st : Z) : M Layer := ret (LMaxPool2d (MaxPool2d.mk k st)).

Definition AvgPool2d (k st : Z) : M Layer := ret (LAvgPool2d (AvgPool2d.mk k st)).
End Constructors.
End nn.

(** ** [layout_data.utils.initialize] *)

Section Initialize.
Context `{Backend}.

Definition init_parameter (r : Ref) : M unit :=
  s <- get ;;
  let dg := init_k (rng s) (params s r) in
  set_param r (fst dg) ;;
  set_rng (snd dg).

(** Modelled from the spec: [initialize_weights] is imported from
    [layout_data.utils.initialize], which is not among the sources; it
    "visits every learnable parameter tensor in the network and assigns
    an initial value", the scheme being left open ([init_k]).  It is
    given the parameters of the network it is called on. *)
Fixpoint initialize_weights (ps : list Ref) : M unit :=
  match ps with
  | [] => ret tt
  | r :: ps' => init_parameter r ;; initialize_weights ps'
  end.
End Initialize.

(** * The source: [layout_data/models/unet.py] *)

Module _EncoderBlock.
Record t : Type := mk {
  encode : Sequential.t;
  pool : option Layer
}.

(** The layers the block registers, in the order it assigns them. *)
Definition layers (self : t) : list Layer :=
  Sequential.layers (encode self)
  ++ match pool self with Some p => [p] | None => [] end.

Definition parameters (self : t) : list Ref :=
  flat_map Layer_parameters (layers self).

Section Methods.
Context `{Backend}.

(** defaults: [dropout=False, polling=True, bn=False] *)
Definition __init__ (in_channels out_channels : Z) (dropout polling bn : bool)
  : M t :=
  nn.Module_init ;;
  l0 <- nn.Conv2d in_channels out_channels 3 1 zeros ;;
  l1 <- (if bn then nn.BatchNorm2d out_channels else nn.GroupNorm 32 out_channels) ;;
  l2 <- nn.ReLU true ;;
  l3 <- nn.Conv2d out_channels out_channels 3 1 zeros ;;
  l4 <- (if bn then nn.BatchNorm2d out_channels else nn.GroupNorm 32 out_channels) ;;
  l5 <- nn.ReLU true ;;
  let layers := [l0; l1; l2; l3; l4; l5] in
  layers <- (if dropout then d <- nn.Dropout ;; ret (layers ++ [d])
             else ret layers) ;;
  let encode := layers in
  let pool := None in
  pool <- (if polling then p <- nn.MaxPool2d 2 2 ;; ret (Some p)
           else ret pool) ;;
  ret (mk encode pool).

Definition forward (self : t) (x : Tensor) : M Tensor :=
  x <- match pool self with
       | Some p => call p x
       | None => ret x
       end ;;
  Sequential.forward (encode self) x.
End Methods.
End _EncoderBlock.

Module _DecoderBlock.
Record t : Type := mk {
  decode : Sequential.t
}.

Definition layers (self : t) : list Layer := Sequential.layers (decode self).

Definition parameters (self : t) : list Ref :=
  flat_map Layer_parameters (layers self).

Section Methods.
Context `{Backend}.

(** default: [bn=False] *)
Definition __init__ (in_channels middle_channels out_channels : Z) (bn : bool)
  : M t :=
  nn.Module_init ;;
  l0 <- nn.Conv2d in_channels middle_channels 3 1 zeros ;;
  l1 <- (if bn then nn.BatchNorm2d middle_channels
         else nn.GroupNorm 32 middle_channels) ;;
  l2 <- nn.ReLU true ;;
  l3 <- nn.Conv2d middle_channels middle_channels 3 1 zeros ;;
  l4 <- (if bn then nn.BatchNorm2d middle_channels
         else nn.GroupNorm 32 middle_channels) ;;
  l5 <- nn.ReLU true ;;
  l6 <- nn.ConvTranspose2d middle_channels out_channels 2 2 ;;
  ret (mk [l0; l1; l2; l3; l4; l5; l6]).

Definition forward (self : t) (x : Tensor) : M Tensor :=
  Sequential.forward (decode self) x.
End Methods.
End _DecoderBlock.

Module UNet.
Record t : Type := mk {
  enc1 : _EncoderBlock.t;
  enc2 : _EncoderBlock.t;
  enc3 : _EncoderBlock.t;
  enc4 : _EncoderBlock.t;
  polling : Layer;
  center : _DecoderBlock.t;
  dec4 : _DecoderBlock.t;
  dec3 : _DecoderBlock.t;
  dec2 : _DecoderBlock.t;
  dec1 : Sequential.t;
  final : Layer
}.

(** [self.modules()], down to the layers. *)
Definition layers (self : t) : list Layer :=
  _EncoderBlock.layers (enc1 self)
  ++ _EncoderBlock.layers (enc2 self)
  ++ _EncoderBlock.layers (enc3 self)
  ++ _EncoderBlock.layers (enc4 self)
  ++ [polling self]
  ++ _DecoderBlock.layers (center self)
  ++ _DecoderBlock.layers (dec4 self)
  ++ _DecoderBlock.layers (dec3 self)
  ++ _DecoderBlock.layers (dec2 self)
  ++ Sequential.layers (dec1 self)
  ++ [final self].

Definition parameters (self : t) : list Ref :=
  flat_map Layer_parameters (layers self).

Section Methods.
Context `{Backend}.

(** defaults: [in_channels=3, bn=False] *)
Definition __init__ (num_classes in_channels : Z) (bn : bool) : M t :=
  nn.Module_init ;;
  enc1 <- _EncoderBlock.__init__ in_channels 64 false false bn ;;
  enc2 <- _EncoderBlock.__init__ 64 128 false true bn ;;
  enc3 <- _EncoderBlock.__init__ 128 256 false true bn ;;
  enc4 <- _EncoderBlock.__init__ 256 512 false true bn ;;
  polling <- nn.MaxPool2d 2 2 ;;
  center <- _DecoderBlock.__init__ 512 1024 512 bn ;;
  dec4 <- _DecoderBlock.__init__ 1024 512 256 bn ;;
  dec3 <- _DecoderBlock.__init__ 512 256 128 bn ;;
  dec2 <- _DecoderBlock.__init__ 256 128 64 bn ;;
  l0 <- nn.Conv2d 128 64 3 1 zeros ;;
  l1 <- (if bn then nn.BatchNorm2d 64 else nn.GroupNorm 32 64) ;;
  l2 <- nn.ReLU true ;;
  l3 <- nn.Conv2d 64 64 3 1 zeros ;;
  l4 <- (if bn then nn.BatchNorm2d 64 else nn.GroupNorm 32 64) ;;
  l5 <- nn.ReLU true ;;
  let dec1 := [l0; l1; l2; l3; l4; l5] in
  final <- nn.Conv2d 64 num_classes 1 0 zeros ;;
  let self := mk enc1 enc2 enc3 enc4 polling center dec4 dec3 dec2 dec1 final in
  initialize_weights (parameters self) ;;
  ret self.

Definition forward (self : t) (x : Tensor) : M Tensor :=
  enc1 <- _EncoderBlock.forward (enc1 self) x ;;
  enc2 <- _EncoderBlock.forward (enc2 self) enc1 ;;
  enc3 <- _EncoderBlock.forward (enc3 self) enc2 ;;
  enc4 <- _EncoderBlock.forward (enc4 self) enc3 ;;
  pooled <- call (polling self) enc4 ;;
  center <- _DecoderBlock.forward (center self) pooled ;;
  up <- F.interpolate center (spatial enc4) true ;;
  fused <- torch.cat [up; enc4] ;;
  dec4 <- _DecoderBlock.forward (dec4 self) fused ;;
  fused <- torch.cat [dec4; enc3] ;;
  dec3 <- _DecoderBlock.forward (dec3 self) fused ;;
  fused <- torch.cat [dec3; enc2] ;;
  dec2 <- _DecoderBlock.forward (dec2 self) fused ;;
  fused <- torch.cat [dec2; enc1] ;;
  dec1 <- Sequential.forward (dec1 self) fused ;;
  final <- call (final self) dec1 ;;
  ret final.
End Methods.
End UNet.

Module _EncoderBlockV2.
Record t : Type := mk {
  encode : Sequential.t;
  pool : option Layer
}.

(** The layers the block registers, in the order it assigns them. *)
Definition layers (self : t) : list Layer :=
  Sequential.layers (encode self)
  ++ match pool self with Some p => [p] | None => [] end.

Definition parameters (self : t) : list Ref :=
  flat_map Layer_parameters (layers self).

Section Methods.
Context `{Backend}.

(** defaults: [dropout=False, polling=True, bn=False] *)
Definition __init__ (in_channels out_channels : Z) (dropout polling bn : bool)
  : M t :=
  nn.Module_init ;;
  l0 <- nn.Conv2d in_channels out_channels 3 1 reflect ;;
  l1 <- (if bn then nn.BatchNorm2d out_channels else nn.GroupNorm 32 out_channels) ;;
  l2 <- nn.GELU ;;
  l3 <- nn.Conv2d out_channels out_channels 3 1 reflect ;;
  l4 <- (if bn then nn.BatchNorm2d out_channels else nn.GroupNorm 32 out_channels) ;;
  l5 <- nn.GELU ;;
  let layers := [l0; l1; l2; l3; l4; l5] in
  layers <- (if dropout then d <- nn.Dropout ;; ret (layers ++ [d])
             else ret layers) ;;
  let encode := layers in
  let pool := None in
  pool <- (if polling then p <- nn.MaxPool2d 2 2 ;; ret (Some p)
           else ret pool) ;;
  ret (mk encode pool).

Definition forward (self : t) (x : Tensor) : M Tensor :=
  x <- match pool self with
       | Some p => call p x
       | None => ret x
       end ;;
  Sequential.forward (encode self) x.
End Methods.
End _EncoderBlockV2.

Module _DecoderBlockV2.
Record t : Type := mk {
  decode : Sequential.t
}.

Definition layers (self : t) : list Layer := Sequential.layers (decode self).

Definition parameters (self : t) : list Ref :=
  flat_map Layer_parameters (layers self).

Section Methods.
Context `{Backend}.

(** default: [bn=False] *)
Definition __init__ (in_channels middle_channels out_channels : Z) (bn : bool)
  : M t :=
  nn.Module_init ;;
  l0 <- nn.Conv2d in_channels middle_channels 3 1 reflect ;;
  l1 <- (if bn then nn.BatchNorm2d middle_channels
         else nn.GroupNorm 32 middle_channels) ;;
  l2 <- nn.GELU ;;
  l3 <- nn.Conv2d middle_channels out_channels 3 1 reflect ;;
  l4 <- (if bn then nn.BatchNorm2d out_channels
         else nn.GroupNorm 32 out_channels) ;;
  l5 <- nn.GELU ;;
  ret (mk [l0; l1; l2; l3; l4; l5]).

Definition forward (self : t) (x : Tensor) : M Tensor :=
  Sequential.forward (decode self) x.
End Methods.
End _DecoderBlockV2.

(** What [UNetV2.forward] returns: one tensor, or a tuple of tensors. *)
Inductive Output (T : Type) : Type :=
| OTensor (x : T)
| OTuple (xs : list T).

Arguments OTensor {T} x.
Arguments OTuple {T} xs.

Module UNetV2.
Record t : Type := mk {
  multi_scale : bool;
  enc1 : _EncoderBlockV2.t;
  enc2 : _EncoderBlockV2.t;
  enc3 : _EncoderBlockV2.t;
  enc4 : _EncoderBlockV2.t;
  polling : Layer;
  center : _DecoderBlockV2.t;
  dec4 : _DecoderBlockV2.t;
  dec3 : _DecoderBlockV2.t;
  dec2 : _DecoderBlockV2.t;
  dec1 : Sequential.t;
  (** the three auxiliary heads exist only when built with [multi_scale] *)
  conv_8 : option Layer;
  conv_4 : option Layer;
  conv_2 : option Layer;
  final : Layer
}.

Definition head (h : option Layer) : list Layer :=
  match h with Some l => [l] | None => [] end.

(** [self.modules()], down to the layers. *)
Definition layers (self : t) : list Layer :=
  _EncoderBlockV2.layers (enc1 self)
  ++ _EncoderBlockV2.layers (enc2 self)
  ++ _EncoderBlockV2.layers (enc3 self)
  ++ _EncoderBlockV2.layers (enc4 self)
  ++ [polling self]
  ++ _DecoderBlockV2.layers (center self)
  ++ _DecoderBlockV2.layers (dec4 self)
  ++ _DecoderBlockV2.layers (dec3 self)
  ++ _DecoderBlockV2.layers (dec2 self)
  ++ Sequential.layers (dec1 self)
  ++ head (conv_8 self)
  ++ head (conv_4 self)
  ++ head (conv_2 self)
  ++ [final self].

Definition parameters (self : t) : list Ref :=
  flat_map Layer_parameters (layers self).

Section Methods.
Context `{Backend}.

(** defaults: [in_channels=3, bn=False, factors=2, multi_scale=True] *)
Definition __init__ (num_classes in_channels : Z) (bn : bool) (factors : Z)
  (multi_scale : bool) : M t :=
  nn.Module_init ;;
  enc1 <- _EncoderBlockV2.__init__ in_channels (32 * factors) false false bn ;;
  enc2 <- _EncoderBlockV2.__init__ (32 * factors) (64 * factors) false true bn ;;
  enc3 <- _EncoderBlockV2.__init__ (64 * factors) (128 * factors) false true bn ;;
  enc4 <- _EncoderBlockV2.__init__ (128 * factors) (256 * factors) false true bn ;;
  polling <- nn.AvgPool2d 2 2 ;;
  center <- _DecoderBlockV2.__init__ (256 * factors) (512 * factors)
                                     (256 * factors) bn ;;
  dec4 <- _DecoderBlockV2.__init__ (512 * factors) (256 * factors)
                                   (128 * factors) bn ;;
  dec3 <- _DecoderBlockV2.__init__ (256 * factors) (128 * factors)
                                   (64 * factors) bn ;;
  dec2 <- _DecoderBlockV2.__init__ (128 * factors) (64 * factors)
                                   (32 * factors) bn ;;
  l0 <- nn.Conv2d (64 * factors) (32 * factors) 3 1 reflect ;;
  l1 <- (if bn then nn.BatchNorm2d (32 * factors)
         else nn.GroupNorm 32 (32 * factors)) ;;
  l2 <- nn.GELU ;;
  l3 <- nn.Conv2d (32 * factors) (32 * factors) 1 0 zeros ;;
  l4 <- (if bn then nn.BatchNorm2d (32 * factors)
         else nn.GroupNorm 32 (32 * factors)) ;;
  l5 <- nn.GELU ;;
  let dec1 := [l0; l1; l2; l3; l4; l5] in
  heads <- (if multi_scale
            then
              conv_8 <- nn.Conv2d (128 * factors) num_classes 1 0 zeros ;;
              conv_4 <- nn.Conv2d (64 * factors) num_classes 1 0 zeros ;;
              conv_2 <- nn.Conv2d (32 * factors) num_classes 1 0 zeros ;;
              ret (Some conv_8, Some conv_4, Some conv_2)
            else ret (None, None, None)) ;;
  let '(conv_8, conv_4, conv_2) := heads in
  final <- nn.Conv2d (32 * factors) num_classes 1 0 zeros ;;
  let self := mk multi_scale enc1 enc2 enc3 enc4 polling center dec4 dec3 dec2
                 dec1 conv_8 conv_4 conv_2 final in
  initialize_weights (parameters self) ;;
  ret self.

(** [self.name]: an attribute that was never assigned raises. *)
Definition attr (a : option Layer) : M Layer :=
  match a with
  | Some l => ret l
  | None => raise AttributeError
  end.

Definition forward (self : t) (x : Tensor) : M (Output Tensor) :=
  enc1 <- _EncoderBlockV2.forward (enc1 self) x ;;
  enc2 <- _EncoderBlockV2.forward (enc2 self) enc1 ;;
  enc3 <- _EncoderBlockV2.forward (enc3 self) enc2 ;;
  enc4 <- _EncoderBlockV2.forward (enc4 self) enc3 ;;
  pooled <- call (polling self) enc4 ;;
  center <- _DecoderBlockV2.forward (center self) pooled ;;
  up <- F.interpolate center (spatial enc4) false ;;
  fused <- torch.cat [up; enc4] ;;
  dec4 <- _DecoderBlockV2.forward (dec4 self) fused ;;
  up <- F.interpolate dec4 (spatial enc3) false ;;
  fused <- torch.cat [up; enc3] ;;
  dec3 <- _DecoderBlockV2.forward (dec3 self) fused ;;
  up <- F.interpolate dec3 (spatial enc2) false ;;
  fused <- torch.cat [up; enc2] ;;
  dec2 <- _DecoderBlockV2.forward (dec2 self) fused ;;
  up <- F.interpolate dec2 (spatial enc1) false ;;
  fused <- torch.cat [up; enc1] ;;
  dec1 <- Sequential.forward (dec1 self) fused ;;
  final <- call (final self) dec1 ;;
  if multi_scale self
  then
    conv_8 <- attr (conv_8 self) ;;
    out_8 <- call conv_8 dec4 ;;
    conv_4 <- attr (conv_4 self) ;;
    out_4 <- call conv_4 dec3 ;;
    conv_2 <- attr (conv_2 self) ;;
    out_2 <- call conv_2 dec2 ;;
    ret (OTuple [out_8; out_4; out_2; final])
  else
    ret (OTensor final).
End Methods.
End UNetV2.

(** The [__main__] block: a default [UNetV2] with one input and one
    output channel, run once on a random [(1, 1, 200, 200)] tensor. *)
Definition main `{Backend} : M (Output Tensor) :=
  model <- UNetV2.__init__ 1 1 false 2 true ;;
  x <- torch.randn 1 1 200 200 ;;
  UNetV2.forward model x.

(** * A symbolic backend

    The free backend: the contents of a tensor is the expression that
    computed it.  Running a network on it shows which operations a
    result went through, and gives concrete runs that evaluate. *)

Inductive Expr : Type :=
| EInput
| EParam (r : Ref)
| EBuffer (r : Ref)
| EConv2d (mode : PaddingMode) (p : Z) (w b x : Expr)
| EConvTranspose2d (st : Z) (w b x : Expr)
| EGroupNorm (groups : Z) (w b x : Expr)
| EBatchNormTrain (w b x : Expr)
| EBatchNormEval (rm rv w b x : Expr)
| ERunningMean (old x : Expr)
| ERunningVar (old x : Expr)
| EReLU (x : Expr)
| EGELU (x : Expr)
| EDropout (g : nat) (x : Expr)
| EMaxPool2d (k st : Z) (x : Expr)
| EAvgPool2d (k st : Z) (x : Expr)
| EBilinear (align_corners : bool) (target : Z * Z) (x : Expr)
| ECat (a b : Expr)
| ERandn (g : nat) (sz : Size)
| EInit (g : nat) (old : Expr).

#[export] Instance symbolic : Backend := {|
  D := Expr;
  Seed := nat;
  conv2d_k := EConv2d;
  conv_transpose2d_k := EConvTranspose2d;
  group_norm_k := EGroupNorm;
  batch_norm_train_k := EBatchNormTrain;
  batch_norm_eval_k := EBatchNormEval;
  running_mean_k := ERunningMean;
  running_var_k := ERunningVar;
  relu_k := EReLU;
  gelu_k := EGELU;
  dropout_k := fun g x => (EDropout g x, S g);
  max_pool2d_k := EMaxPool2d;
  avg_pool2d_k := EAvgPool2d;
  bilinear_k := EBilinear;
  cat_k := ECat;
  randn_k := fun g sz => (ERandn g sz, S g);
  init_k := fun g old => (EInit g old, S g)
|}.

(** The pooling operations a value went through, from the input on,
    following the first tensor operand of every operation (the upstream
    operand of a concatenation). *)
Inductive Pooling : Type := MaxPooling | AvgPooling.

Fixpoint poolings (e : Expr) : list Pooling :=
  match e with
  | EMaxPool2d _ _ x => poolings x ++ [MaxPooling]
  | EAvgPool2d _ _ x => poolings x ++ [AvgPooling]
  | EConv2d _ _ _ _ x | EConvTranspose2d _ _ _ x | EGroupNorm _ _ _ x
  | EBatchNormTrain _ _ x | EBatchNormEval _ _ _ _ x
  | EReLU x | EGELU x | EDropout _ x | EBilinear _ _ x => poolings x
  | ECat a _ => poolings a
  | EInput | EParam _ | EBuffer _ | ERunningMean _ _ | ERunningVar _ _
  | ERandn _ _ | EInit _ _ => []
  end.

(** The resamplings a value went through, along the same path: the
    [align_corners] flag and the target size of each. *)
Fixpoint resamplings (e : Expr) : list (bool * (Z * Z)) :=
  match e with
  | EBilinear ac target x => resamplings x ++ [(ac, target)]
  | EMaxPool2d _ _ x | EAvgPool2d _ _ x
  | EConv2d _ _ _ _ x | EConvTranspose2d _ _ _ x | EGroupNorm _ _ _ x
  | EBatchNormTrain _ _ x | EBatchNormEval _ _ _ _ x
  | EReLU x | EGELU x | EDropout _ x => resamplings x
  | ECat a _ => resamplings a
  | EInput | EParam _ | EBuffer _ | ERunningMean _ _ | ERunningVar _ _
  | ERandn _ _ | EInit _ _ => []
  end.

(** A store in which every tensor still has its initial contents. *)
Definition store0 (train : bool) : @Store symbolic :=
  mkStore 0%nat train EParam EBuffer (fun _ => 0) 0%nat.

(** An input of the given size. *)
Definition input (n c h w : Z) : @Tensor symbolic :=
  mkTensor (mkSize n c h w) EInput.

(** * Sizes alone

    What a forward pass does to sizes, and whether it raises, depends
    neither on the contents of tensors nor on the store beyond the mode
    flag.  This section states that dependence as pure functions on
    sizes; the simulation lemmas further down prove that they agree with
    the [forward] methods above, error for error. *)

Module Sizes.

Definition rbind {A B} (r : Result A) (k : A -> Result B) : Result B :=
  match r with
  | Ok a => k a
  | Err e => Err e
  end.

Definition rmap {A B} (f : A -> B) (r : Result A) : Result B :=
  match r with
  | Ok a => Ok (f a)
  | Err e => Err e
  end.

Definition omap {A B} (f : A -> B) (o : Output A) : Output B :=
  match o with
  | OTensor x => OTensor (f x)
  | OTuple xs => OTuple (map f xs)
  end.

Definition conv2d (m : Conv2d.t) (sz : Size) : Result Size :=
  let p := Conv2d.padding m in
  let k := Conv2d.kernel_size m in
  rbind (match Conv2d.padding_mode m with
         | reflect =>
             if (p <? height sz) && (p <? width sz) then Ok tt
             else Err PaddingTooLarge
         | zeros => Ok tt
         end)
    (fun _ =>
       if negb (channels sz =? Conv2d.in_channels m) then Err ChannelMismatch
       else if (height sz + 2 * p <? k) || (width sz + 2 * p <? k)
       then Err KernelTooLarge
       else Ok (mkSize (batch sz) (Conv2d.out_channels m)
                       (height sz + 2 * p - k + 1) (width sz + 2 * p - k + 1))).

Definition conv_transpose2d (m : ConvTranspose2d.t) (sz : Size) : Result Size :=
  if negb (channels sz =? ConvTranspose2d.in_channels m) then Err ChannelMismatch
  else Ok (mkSize (batch sz) (ConvTranspose2d.out_channels m)
             ((height sz - 1) * ConvTranspose2d.stride m
              + (ConvTranspose2d.kernel_size m - 1) + 1)
             ((width sz - 1) * ConvTranspose2d.stride m
              + (ConvTranspose2d.kernel_size m - 1) + 1)).

Definition group_norm (m : GroupNorm.t) (sz : Size) : Result Size :=
  if (batch sz * channels sz / GroupNorm.num_groups m) * height sz * width sz =? 1
  then Err OneValuePerChannel
  else if negb (channels sz =? GroupNorm.num_channels m) then Err ChannelMismatch
  else Ok sz.

Definition batch_norm (tr : bool) (m : BatchNorm2d.t) (sz : Size) : Result Size :=
  if tr && (batch sz * height sz * width sz =? 1) then Err OneValuePerChannel
  else if negb (channels sz =? BatchNorm2d.num_features m) then Err ChannelMismatch
  else Ok sz.

Definition pool2d (k st : Z) (sz : Size) : Result Size :=
  let oh := pooling_output_shape (height sz) k st in
  let ow := pooling_output_shape (width sz) k st in
  if (oh <? 1) || (ow <? 1) then Err OutputTooSmall
  else Ok (mkSize (batch sz) (channels sz) oh ow).

Definition layer (tr : bool) (l : Layer) (sz : Size) : Result Size :=
  match l with
  | LConv2d m => conv2d m sz
  | LConvTranspose2d m => conv_transpose2d m sz
  | LGroupNorm m => group_norm m sz
  | LBatchNorm2d m => batch_norm tr m sz
  | LReLU _ | LGELU | LDropout => Ok sz
  | LMaxPool2d m => pool2d (MaxPool2d.kernel_size m) (MaxPool2d.stride m) sz
  | LAvgPool2d m => pool2d (AvgPool2d.kernel_size m) (AvgPool2d.stride m) sz
  end.

Fixpoint sequential (tr : bool) (ls : list Layer) (sz : Size) : Result Size :=
  match ls with
  | [] => Ok sz
  | l :: ls' => rbind (layer tr l sz) (sequential tr ls')
  end.

Definition interpolate (sz : Size) (target : Z * Z) : Result Size :=
  if (height sz <=? 0) || (width sz <=? 0)
     || (fst target <=? 0) || (snd target <=? 0)
  then Err EmptyInterpolation
  else Ok (mkSize (batch sz) (channels sz) (fst target) (snd target)).

Fixpoint cat_onto (acc : Size) (ts : list Size) : Result Size :=
  match ts with
  | [] => Ok acc
  | t :: ts' =>
      if (batch t =? batch acc) && (height t =? height acc)
         && (width t =? width acc)
      then cat_onto (mkSize (batch acc) (channels acc + channels t)
                            (height acc) (width acc)) ts'
      else Err SizesMustMatch
  end.

Definition cat (ts : list Size) : Result Size :=
  match ts with
  | [] => Err EmptyList
  | t :: ts' => cat_onto t ts'
  end.

(** A block that pools, if it has a pool, and then runs its layers:
    both encoder blocks. *)
Definition encoder (tr : bool) (pool : option Layer) (encode : list Layer)
  (sz : Size) : Result Size :=
  rbind (match pool with
         | Some p => layer tr p sz
         | None => Ok sz
         end)
        (sequential tr encode).

Definition hw (sz : Size) : Z * Z := (height sz, width sz).

Definition unet (tr : bool) (self : UNet.t) (x : Size) : Result Size :=
  rbind (encoder tr (_EncoderBlock.pool (UNet.enc1 self))
                 (_EncoderBlock.encode (UNet.enc1 self)) x) (fun enc1 =>
  rbind (encoder tr (_EncoderBlock.pool (UNet.enc2 self))
                 (_EncoderBlock.encode (UNet.enc2 self)) enc1) (fun enc2 =>
  rbind (encoder tr (_EncoderBlock.pool (UNet.enc3 self))
                 (_EncoderBlock.encode (UNet.enc3 self)) enc2) (fun enc3 =>
  rbind (encoder tr (_EncoderBlock.pool (UNet.enc4 self))
                 (_EncoderBlock.encode (UNet.enc4 self)) enc3) (fun enc4 =>
  rbind (layer tr (UNet.polling self) enc4) (fun pooled =>
  rbind (sequential tr (_DecoderBlock.decode (UNet.center self)) pooled)
        (fun center =>
  rbind (interpolate center (hw enc4)) (fun up =>
  rbind (cat [up; enc4]) (fun fused =>
  rbind (sequential tr (_DecoderBlock.decode (UNet.dec4 self)) fused)
        (fun dec4 =>
  rbind (cat [dec4; enc3]) (fun fused =>
  rbind (sequential tr (_DecoderBlock.decode (UNet.dec3 self)) fused)
        (fun dec3 =>
  rbind (cat [dec3; enc2]) (fun fused =>
  rbind (sequential tr (_DecoderBlock.decode (UNet.dec2 self)) fused)
        (fun dec2 =>
  rbind (cat [dec2; enc1]) (fun fused =>
  rbind (sequential tr (UNet.dec1 self) fused) (fun dec1 =>
  layer tr (UNet.final self) dec1))))))))))))))).

Definition attr (a : option Layer) : Result Layer :=
  match a with
  | Some l => Ok l
  | None => Err AttributeError
  end.

Definition unet_v2 (tr : bool) (self : UNetV2.t) (x : Size)
  : Result (Output Size) :=
  rbind (encoder tr (_EncoderBlockV2.pool (UNetV2.enc1 self))
                 (_EncoderBlockV2.encode (UNetV2.enc1 self)) x) (fun enc1 =>
  rbind (encoder tr (_EncoderBlockV2.pool (UNetV2.enc2 self))
                 (_EncoderBlockV2.encode (UNetV2.enc2 self)) enc1) (fun enc2 =>
  rbind (encoder tr (_EncoderBlockV2.pool (UNetV2.enc3 self))
                 (_EncoderBlockV2.encode (UNetV2.enc3 self)) enc2) (fun enc3 =>
  rbind (encoder tr (_EncoderBlockV2.pool (UNetV2.enc4 self))
                 (_EncoderBlockV2.encode (UNetV2.enc4 self)) enc3) (fun enc4 =>
  rbind (layer tr (UNetV2.polling self) enc4) (fun pooled =>
  rbind (sequential tr (_DecoderBlockV2.decode (UNetV2.center self)) pooled)
        (fun center =>
  rbind (interpolate center (hw enc4)) (fun up =>
  rbind (cat [up; enc4]) (fun fused =>
  rbind (sequential tr (_DecoderBlockV2.decode (UNetV2.dec4 self)) fused)
        (fun dec4 =>
  rbind (interpolate dec4 (hw enc3)) (fun up =>
  rbind (cat [up; enc3]) (fun fused =>
  rbind (sequential tr (_DecoderBlockV2.decode (UNetV2.dec3 self)) fused)
        (fun dec3 =>
  rbind (interpolate dec3 (hw enc2)) (fun up =>
  rbind (cat [up; enc2]) (fun fused =>
  rbind (sequential tr (_DecoderBlockV2.decode (UNetV2.dec2 self)) fused)
        (fun dec2 =>
  rbind (interpolate dec2 (hw enc1)) (fun up =>
  rbind (cat [up; enc1]) (fun fused =>
  rbind (sequential tr (UNetV2.dec1 self) fused) (fun dec1 =>
  rbind (layer tr (UNetV2.final self) dec1) (fun final =>
  if UNetV2.multi_scale self
  then
    rbind (attr (UNetV2.conv_8 self)) (fun conv_8 =>
    rbind (layer tr conv_8 dec4) (fun out_8 =>
    rbind (attr (UNetV2.conv_4 self)) (fun conv_4 =>
    rbind (layer tr conv_4 dec3) (fun out_4 =>
    rbind (attr (UNetV2.conv_2 self)) (fun conv_2 =>
    rbind (layer tr conv_2 dec2) (fun out_2 =>
    Ok (OTuple [out_8; out_4; out_2; final])))))))
  else Ok (OTensor final)))))))))))))))))))).

End Sizes.

(** * The architecture, without the tensors

    [strip] forgets which tensors a layer owns.  [Arch] describes, in
    stripped form, the modules the constructors are expected to build. *)

Definition strip (l : Layer) : Layer :=
  match l with
  | LConv2d m =>
      LConv2d (Conv2d.mk (Conv2d.in_channels m) (Conv2d.out_channels m)
                 (Conv2d.kernel_size m) (Conv2d.padding m)
                 (Conv2d.padding_mode m) 0%nat 0%nat)
  | LConvTranspose2d m =>
      LConvTranspose2d
        (ConvTranspose2d.mk (ConvTranspose2d.in_channels m)
           (ConvTranspose2d.out_channels m) (ConvTranspose2d.kernel_size m)
           (ConvTranspose2d.stride m) 0%nat 0%nat)
  | LGroupNorm m =>
      LGroupNorm (GroupNorm.mk (GroupNorm.num_groups m)
                    (GroupNorm.num_channels m) 0%nat 0%nat)
  | LBatchNorm2d m =>
      LBatchNorm2d (BatchNorm2d.mk (BatchNorm2d.num_features m)
                      0%nat 0%nat 0%nat 0%nat 0%nat)
  | LReLU _ | LGELU | LDropout | LMaxPool2d _ | LAvgPool2d _ => l
  end.

Definition strip_encoder (b : _EncoderBlock.t) : _EncoderBlock.t :=
  _EncoderBlock.mk (map strip (_EncoderBlock.encode b))
                   (option_map strip (_EncoderBlock.pool b)).

Definition strip_decoder (b : _DecoderBlock.t) : _DecoderBlock.t :=
  _DecoderBlock.mk (map strip (_DecoderBlock.decode b)).

Definition strip_encoder_v2 (b : _EncoderBlockV2.t) : _EncoderBlockV2.t :=
  _EncoderBlockV2.mk (map strip (_EncoderBlockV2.encode b))
                     (option_map strip (_EncoderBlockV2.pool b)).

Definition strip_decoder_v2 (b : _DecoderBlockV2.t) : _DecoderBlockV2.t :=
  _DecoderBlockV2.mk (map strip (_DecoderBlockV2.decode b)).

Definition strip_unet (net : UNet.t) : UNet.t :=
  UNet.mk
    (strip_encoder (UNet.enc1 net)) (strip_encoder (UNet.enc2 net))
    (strip_encoder (UNet.enc3 net)) (strip_encoder (UNet.enc4 net))
    (strip (UNet.polling net))
    (strip_decoder (UNet.center net)) (strip_decoder (UNet.dec4 net))
    (strip_decoder (UNet.dec3 net)) (strip_decoder (UNet.dec2 net))
    (map strip (UNet.dec1 net))
    (strip (UNet.final net)).

Definition strip_unet_v2 (net : UNetV2.t) : UNetV2.t :=
  UNetV2.mk (UNetV2.multi_scale net)
    (strip_encoder_v2 (UNetV2.enc1 net)) (strip_encoder_v2 (UNetV2.enc2 net))
    (strip_encoder_v2 (UNetV2.enc3 net)) (strip_encoder_v2 (UNetV2.enc4 net))
    (strip (UNetV2.polling net))
    (strip_decoder_v2 (UNetV2.center net)) (strip_decoder_v2 (UNetV2.dec4 net))
    (strip_decoder_v2 (UNetV2.dec3 net)) (strip_decoder_v2 (UNetV2.dec2 net))
    (map strip (UNetV2.dec1 net))
    (option_map strip (UNetV2.conv_8 net))
    (option_map strip (UNetV2.conv_4 net))
    (option_map strip (UNetV2.conv_2 net))
    (strip (UNetV2.final net)).

Module Arch.

Definition conv (cin cout k p : Z) (mode : PaddingMode) : Layer :=
  LConv2d (Conv2d.mk cin cout k p mode 0%nat 0%nat).

Definition conv_transpose (cin cout k st : Z) : Layer :=
  LConvTranspose2d (ConvTranspose2d.mk cin cout k st 0%nat 0%nat).

Definition norm (bn : bool) (c : Z) : Layer :=
  if bn then LBatchNorm2d (BatchNorm2d.mk c 0%nat 0%nat 0%nat 0%nat 0%nat)
  else LGroupNorm (GroupNorm.mk 32 c 0%nat 0%nat).

Definition relu : Layer := LReLU (ReLU.mk true).

Definition max_pool : Layer := LMaxPool2d (MaxPool2d.mk 2 2).

Definition avg_pool : Layer := LAvgPool2d (AvgPool2d.mk 2 2).

(** conv 3x3 - norm - ReLU, twice: [_EncoderBlock.encode], [UNet.dec1] *)
Definition double_conv (cin cout : Z) (bn : bool) : list Layer :=
  [conv cin cout 3 1 zeros; norm bn cout; relu;
   conv cout cout 3 1 zeros; norm bn cout; relu].

(** [_DecoderBlock.decode] *)
Definition decoder (cin cmid cout : Z) (bn : bool) : list Layer :=
  double_conv cin cmid bn ++ [conv_transpose cmid cout 2 2].

(** reflect-padded conv 3x3 - norm - GELU, twice:
    [_EncoderBlockV2.encode] (with [cmid = cout]), [_DecoderBlockV2.decode] *)
Definition double_conv_v2 (cin cmid cout : Z) (bn : bool) : list Layer :=
  [conv cin cmid 3 1 reflect; norm bn cmid; LGELU;
   conv cmid cout 3 1 reflect; norm bn cout; LGELU].

(** [UNetV2.dec1]: the second convolution is 1x1 *)
Definition dec1_v2 (cin cout : Z) (bn : bool) : list Layer :=
  [conv cin cout 3 1 reflect; norm bn cout; LGELU;
   conv cout cout 1 0 zeros; norm bn cout; LGELU].

Definition pool_of (polling : bool) : option Layer :=
  if polling then Some max_pool else None.

(** [_EncoderBlock(cin, cout, polling=..., bn=...)] *)
Definition encoder (cin cout : Z) (polling bn : bool) : _EncoderBlock.t :=
  _EncoderBlock.mk (double_conv cin cout bn) (pool_of polling).

(** [_EncoderBlockV2(cin, cout, polling=..., bn=...)] *)
Definition encoder_v2 (cin cout : Z) (polling bn : bool) : _EncoderBlockV2.t :=
  _EncoderBlockV2.mk (double_conv_v2 cin cout cout bn) (pool_of polling).

(** [UNet(num_classes, in_channels, bn)] *)
Definition unet (num_classes in_channels : Z) (bn : bool) : UNet.t :=
  UNet.mk
    (encoder in_channels 64 false bn)
    (encoder 64 128 true bn)
    (encoder 128 256 true bn)
    (encoder 256 512 true bn)
    max_pool
    (_DecoderBlock.mk (decoder 512 1024 512 bn))
    (_DecoderBlock.mk (decoder 1024 512 256 bn))
    (_DecoderBlock.mk (decoder 512 256 128 bn))
    (_DecoderBlock.mk (decoder 256 128 64 bn))
    (double_conv 128 64 bn)
    (conv 64 num_classes 1 0 zeros).

Definition head (multi_scale : bool) (cin num_classes : Z) : option Layer :=
  if multi_scale then Some (conv cin num_classes 1 0 zeros) else None.

(** [UNetV2(num_classes, in_channels, bn, factors, multi_scale)] *)
Definition unet_v2 (num_classes in_channels : Z) (bn : bool) (factors : Z)
  (multi_scale : bool) : UNetV2.t :=
  UNetV2.mk multi_scale
    (encoder_v2 in_channels (32 * factors) false bn)
    (encoder_v2 (32 * factors) (64 * factors) true bn)
    (encoder_v2 (64 * factors) (128 * factors) true bn)
    (encoder_v2 (128 * factors) (256 * factors) true bn)
    avg_pool
    (_DecoderBlockV2.mk
       (double_conv_v2 (256 * factors) (512 * factors) (256 * factors) bn))
    (_DecoderBlockV2.mk
       (double_conv_v2 (512 * factors) (256 * factors) (128 * factors) bn))
    (_DecoderBlockV2.mk
       (double_conv_v2 (256 * factors) (128 * factors) (64 * factors) bn))
    (_DecoderBlockV2.mk
       (double_conv_v2 (128 * factors) (64 * factors) (32 * factors) bn))
    (dec1_v2 (64 * factors) (32 * factors) bn)
    (head multi_scale (128 * factors) num_classes)
    (head multi_scale (64 * factors) num_classes)
    (head multi_scale (32 * factors) num_classes)
    (conv (32 * factors) num_classes 1 0 zeros).

End Arch.

(** [(num_groups, num_channels)] of every [GroupNorm] among the layers. *)
Definition group_norms (ls : list Layer) : list (Z * Z) :=
  flat_map (fun l => match l with
                     | LGroupNorm m =>
                         [(GroupNorm.num_groups m, GroupNorm.num_channels m)]
                     | _ => []
                     end) ls.

(** * The fuse-and-decode ladder as the specification words it

    "Four steps, each: resample the previous decoder/bottleneck output to
    the spatial size of the corresponding retained encoder output using
    bilinear interpolation with aligned corners, concatenate channel-wise
    with that encoder output, run through the corresponding decoder
    block."  [rung] is one such step, with a switch for the resampling;
    [ladder] is the forward pass of [UNet] built from four rungs. *)

Module Ladder.
Section Ladder.
Context `{Backend}.

Definition rung (resample : bool) (prev skip : Tensor)
  (decode : Tensor -> M Tensor) : M Tensor :=
  up <- (if resample then F.interpolate prev (spatial skip) true
         else ret prev) ;;
  fused <- torch.cat [up; skip] ;;
  decode fused.

Definition forward (r4 r3 r2 r1 : bool) (self : UNet.t) (x : Tensor)
  : M Tensor :=
  enc1 <- _EncoderBlock.forward (UNet.enc1 self) x ;;
  enc2 <- _EncoderBlock.forward (UNet.enc2 self) enc1 ;;
  enc3 <- _EncoderBlock.forward (UNet.enc3 self) enc2 ;;
  enc4 <- _EncoderBlock.forward (UNet.enc4 self) enc3 ;;
  pooled <- call (UNet.polling self) enc4 ;;
  center <- _DecoderBlock.forward (UNet.center self) pooled ;;
  dec4 <- rung r4 center enc4 (_DecoderBlock.forward (UNet.dec4 self)) ;;
  dec3 <- rung r3 dec4 enc3 (_DecoderBlock.forward (UNet.dec3 self)) ;;
  dec2 <- rung r2 dec3 enc2 (_DecoderBlock.forward (UNet.dec2 self)) ;;
  dec1 <- rung r1 dec2 enc1 (Sequential.forward (UNet.dec1 self)) ;;
  call (UNet.final self) dec1.

(** The ladder of the specification: every rung resamples. *)
Definition specified : UNet.t -> Tensor -> M Tensor := forward true true true true.
End Ladder.
End Ladder.

(** * Vocabulary of the proofs *)

Section Vocabulary.
Context `{Backend}.

(** [quiet m]: [m] keeps the mode flag and every learnable parameter,
    and in evaluation mode it leaves the whole store as it found it. *)
Definition quiet {A} (m : M A) : Prop :=
  forall s,
    training (snd (m s)) = training s
    /\ params (snd (m s)) = params s
    /\ (training s = false -> snd (m s) = s).

(** [sim tr m f p]: started in any store whose mode flag is [tr], the
    computation [m] returns a result whose image under [f] is [p] - the
    same value or the same exception. *)
Definition sim {A SA} (tr : bool) (m : M A) (f : A -> SA) (p : Result SA)
  : Prop :=
  forall s, training s = tr -> Sizes.rmap f (fst (m s)) = p.

(** Two stores in evaluation mode that hold the same parameters and the
    same running statistics. *)
Definition same_state (s1 s2 : Store) : Prop :=
  training s1 = false /\ training s2 = false
  /\ (forall r, params s1 r = params s2 r)
  /\ (forall r, buffers s1 r = buffers s2 r).

(** [deterministic m]: from two such stores [m] returns the same. *)
Definition deterministic {A} (m : M A) : Prop :=
  forall s1 s2, same_state s1 s2 -> fst (m s1) = fst (m s2).

(** [yields m a]: some run of [m] returns [a]. *)
Definition yields {A} (m : M A) (a : A) : Prop :=
  exists s s', m s = (Ok a, s').

(** [builds m Q]: whatever [m] returns satisfies [Q]. *)
Definition builds {A} (m : M A) (Q : A -> Prop) : Prop :=
  forall s a s', m s = (Ok a, s') -> Q a.

(** [total m]: [m] returns, it does not raise. *)
Definition total {A} (m : M A) : Prop :=
  forall s, exists a s', m s = (Ok a, s').

End Vocabulary.

(** The tensors of an output, in order. *)
Definition tensors {T} (o : Output T) : list T :=
  match o with
  | OTensor x => [x]
  | OTuple xs => xs
  end.

(** The smallest side a 3x3 convolution with padding 1 accepts. *)
Definition min_side (mode : PaddingMode) : Z :=
  match mode with zeros => 1 | reflect => 2 end.

(** When a normalisation accepts an input. *)
Definition norm_fits (tr bn : bool) (n c h w : Z) : Prop :=
  if bn then tr = true -> n * h * w <> 1
  else (n * c / 32) * h * w <> 1.

(** The sizes [UNetV2.forward] returns for an [(n, _, h, w)] input. *)
Definition v2_sizes (multi_scale : bool) (n num_classes h w : Z) : Output Size :=
  if multi_scale
  then OTuple [mkSize n num_classes (h / 8) (w / 8);
               mkSize n num_classes (h / 4) (w / 4);
               mkSize n num_classes (h / 2) (w / 2);
               mkSize n num_classes h w]
  else OTensor (mkSize n num_classes h w).

(** ** Vocabulary of the further properties *)

(** [self.multi_scale = b], assigned to a network after its construction:
    the flag changes, the modules stay. *)
Definition set_multi_scale (b : bool) (self : UNetV2.t) : UNetV2.t :=
  UNetV2.mk b (UNetV2.enc1 self) (UNetV2.enc2 self) (UNetV2.enc3 self)
    (UNetV2.enc4 self) (UNetV2.polling self) (UNetV2.center self)
    (UNetV2.dec4 self) (UNetV2.dec3 self) (UNetV2.dec2 self) (UNetV2.dec1 self)
    (UNetV2.conv_8 self) (UNetV2.conv_4 self) (UNetV2.conv_2 self)
    (UNetV2.final self).

(** Layers whose [forward] neither reads nor writes anything but
    parameters: all but batch normalisation and dropout. *)
Definition stateless (l : Layer) : bool :=
  match l with
  | LBatchNorm2d _ | LDropout => false
  | _ => true
  end.

(** Every layer but dropout. *)
Definition no_dropout (l : Layer) : bool :=
  match l with
  | LDropout => false
  | _ => true
  end.

Section Frames.
Context `{Backend}.

(** [pure m]: [m] leaves the store as it found it, and what it returns
    depends on the store through the parameters only. *)
Definition pure {A} (m : M A) : Prop :=
  forall s,
    snd (m s) = s
    /\ forall s', (forall r, params s' r = params s r) -> fst (m s') = fst (m s).

(** [rng_free m]: [m] neither reads nor advances the random generator:
    started with another generator state it does the same, and leaves
    that state behind. *)
Definition rng_free {A} (m : M A) : Prop :=
  forall s g,
    m (snd (set_rng g s)) = (fst (m s), snd (set_rng g (snd (m s)))).

End Frames.

(** [num_batches_tracked] of a layer: batch normalisation has one. *)
Definition Layer_counters (l : Layer) : list Ref :=
  match l with
  | LBatchNorm2d m => [BatchNorm2d.num_batches_tracked m]
  | _ => []
  end.

(** [ranged lo hi rs]: the references [rs] are pairwise distinct and lie
    in [lo, hi). *)
Definition ranged (lo hi : Ref) (rs : list Ref) : Prop :=
  (lo <= hi)%nat /\ NoDup rs /\ Forall (fun r => (lo <= r < hi)%nat) rs.

(** [owns refs]: what a constructor allocates for a layer, as [refs]
    reads it off the layer, is distinct and new. *)
Definition owns `{Backend} (refs : Layer -> list Ref) (m : M Layer) : Prop :=
  forall s l s', m s = (Ok l, s') ->
                 ranged (next_ref s) (next_ref s') (refs l).

(** [counts m rs]: a run of [m] that starts in training mode and
    returns has stayed in training mode and has added to every batch
    counter the number of times it occurs in [rs]. *)
Definition counts `{Backend} {A} (m : M A) (rs : list Ref) : Prop :=
  forall s a s',
    training s = true -> m s = (Ok a, s') ->
    training s' = true
    /\ forall r, counters s' r
                 = counters s r + Z.of_nat (count_occ Nat.eq_dec rs r).

(** * Lemmas *)

(** ** The monad, and what a computation may do to the store *)

Section MonadLemmas.
Context `{Backend}.

Lemma bind_ok {A B} (m : M A) (k : A -> M B) s a s1 :
  m s = (Ok a, s1) -> bind m k s = k a s1.
Proof. unfold bind; intros ->; reflexivity. Qed.

Lemma bind_err {A B} (m : M A) (k : A -> M B) s e s1 :
  m s = (Err e, s1) -> bind m k s = (Err e, s1).
Proof. unfold bind; intros ->; reflexivity. Qed.

Lemma bind_inv {A B} (m : M A) (k : A -> M B) s b s' :
  bind m k s = (Ok b, s') ->
  exists a s1, m s = (Ok a, s1) /\ k a s1 = (Ok b, s').
Proof.
  unfold bind; destruct (m s) as [[a|e] s1]; intros E.
  - exists a, s1; split; [reflexivity | exact E].
  - discriminate.
Qed.

Lemma bind_ret_l {A B} (a : A) (k : A -> M B) s : bind (ret a) k s = k a s.
Proof. reflexivity. Qed.

Lemma bind_assoc {A B C} (m : M A) (k : A -> M B) (k' : B -> M C) s :
  bind (bind m k) k' s = bind m (fun a => bind (k a) k') s.
Proof. unfold bind; destruct (m s) as [[a|e] s1]; reflexivity. Qed.

Lemma quiet_ret {A} (a : A) : quiet (ret a).
Proof. intros s; cbn; auto. Qed.

Lemma quiet_raise {A} e : quiet (@raise _ A e).
Proof. intros s; cbn; auto. Qed.

Lemma quiet_bind {A B} (m : M A) (k : A -> M B) :
  quiet m -> (forall a, quiet (k a)) -> quiet (bind m k).
Proof.
  intros Hm Hk s. destruct (Hm s) as (Ht & Hp & He).
  unfold bind. destruct (m s) as [[a|e] s1]; cbn in *.
  - destruct (Hk a s1) as (Ht' & Hp' & He').
    repeat split.
    + congruence.
    + congruence.
    + intros E. rewrite He' by congruence. auto.
  - auto.
Qed.

Lemma quiet_if {A} (b : bool) (m1 m2 : M A) :
  quiet m1 -> quiet m2 -> quiet (if b then m1 else m2).
Proof. destruct b; auto. Qed.

End MonadLemmas.

(** ** Forward passes are quiet *)

Section Quiet.
Context `{Backend}.

Lemma quiet_get : quiet get.
Proof. intros s; cbn; auto. Qed.

Lemma quiet_Conv2d m x : quiet (Conv2d.forward m x).
Proof.
  unfold Conv2d.forward.
  apply quiet_bind.
  - destruct (Conv2d.padding_mode m); [apply quiet_ret|].
    apply quiet_if; [apply quiet_ret | apply quiet_raise].
  - intros _. repeat (apply quiet_if; [apply quiet_raise|]).
    apply quiet_bind; [apply quiet_get | intros; apply quiet_ret].
Qed.

Lemma quiet_ConvTranspose2d m x : quiet (ConvTranspose2d.forward m x).
Proof.
  unfold ConvTranspose2d.forward.
  apply quiet_if; [apply quiet_raise|].
  apply quiet_bind; [apply quiet_get | intros; apply quiet_ret].
Qed.

Lemma quiet_GroupNorm m x : quiet (GroupNorm.forward m x).
Proof.
  unfold GroupNorm.forward.
  repeat (apply quiet_if; [apply quiet_raise|]).
  apply quiet_bind; [apply quiet_get | intros; apply quiet_ret].
Qed.

(** In training mode batch normalisation writes its counter and its
    running statistics, which are buffers; in evaluation mode it writes
    nothing. *)
Lemma quiet_BatchNorm2d m x : quiet (BatchNorm2d.forward m x).
Proof.
  intros s. unfold BatchNorm2d.forward, bind, get.
  destruct (training s) eqn:Et; cbn [set_counter ret andb fst snd].
  - destruct (_ =? 1); [cbn; rewrite Et; repeat split; congruence|].
    destruct (negb _); cbn; rewrite Et; repeat split; congruence.
  - destruct (negb _); cbn; auto.
Qed.

Lemma quiet_Dropout x : quiet (Dropout.forward x).
Proof.
  intros s. unfold Dropout.forward, bind, get.
  destruct (training s) eqn:Et; cbn; rewrite ?Et; repeat split; congruence.
Qed.

Lemma quiet_MaxPool2d m x : quiet (MaxPool2d.forward m x).
Proof.
  unfold MaxPool2d.forward. apply quiet_if; [apply quiet_raise | apply quiet_ret].
Qed.

Lemma quiet_AvgPool2d m x : quiet (AvgPool2d.forward m x).
Proof.
  unfold AvgPool2d.forward. apply quiet_if; [apply quiet_raise | apply quiet_ret].
Qed.

Lemma quiet_call l x : quiet (call l x).
Proof.
  destruct l; cbn [call].
  - apply quiet_Conv2d.
  - apply quiet_ConvTranspose2d.
  - apply quiet_GroupNorm.
  - apply quiet_BatchNorm2d.
  - apply quiet_ret.
  - apply quiet_ret.
  - apply quiet_Dropout.
  - apply quiet_MaxPool2d.
  - apply quiet_AvgPool2d.
Qed.

Lemma quiet_Sequential ls : forall x, quiet (Sequential.forward ls x).
Proof.
  induction ls as [|l ls IH]; intros x; cbn [Sequential.forward].
  - apply quiet_ret.
  - apply quiet_bind; [apply quiet_call | exact IH].
Qed.

Lemma quiet_interpolate x target ac : quiet (F.interpolate x target ac).
Proof.
  unfold F.interpolate. apply quiet_if; [apply quiet_raise | apply quiet_ret].
Qed.

Lemma quiet_cat_onto ts : forall acc, quiet (torch.cat_onto acc ts).
Proof.
  induction ts as [|t ts IH]; intros acc; cbn [torch.cat_onto].
  - apply quiet_ret.
  - apply quiet_if; [apply IH | apply quiet_raise].
Qed.

Lemma quiet_cat ts : quiet (torch.cat ts).
Proof.
  destruct ts; cbn [torch.cat]; [apply quiet_raise | apply quiet_cat_onto].
Qed.

Lemma quiet_EncoderBlock b x : quiet (_EncoderBlock.forward b x).
Proof.
  unfold _EncoderBlock.forward. apply quiet_bind.
  - destruct (_EncoderBlock.pool b); [apply quiet_call | apply quiet_ret].
  - intros; apply quiet_Sequential.
Qed.

Lemma quiet_DecoderBlock b x : quiet (_DecoderBlock.forward b x).
Proof. apply quiet_Sequential. Qed.

Lemma quiet_EncoderBlockV2 b x : quiet (_EncoderBlockV2.forward b x).
Proof.
  unfold _EncoderBlockV2.forward. apply quiet_bind.
  - destruct (_EncoderBlockV2.pool b); [apply quiet_call | apply quiet_ret].
  - intros; apply quiet_Sequential.
Qed.

Lemma quiet_DecoderBlockV2 b x : quiet (_DecoderBlockV2.forward b x).
Proof. apply quiet_Sequential. Qed.

Lemma quiet_attr a : quiet (UNetV2.attr a).
Proof. destruct a; [apply quiet_ret | apply quiet_raise]. Qed.

End Quiet.

Create HintDb quiet discriminated.

#[export] Hint Resolve quiet_ret quiet_raise quiet_get quiet_call quiet_Sequential
  quiet_interpolate quiet_cat quiet_EncoderBlock quiet_DecoderBlock
  quiet_EncoderBlockV2 quiet_DecoderBlockV2 quiet_attr : quiet.

Ltac quiet_steps :=
  repeat first
    [ solve [auto with quiet]
    | apply quiet_bind; [ | intros ? ]
    | apply quiet_if ].

Section QuietNetworks.
Context `{Backend}.

Lemma quiet_UNet net x : quiet (UNet.forward net x).
Proof. unfold UNet.forward. quiet_steps. Qed.

Lemma quiet_UNetV2 net x : quiet (UNetV2.forward net x).
Proof. unfold UNetV2.forward. quiet_steps. Qed.

Lemma quiet_rung r prev skip decode :
  (forall y, quiet (decode y)) -> quiet (Ladder.rung r prev skip decode).
Proof. intros Hd. unfold Ladder.rung. quiet_steps. Qed.

End QuietNetworks.

(** ** Simulation: the size functions agree with the forward passes *)

Section Simulation.
Context `{Backend}.

Lemma sim_ret {A SA} tr (a : A) (f : A -> SA) : sim tr (ret a) f (Ok (f a)).
Proof. intros s _; reflexivity. Qed.

Lemma sim_raise {A SA} tr e (f : A -> SA) : sim tr (raise e) f (Err e).
Proof. intros s _; reflexivity. Qed.

Lemma sim_bind {A B SA SB} tr (m : M A) (k : A -> M B)
  (f : A -> SA) (g : B -> SB) p q :
  quiet m ->
  sim tr m f p ->
  (forall a, sim tr (k a) g (q (f a))) ->
  sim tr (bind m k) g (Sizes.rbind p q).
Proof.
  intros Hq Hm Hk s Htr.
  specialize (Hm s Htr). destruct (Hq s) as (Ht & _).
  unfold bind. destruct (m s) as [[a|e] s1]; cbn in *; subst p; cbn.
  - apply Hk. congruence.
  - reflexivity.
Qed.

Lemma sim_bind_ret {A SA} tr (m : M A) (f : A -> SA) p :
  sim tr m f p -> sim tr (bind m (fun a => ret a)) f p.
Proof.
  intros Hm s Htr. specialize (Hm s Htr).
  unfold bind. destruct (m s) as [[a|e] s1]; exact Hm.
Qed.

Lemma sim_Conv2d tr m x :
  sim tr (Conv2d.forward m x) size (Sizes.conv2d m (size x)).
Proof.
  intros s _. unfold Conv2d.forward, Sizes.conv2d, bind, get, ret, raise.
  destruct (Conv2d.padding_mode m); cbn.
  - repeat (match goal with |- context [if ?b then _ else _] => destruct b end;
            cbn; try reflexivity).
  - repeat (match goal with |- context [if ?b then _ else _] => destruct b end;
            cbn; try reflexivity).
Qed.

Lemma sim_ConvTranspose2d tr m x :
  sim tr (ConvTranspose2d.forward m x) size
      (Sizes.conv_transpose2d m (size x)).
Proof.
  intros s _.
  unfold ConvTranspose2d.forward, Sizes.conv_transpose2d, bind, get, ret, raise.
  destruct (negb _); reflexivity.
Qed.

Lemma sim_GroupNorm tr m x :
  sim tr (GroupNorm.forward m x) size (Sizes.group_norm m (size x)).
Proof.
  intros s _. unfold GroupNorm.forward, Sizes.group_norm, bind, get, ret, raise.
  destruct (_ =? 1); [reflexivity|]. destruct (negb _); destruct (size x); reflexivity.
Qed.

Lemma sim_BatchNorm2d tr m x :
  sim tr (BatchNorm2d.forward m x) size (Sizes.batch_norm tr m (size x)).
Proof.
  intros s Htr.
  unfold BatchNorm2d.forward, Sizes.batch_norm, bind, get, ret, raise.
  rewrite Htr. destruct tr; cbn.
  - destruct (_ =? 1); [reflexivity|]. destruct (negb _); reflexivity.
  - destruct (negb _); reflexivity.
Qed.

Lemma sim_Dropout tr x : sim tr (Dropout.forward x) size (Ok (size x)).
Proof.
  intros s _. unfold Dropout.forward, bind, get.
  destruct (training s); reflexivity.
Qed.

Lemma sim_MaxPool2d tr m x :
  sim tr (MaxPool2d.forward m x) size
      (Sizes.pool2d (MaxPool2d.kernel_size m) (MaxPool2d.stride m) (size x)).
Proof.
  intros s _. unfold MaxPool2d.forward, Sizes.pool2d.
  destruct (_ || _); reflexivity.
Qed.

Lemma sim_AvgPool2d tr m x :
  sim tr (AvgPool2d.forward m x) size
      (Sizes.pool2d (AvgPool2d.kernel_size m) (AvgPool2d.stride m) (size x)).
Proof.
  intros s _. unfold AvgPool2d.forward, Sizes.pool2d.
  destruct (_ || _); reflexivity.
Qed.

Lemma sim_call tr l x : sim tr (call l x) size (Sizes.layer tr l (size x)).
Proof.
  destruct l; cbn [call Sizes.layer].
  - apply sim_Conv2d.
  - apply sim_ConvTranspose2d.
  - apply sim_GroupNorm.
  - apply sim_BatchNorm2d.
  - intros s _; reflexivity.
  - intros s _; reflexivity.
  - apply sim_Dropout.
  - apply sim_MaxPool2d.
  - apply sim_AvgPool2d.
Qed.

Lemma sim_Sequential tr ls :
  forall x, sim tr (Sequential.forward ls x) size
                (Sizes.sequential tr ls (size x)).
Proof.
  induction ls as [|l ls IH]; intros x; cbn [Sequential.forward Sizes.sequential].
  - apply sim_ret.
  - apply sim_bind with (f := size);
      [apply quiet_call | apply sim_call | intros a; apply IH].
Qed.

Lemma sim_interpolate tr x target ac :
  sim tr (F.interpolate x target ac) size (Sizes.interpolate (size x) target).
Proof.
  intros s _. unfold F.interpolate, Sizes.interpolate.
  destruct (_ || _); reflexivity.
Qed.

Lemma sim_cat_onto tr ts :
  forall acc, sim tr (torch.cat_onto acc ts) size
                  (Sizes.cat_onto (size acc) (map size ts)).
Proof.
  induction ts as [|t ts IH]; intros acc; cbn [torch.cat_onto Sizes.cat_onto map].
  - apply sim_ret.
  - destruct (_ && _); [apply IH | apply sim_raise].
Qed.

Lemma sim_cat tr ts : sim tr (torch.cat ts) size (Sizes.cat (map size ts)).
Proof.
  destruct ts; cbn [torch.cat Sizes.cat map]; [apply sim_raise | apply sim_cat_onto].
Qed.

Lemma sim_EncoderBlock tr b x :
  sim tr (_EncoderBlock.forward b x) size
      (Sizes.encoder tr (_EncoderBlock.pool b) (_EncoderBlock.encode b) (size x)).
Proof.
  unfold _EncoderBlock.forward, Sizes.encoder.
  apply sim_bind with (f := size).
  - destruct (_EncoderBlock.pool b); [apply quiet_call | apply quiet_ret].
  - destruct (_EncoderBlock.pool b); [apply sim_call | apply sim_ret].
  - intros a; apply sim_Sequential.
Qed.

Lemma sim_EncoderBlockV2 tr b x :
  sim tr (_EncoderBlockV2.forward b x) size
      (Sizes.encoder tr (_EncoderBlockV2.pool b) (_EncoderBlockV2.encode b)
                     (size x)).
Proof.
  unfold _EncoderBlockV2.forward, Sizes.encoder.
  apply sim_bind with (f := size).
  - destruct (_EncoderBlockV2.pool b); [apply quiet_call | apply quiet_ret].
  - destruct (_EncoderBlockV2.pool b); [apply sim_call | apply sim_ret].
  - intros a; apply sim_Sequential.
Qed.

Lemma sim_DecoderBlock tr b x :
  sim tr (_DecoderBlock.forward b x) size
      (Sizes.sequential tr (_DecoderBlock.decode b) (size x)).
Proof. apply sim_Sequential. Qed.

Lemma sim_DecoderBlockV2 tr b x :
  sim tr (_DecoderBlockV2.forward b x) size
      (Sizes.sequential tr (_DecoderBlockV2.decode b) (size x)).
Proof. apply sim_Sequential. Qed.

Lemma sim_attr tr a : sim tr (UNetV2.attr a) (fun l => l) (Sizes.attr a).
Proof. destruct a; intros s _; reflexivity. Qed.

End Simulation.

Ltac sim_step lem :=
  eapply sim_bind; [solve [auto with quiet] | apply lem | intros ?].

Section SimulationNetworks.
Context `{Backend}.

Theorem sim_UNet tr net x :
  sim tr (UNet.forward net x) size (Sizes.unet tr net (size x)).
Proof.
  unfold UNet.forward, Sizes.unet.
  do 4 sim_step sim_EncoderBlock.
  sim_step sim_call. sim_step sim_DecoderBlock.
  sim_step sim_interpolate. sim_step sim_cat.
  do 3 (sim_step sim_DecoderBlock; sim_step sim_cat).
  sim_step sim_Sequential.
  apply sim_bind_ret, sim_call.
Qed.

Theorem sim_UNetV2 tr net x :
  sim tr (UNetV2.forward net x) (Sizes.omap size)
      (Sizes.unet_v2 tr net (size x)).
Proof.
  unfold UNetV2.forward, Sizes.unet_v2.
  do 4 sim_step sim_EncoderBlockV2.
  sim_step sim_call. sim_step sim_DecoderBlockV2.
  sim_step sim_interpolate. sim_step sim_cat.
  do 3 (sim_step sim_DecoderBlockV2; sim_step sim_interpolate; sim_step sim_cat).
  sim_step sim_Sequential. sim_step sim_call.
  destruct (UNetV2.multi_scale net).
  - do 3 (sim_step sim_attr; sim_step sim_call).
    intros s _; reflexivity.
  - intros s _; reflexivity.
Qed.

End SimulationNetworks.

(** ** Construction *)

Section Construction.
Context `{Backend}.

Lemma builds_ret {A} (a : A) (Q : A -> Prop) : Q a -> builds (ret a) Q.
Proof. intros HQ s a' s' E. inversion E; subst; exact HQ. Qed.

Lemma builds_bind {A B} (m : M A) (k : A -> M B) (P : A -> Prop) (Q : B -> Prop) :
  builds m P -> (forall a, P a -> builds (k a) Q) -> builds (bind m k) Q.
Proof.
  intros Hm Hk s b s' E.
  destruct (bind_inv _ _ _ E) as (a & s1 & E1 & E2).
  exact (Hk a (Hm _ _ _ E1) _ _ _ E2).
Qed.

Lemma builds_weaken {A} (m : M A) (P Q : A -> Prop) :
  builds m P -> (forall a, P a -> Q a) -> builds m Q.
Proof. intros Hm HPQ s a s' E. exact (HPQ _ (Hm _ _ _ E)). Qed.

Lemma total_ret {A} (a : A) : total (ret a).
Proof. intros s; exists a, s; reflexivity. Qed.

Lemma total_bind {A B} (m : M A) (k : A -> M B) :
  total m -> (forall a, total (k a)) -> total (bind m k).
Proof.
  intros Hm Hk s. destruct (Hm s) as (a & s1 & E1).
  destruct (Hk a s1) as (b & s2 & E2).
  exists b, s2. rewrite (bind_ok _ _ _ E1). exact E2.
Qed.

Lemma total_alloc : total alloc.
Proof. intros s; eexists _, _; reflexivity. Qed.

Lemma total_Module_init : total nn.Module_init.
Proof. intros s; eexists _, _; reflexivity. Qed.

Lemma builds_Conv2d cin cout k p mode :
  builds (nn.Conv2d cin cout k p mode)
         (fun l => strip l = Arch.conv cin cout k p mode).
Proof.
  intros s l s'. unfold nn.Conv2d, Conv2d.__init__, bind.
  destruct (_ || _); cbn; [discriminate|].
  intros E; inversion E; subst; reflexivity.
Qed.

Lemma total_Conv2d cin cout k p mode :
  0 <= cin -> 0 <= cout -> total (nn.Conv2d cin cout k p mode).
Proof.
  intros Hi Ho s. unfold nn.Conv2d, Conv2d.__init__, bind.
  destruct (Z.ltb_spec cin 0); [lia|]. destruct (Z.ltb_spec cout 0); [lia|].
  cbn. eexists _, _; reflexivity.
Qed.

Lemma builds_ConvTranspose2d cin cout k st :
  builds (nn.ConvTranspose2d cin cout k st)
         (fun l => strip l = Arch.conv_transpose cin cout k st).
Proof.
  intros s l s'. unfold nn.ConvTranspose2d, ConvTranspose2d.__init__, bind.
  destruct (_ || _); cbn; [discriminate|].
  intros E; inversion E; subst; reflexivity.
Qed.

Lemma total_ConvTranspose2d cin cout k st :
  0 <= cin -> 0 <= cout -> total (nn.ConvTranspose2d cin cout k st).
Proof.
  intros Hi Ho s. unfold nn.ConvTranspose2d, ConvTranspose2d.__init__, bind.
  destruct (Z.ltb_spec cin 0); [lia|]. destruct (Z.ltb_spec cout 0); [lia|].
  cbn. eexists _, _; reflexivity.
Qed.

Lemma builds_norm (bn : bool) c :
  builds (if bn then nn.BatchNorm2d c else nn.GroupNorm 32 c)
         (fun l => strip l = Arch.norm bn c).
Proof.
  intros s l s'. destruct bn; unfold Arch.norm.
  - unfold nn.BatchNorm2d, BatchNorm2d.__init__, bind.
    destruct (c <? 0); cbn; [discriminate|].
    intros E; inversion E; subst; reflexivity.
  - unfold nn.GroupNorm, GroupNorm.__init__, bind.
    destruct (negb _); cbn; [discriminate|].
    destruct (c <? 0); cbn; [discriminate|].
    intros E; inversion E; subst; reflexivity.
Qed.

(** The only place where a width can make a constructor raise: the
    group count has to divide it. *)
Lemma total_norm (bn : bool) c :
  0 <= c -> c mod 32 = 0 ->
  total (if bn then nn.BatchNorm2d c else nn.GroupNorm 32 c).
Proof.
  intros Hc Hm s. destruct bn.
  - unfold nn.BatchNorm2d, BatchNorm2d.__init__, bind.
    destruct (Z.ltb_spec c 0); [lia|]. cbn. eexists _, _; reflexivity.
  - unfold nn.GroupNorm, GroupNorm.__init__, bind.
    rewrite Hm. cbn.
    destruct (Z.ltb_spec c 0); [lia|]. cbn. eexists _, _; reflexivity.
Qed.

Lemma builds_pool (polling : bool) :
  builds (if polling then p <- nn.MaxPool2d 2 2 ;; ret (Some p) else ret None)
         (fun o => o = Arch.pool_of polling).
Proof.
  intros s o s'. destruct polling; cbn; intros E; inversion E; reflexivity.
Qed.

Lemma total_pool (polling : bool) :
  total (if polling then p <- nn.MaxPool2d 2 2 ;; ret (Some p) else ret None).
Proof. intros s; destruct polling; eexists _, _; reflexivity. Qed.

Lemma total_init_parameter r : total (init_parameter r).
Proof. intros s; eexists _, _; cbv; reflexivity. Qed.

Lemma total_initialize_weights ps : total (initialize_weights ps).
Proof.
  induction ps as [|r ps IH]; cbn [initialize_weights].
  - apply total_ret.
  - apply total_bind; [apply total_init_parameter | intros _; exact IH].
Qed.

Lemma builds_any {A} (m : M A) : builds m (fun _ => True).
Proof. intros s a s' _; exact I. Qed.

Lemma builds_eq {A} (a : A) : builds (ret a) (fun x => x = a).
Proof. apply builds_ret; reflexivity. Qed.

End Construction.

Create HintDb construct discriminated.

#[export] Hint Resolve builds_Conv2d builds_ConvTranspose2d builds_norm
  builds_pool builds_eq : construct.
#[export] Hint Resolve total_ret total_alloc total_Module_init total_pool
  total_initialize_weights : construct.

(** One statement of a constructor: either its result is characterised
    by a lemma of the [construct] database, or it is not looked at. *)
Ltac builds_step :=
  eapply builds_bind;
  [ first [ solve [eauto with construct] | apply builds_any ]
  | cbv beta; intros ? ? ].

Section ConstructBlocks.
Context `{Backend}.

Lemma builds_EncoderBlock cin cout polling bn :
  builds (_EncoderBlock.__init__ cin cout false polling bn)
         (fun b => strip_encoder b = Arch.encoder cin cout polling bn).
Proof.
  unfold _EncoderBlock.__init__, nn.ReLU. cbn zeta.
  do 9 builds_step.
  apply builds_ret. subst.
  unfold strip_encoder, Arch.encoder, Arch.double_conv; cbn.
  repeat match goal with E : strip _ = _ |- _ => rewrite E; clear E end.
  destruct polling; reflexivity.
Qed.

Lemma builds_DecoderBlock cin cmid cout bn :
  builds (_DecoderBlock.__init__ cin cmid cout bn)
         (fun b => strip_decoder b = _DecoderBlock.mk (Arch.decoder cin cmid cout bn)).
Proof.
  unfold _DecoderBlock.__init__, nn.ReLU.
  do 8 builds_step.
  apply builds_ret. subst. unfold strip_decoder; cbn.
  repeat match goal with E : strip _ = _ |- _ => rewrite E; clear E end.
  reflexivity.
Qed.

Lemma builds_EncoderBlockV2 cin cout polling bn :
  builds (_EncoderBlockV2.__init__ cin cout false polling bn)
         (fun b => strip_encoder_v2 b = Arch.encoder_v2 cin cout polling bn).
Proof.
  unfold _EncoderBlockV2.__init__, nn.GELU. cbn zeta.
  do 9 builds_step.
  apply builds_ret. subst.
  unfold strip_encoder_v2, Arch.encoder_v2, Arch.double_conv_v2; cbn.
  repeat match goal with E : strip _ = _ |- _ => rewrite E; clear E end.
  destruct polling; reflexivity.
Qed.

Lemma builds_DecoderBlockV2 cin cmid cout bn :
  builds (_DecoderBlockV2.__init__ cin cmid cout bn)
         (fun b => strip_decoder_v2 b
                   = _DecoderBlockV2.mk (Arch.double_conv_v2 cin cmid cout bn)).
Proof.
  unfold _DecoderBlockV2.__init__, nn.GELU.
  do 7 builds_step.
  apply builds_ret. subst. unfold strip_decoder_v2; cbn.
  repeat match goal with E : strip _ = _ |- _ => rewrite E; clear E end.
  reflexivity.
Qed.

Lemma total_EncoderBlock cin cout polling bn :
  0 <= cin -> 0 <= cout -> cout mod 32 = 0 ->
  total (_EncoderBlock.__init__ cin cout false polling bn).
Proof.
  intros Hi Ho Hm. unfold _EncoderBlock.__init__, nn.ReLU. cbn zeta.
  repeat first
    [ apply total_Conv2d; assumption
    | apply total_norm; assumption
    | solve [auto with construct]
    | apply total_bind; [ | intros ? ] ].
Qed.

Lemma total_DecoderBlock cin cmid cout bn :
  0 <= cin -> 0 <= cmid -> 0 <= cout -> cmid mod 32 = 0 ->
  total (_DecoderBlock.__init__ cin cmid cout bn).
Proof.
  intros Hi Hc Ho Hm. unfold _DecoderBlock.__init__, nn.ReLU.
  repeat first
    [ apply total_Conv2d; assumption
    | apply total_ConvTranspose2d; assumption
    | apply total_norm; assumption
    | solve [auto with construct]
    | apply total_bind; [ | intros ? ] ].
Qed.

Lemma total_EncoderBlockV2 cin cout polling bn :
  0 <= cin -> 0 <= cout -> cout mod 32 = 0 ->
  total (_EncoderBlockV2.__init__ cin cout false polling bn).
Proof.
  intros Hi Ho Hm. unfold _EncoderBlockV2.__init__, nn.GELU. cbn zeta.
  repeat first
    [ apply total_Conv2d; assumption
    | apply total_norm; assumption
    | solve [auto with construct]
    | apply total_bind; [ | intros ? ] ].
Qed.

Lemma total_DecoderBlockV2 cin cmid cout bn :
  0 <= cin -> 0 <= cmid -> 0 <= cout -> cmid mod 32 = 0 -> cout mod 32 = 0 ->
  total (_DecoderBlockV2.__init__ cin cmid cout bn).
Proof.
  intros Hi Hc Ho Hm Hm'. unfold _DecoderBlockV2.__init__, nn.GELU.
  repeat first
    [ apply total_Conv2d; assumption
    | apply total_norm; assumption
    | solve [auto with construct]
    | apply total_bind; [ | intros ? ] ].
Qed.

End ConstructBlocks.

#[export] Hint Resolve builds_EncoderBlock builds_DecoderBlock
  builds_EncoderBlockV2 builds_DecoderBlockV2 : construct.

Lemma mul32_mod (k f : Z) : (32 * k * f) mod 32 = 0.
Proof.
  replace (32 * k * f) with (k * f * 32) by ring. apply Z.mod_mul. lia.
Qed.

Section ConstructNetworks.
Context `{Backend}.

(** [UNet.__init__] builds the architecture [Arch.unet]. *)
Lemma builds_UNet num_classes in_channels bn :
  builds (UNet.__init__ num_classes in_channels bn)
         (fun net => strip_unet net = Arch.unet num_classes in_channels bn).
Proof.
  unfold UNet.__init__, nn.ReLU, nn.MaxPool2d.
  do 18 builds_step.
  apply builds_ret. subst. unfold strip_unet; cbn.
  repeat match goal with
         | E : strip _ = _ |- _ => rewrite E; clear E
         | E : strip_encoder _ = _ |- _ => rewrite E; clear E
         | E : strip_decoder _ = _ |- _ => rewrite E; clear E
         end.
  reflexivity.
Qed.

Lemma total_UNet num_classes in_channels bn :
  0 <= num_classes -> 0 <= in_channels ->
  total (UNet.__init__ num_classes in_channels bn).
Proof.
  intros Hn Hi. unfold UNet.__init__, nn.ReLU, nn.MaxPool2d.
  repeat first
    [ apply total_Conv2d; lia
    | apply total_norm; [lia | reflexivity]
    | apply total_EncoderBlock; [lia | lia | reflexivity]
    | apply total_DecoderBlock; [lia | lia | lia | reflexivity]
    | solve [auto with construct]
    | apply total_bind; [ | intros ? ] ].
Qed.

Lemma builds_heads (multi_scale : bool) num_classes factors :
  builds (if multi_scale
          then
            conv_8 <- nn.Conv2d (128 * factors) num_classes 1 0 zeros ;;
            conv_4 <- nn.Conv2d (64 * factors) num_classes 1 0 zeros ;;
            conv_2 <- nn.Conv2d (32 * factors) num_classes 1 0 zeros ;;
            ret (Some conv_8, Some conv_4, Some conv_2)
          else ret (None, None, None))
         (fun h =>
            option_map strip (fst (fst h))
              = Arch.head multi_scale (128 * factors) num_classes
            /\ option_map strip (snd (fst h))
              = Arch.head multi_scale (64 * factors) num_classes
            /\ option_map strip (snd h)
              = Arch.head multi_scale (32 * factors) num_classes).
Proof.
  destruct multi_scale.
  - do 3 builds_step. apply builds_ret. cbn.
    repeat match goal with E : strip _ = _ |- _ => rewrite E; clear E end.
    auto.
  - apply builds_ret. cbn. auto.
Qed.

(** [UNetV2.__init__] builds the architecture [Arch.unet_v2]. *)
Lemma builds_UNetV2 num_classes in_channels bn factors multi_scale :
  builds (UNetV2.__init__ num_classes in_channels bn factors multi_scale)
         (fun net => strip_unet_v2 net
                     = Arch.unet_v2 num_classes in_channels bn factors multi_scale).
Proof.
  unfold UNetV2.__init__, nn.GELU, nn.AvgPool2d.
  do 16 builds_step.
  eapply builds_bind; [apply builds_heads | cbv beta].
  intros [[c8 c4] c2] (E8 & E4 & E2). cbn [fst snd] in E8, E4, E2.
  cbv iota beta.
  do 2 builds_step.
  apply builds_ret. subst. unfold strip_unet_v2; cbn.
  repeat match goal with
         | E : strip _ = _ |- _ => rewrite E; clear E
         | E : option_map strip _ = _ |- _ => rewrite E; clear E
         | E : strip_encoder_v2 _ = _ |- _ => rewrite E; clear E
         | E : strip_decoder_v2 _ = _ |- _ => rewrite E; clear E
         end.
  reflexivity.
Qed.

Lemma total_UNetV2 num_classes in_channels bn factors multi_scale :
  0 <= num_classes -> 0 <= in_channels -> 0 < factors ->
  total (UNetV2.__init__ num_classes in_channels bn factors multi_scale).
Proof.
  intros Hn Hi Hf. unfold UNetV2.__init__, nn.GELU, nn.AvgPool2d.
  pose proof (mul32_mod 1 factors). pose proof (mul32_mod 2 factors).
  pose proof (mul32_mod 4 factors). pose proof (mul32_mod 8 factors).
  pose proof (mul32_mod 16 factors).
  repeat first
    [ apply total_Conv2d; lia
    | apply total_norm; [lia | assumption]
    | apply total_EncoderBlockV2; [lia | lia | assumption]
    | apply total_DecoderBlockV2; [lia | lia | lia | assumption | assumption]
    | solve [auto with construct]
    | apply total_bind; [ | intros ? ]
    | match goal with |- total (if ?b then _ else _) => destruct b end
    | match goal with |- total (let '(_, _) := ?p in _) =>
        destruct p as [[? ?] ?] end ].
Qed.

End ConstructNetworks.

(** ** Sizes do not depend on the tensors a layer owns *)

Lemma rbind_cong {A B} (p p' : Result A) (k k' : A -> Result B) :
  p = p' -> (forall a, k a = k' a) -> Sizes.rbind p k = Sizes.rbind p' k'.
Proof. intros -> Hk. destruct p'; cbn; auto. Qed.

Lemma rbind_inv {A B} (p : Result A) (k : A -> Result B) b :
  Sizes.rbind p k = Ok b -> exists a, p = Ok a /\ k a = Ok b.
Proof. destruct p; cbn; [eauto | discriminate]. Qed.

Lemma layer_strip tr l sz : Sizes.layer tr (strip l) sz = Sizes.layer tr l sz.
Proof. destruct l as [[]|[]|[]|[]| | | | |]; reflexivity. Qed.

Lemma sequential_strip tr ls :
  forall sz, Sizes.sequential tr (map strip ls) sz = Sizes.sequential tr ls sz.
Proof.
  induction ls as [|l ls IH]; intros sz; cbn [map Sizes.sequential];
    [reflexivity|].
  apply rbind_cong; [apply layer_strip | exact IH].
Qed.

Lemma encoder_strip tr pool encode sz :
  Sizes.encoder tr (option_map strip pool) (map strip encode) sz
  = Sizes.encoder tr pool encode sz.
Proof.
  unfold Sizes.encoder. apply rbind_cong.
  - destruct pool; cbn; [apply layer_strip | reflexivity].
  - apply sequential_strip.
Qed.

Lemma attr_strip {B} tr (a : option Layer) sz (k : Size -> Result B) :
  Sizes.rbind (Sizes.attr (option_map strip a))
              (fun l => Sizes.rbind (Sizes.layer tr l sz) k)
  = Sizes.rbind (Sizes.attr a) (fun l => Sizes.rbind (Sizes.layer tr l sz) k).
Proof. destruct a; cbn; [rewrite layer_strip|]; reflexivity. Qed.

Ltac strip_steps :=
  repeat first
    [ apply layer_strip
    | apply sequential_strip
    | apply encoder_strip
    | reflexivity
    | apply rbind_cong; [ | intros ? ] ].

Lemma unet_strip tr net sz :
  Sizes.unet tr (strip_unet net) sz = Sizes.unet tr net sz.
Proof. unfold Sizes.unet, strip_unet; cbn. strip_steps. Qed.

Lemma unet_v2_strip tr net sz :
  Sizes.unet_v2 tr (strip_unet_v2 net) sz = Sizes.unet_v2 tr net sz.
Proof.
  unfold Sizes.unet_v2, strip_unet_v2; cbn. strip_steps.
  destruct (UNetV2.multi_scale net); [|reflexivity].
  rewrite attr_strip. apply rbind_cong; [reflexivity | intros ?].
  apply rbind_cong; [reflexivity | intros ?].
  rewrite attr_strip. apply rbind_cong; [reflexivity | intros ?].
  apply rbind_cong; [reflexivity | intros ?].
  rewrite attr_strip. reflexivity.
Qed.

(** ** Sizes of a constructed network's forward pass *)

Section Constructed.
Context `{Backend}.

Lemma UNet_sizes num_classes in_channels bn s0 net s1 :
  UNet.__init__ num_classes in_channels bn s0 = (Ok net, s1) ->
  forall x s,
    Sizes.rmap size (fst (UNet.forward net x s))
    = Sizes.unet (training s) (Arch.unet num_classes in_channels bn) (size x).
Proof.
  intros E x s. rewrite (@sim_UNet _ (training s) net x s eq_refl).
  rewrite <- unet_strip.
  rewrite (@builds_UNet _ num_classes in_channels bn s0 net s1 E). reflexivity.
Qed.

Lemma UNetV2_sizes num_classes in_channels bn factors multi_scale s0 net s1 :
  UNetV2.__init__ num_classes in_channels bn factors multi_scale s0
  = (Ok net, s1) ->
  forall x s,
    Sizes.rmap (Sizes.omap size) (fst (UNetV2.forward net x s))
    = Sizes.unet_v2 (training s)
        (Arch.unet_v2 num_classes in_channels bn factors multi_scale) (size x).
Proof.
  intros E x s. rewrite (@sim_UNetV2 _ (training s) net x s eq_refl).
  rewrite <- unet_v2_strip.
  rewrite (@builds_UNetV2 _ num_classes in_channels bn factors multi_scale
             s0 net s1 E).
  reflexivity.
Qed.

End Constructed.

(** ** Arithmetic of sizes *)

Ltac dlia := Z.to_euclidean_division_equations; lia.

Ltac bools :=
  repeat match goal with
  | H : _ && _ = true |- _ => apply andb_prop in H; destruct H
  | H : _ && _ = false |- _ => apply andb_false_iff in H
  | H : _ || _ = true |- _ => apply orb_prop in H
  | H : _ || _ = false |- _ => apply orb_false_elim in H; destruct H
  | H : negb _ = true |- _ => apply negb_true_iff in H
  | H : negb _ = false |- _ => apply negb_false_iff in H
  | H : (_ <? _) = true |- _ => apply Z.ltb_lt in H
  | H : (_ <? _) = false |- _ => apply Z.ltb_ge in H
  | H : (_ <=? _) = true |- _ => apply Z.leb_le in H
  | H : (_ <=? _) = false |- _ => apply Z.leb_gt in H
  | H : (_ =? _) = true |- _ => apply Z.eqb_eq in H
  | H : (_ =? _) = false |- _ => apply Z.eqb_neq in H
  end.

Ltac sz_unfold :=
  cbv beta iota zeta delta
    [Sizes.layer Sizes.conv2d Sizes.conv_transpose2d Sizes.group_norm
     Sizes.batch_norm Sizes.pool2d Sizes.sequential Sizes.interpolate
     Sizes.cat Sizes.cat_onto Sizes.encoder Sizes.rbind Sizes.hw
     pooling_output_shape
     Arch.conv Arch.conv_transpose Arch.norm Arch.relu Arch.max_pool
     Arch.avg_pool
     batch channels height width fst snd
     Conv2d.in_channels Conv2d.out_channels Conv2d.kernel_size Conv2d.padding
     Conv2d.padding_mode
     ConvTranspose2d.in_channels ConvTranspose2d.out_channels
     ConvTranspose2d.kernel_size ConvTranspose2d.stride
     GroupNorm.num_groups GroupNorm.num_channels BatchNorm2d.num_features
     MaxPool2d.kernel_size MaxPool2d.stride
     AvgPool2d.kernel_size AvgPool2d.stride].

Ltac size_cases :=
  repeat match goal with
         | |- context [if ?b then _ else _] => destruct b eqn:?
         end.

Ltac size_eq :=
  repeat match goal with
         | |- Ok _ = Ok _ => apply f_equal
         | |- OTuple _ = OTuple _ => apply f_equal
         | |- OTensor _ = OTensor _ => apply f_equal
         | |- _ :: _ = _ :: _ => apply f_equal2
         | |- mkSize _ _ _ _ = mkSize _ _ _ _ => apply f_equal4
         end;
  try reflexivity; try lia; try dlia.

Ltac size_ok := sz_unfold; size_cases; bools; try (exfalso; lia); size_eq.

Ltac size_inv :=
  sz_unfold; size_cases; bools;
  let E := fresh "E" in
  intros E; inversion E; subst; repeat split; try lia; size_eq.


Lemma conv3_ok tr cin cout mode n c h w :
  c = cin -> min_side mode <= h -> min_side mode <= w ->
  Sizes.layer tr (Arch.conv cin cout 3 1 mode) (mkSize n c h w)
  = Ok (mkSize n cout h w).
Proof. intros -> Hh Hw. destruct mode; cbn [min_side] in *; size_ok. Qed.

Lemma conv3_inv tr cin cout mode sz sz' :
  Sizes.layer tr (Arch.conv cin cout 3 1 mode) sz = Ok sz' ->
  channels sz = cin
  /\ min_side mode <= height sz /\ min_side mode <= width sz
  /\ sz' = mkSize (batch sz) cout (height sz) (width sz).
Proof. destruct sz as [n c h w]. destruct mode; cbn [min_side]; size_inv. Qed.

Lemma conv1_ok tr cin cout n c h w :
  c = cin -> 1 <= h -> 1 <= w ->
  Sizes.layer tr (Arch.conv cin cout 1 0 zeros) (mkSize n c h w)
  = Ok (mkSize n cout h w).
Proof. intros -> Hh Hw. size_ok. Qed.

Lemma conv1_inv tr cin cout sz sz' :
  Sizes.layer tr (Arch.conv cin cout 1 0 zeros) sz = Ok sz' ->
  channels sz = cin /\ 1 <= height sz /\ 1 <= width sz
  /\ sz' = mkSize (batch sz) cout (height sz) (width sz).
Proof. destruct sz as [n c h w]. size_inv. Qed.


Lemma norm_ok tr bn cn n c h w :
  c = cn -> norm_fits tr bn n c h w ->
  Sizes.layer tr (Arch.norm bn cn) (mkSize n c h w) = Ok (mkSize n c h w).
Proof.
  intros -> Hf. unfold norm_fits in Hf.
  destruct bn; sz_unfold.
  - destruct tr; cbn [andb].
    + destruct (Z.eqb_spec (n * h * w) 1); [exfalso; apply Hf; auto|].
      rewrite Z.eqb_refl. reflexivity.
    + rewrite Z.eqb_refl. reflexivity.
  - destruct (Z.eqb_spec (n * cn / 32 * h * w) 1); [contradiction|].
    rewrite Z.eqb_refl. reflexivity.
Qed.

Lemma norm_inv tr bn cn sz sz' :
  Sizes.layer tr (Arch.norm bn cn) sz = Ok sz' ->
  channels sz = cn
  /\ norm_fits tr bn (batch sz) (channels sz) (height sz) (width sz)
  /\ sz' = sz.
Proof.
  destruct sz as [n c h w]. unfold norm_fits.
  destruct bn; sz_unfold.
  - destruct tr; cbn [andb].
    + destruct (Z.eqb_spec (n * h * w) 1); [discriminate|].
      destruct (Z.eqb_spec c cn); cbn [negb]; [|discriminate].
      intros E; inversion E; auto.
    + destruct (Z.eqb_spec c cn); cbn [negb]; [|discriminate].
      intros E; inversion E; repeat split; auto. discriminate.
  - destruct (Z.eqb_spec (n * c / 32 * h * w) 1); [discriminate|].
    destruct (Z.eqb_spec c cn); cbn [negb]; [|discriminate].
    intros E; inversion E; auto.
Qed.

Lemma pool_ok tr (p : Layer) n c h w :
  p = Arch.max_pool \/ p = Arch.avg_pool -> 2 <= h -> 2 <= w ->
  Sizes.layer tr p (mkSize n c h w) = Ok (mkSize n c (h / 2) (w / 2)).
Proof.
  intros [-> | ->] Hh Hw; sz_unfold; size_cases; bools;
    try (exfalso; dlia); size_eq.
Qed.

Lemma pool_inv tr (p : Layer) sz sz' :
  p = Arch.max_pool \/ p = Arch.avg_pool ->
  Sizes.layer tr p sz = Ok sz' ->
  2 <= height sz /\ 2 <= width sz
  /\ sz' = mkSize (batch sz) (channels sz) (height sz / 2) (width sz / 2).
Proof.
  destruct sz as [n c h w].
  intros [-> | ->]; sz_unfold; size_cases; bools; intros E; inversion E; subst;
    repeat split; try dlia; size_eq.
Qed.

Lemma conv_transpose_ok tr cin cout n c h w :
  c = cin ->
  Sizes.layer tr (Arch.conv_transpose cin cout 2 2) (mkSize n c h w)
  = Ok (mkSize n cout (2 * h) (2 * w)).
Proof. intros ->. size_ok. Qed.

Lemma conv_transpose_inv tr cin cout sz sz' :
  Sizes.layer tr (Arch.conv_transpose cin cout 2 2) sz = Ok sz' ->
  channels sz = cin
  /\ sz' = mkSize (batch sz) cout (2 * height sz) (2 * width sz).
Proof. destruct sz as [n c h w]. size_inv. Qed.

Lemma interpolate_ok n c h w th tw :
  1 <= h -> 1 <= w -> 1 <= th -> 1 <= tw ->
  Sizes.interpolate (mkSize n c h w) (th, tw) = Ok (mkSize n c th tw).
Proof. intros. size_ok. Qed.

Lemma interpolate_inv sz target sz' :
  Sizes.interpolate sz target = Ok sz' ->
  1 <= height sz /\ 1 <= width sz /\ 1 <= fst target /\ 1 <= snd target
  /\ sz' = mkSize (batch sz) (channels sz) (fst target) (snd target).
Proof. destruct sz as [n c h w], target as [th tw]. size_inv. Qed.

Lemma cat_ok n c1 c2 h w n' h' w' :
  n' = n -> h' = h -> w' = w ->
  Sizes.cat [mkSize n c1 h w; mkSize n' c2 h' w']
  = Ok (mkSize n (c1 + c2) h w).
Proof. intros -> -> ->. sz_unfold. rewrite !Z.eqb_refl. reflexivity. Qed.

Lemma cat_inv a b sz' :
  Sizes.cat [a; b] = Ok sz' ->
  batch b = batch a /\ height b = height a /\ width b = width a
  /\ sz' = mkSize (batch a) (channels a + channels b) (height a) (width a).
Proof. destruct a, b. size_inv. Qed.

Lemma cat_mismatch a b :
  height b <> height a \/ width b <> width a ->
  Sizes.cat [a; b] = Err SizesMustMatch.
Proof.
  destruct a, b. sz_unfold. intros Hd.
  size_cases; bools; try reflexivity. exfalso; lia.
Qed.

Lemma relu_ok tr sz : Sizes.layer tr Arch.relu sz = Ok sz.
Proof. reflexivity. Qed.

Lemma gelu_ok tr sz : Sizes.layer tr LGELU sz = Ok sz.
Proof. reflexivity. Qed.

Ltac side :=
  solve [ reflexivity | assumption | cbn [min_side]; lia | dlia | auto ].

Ltac seq_ok :=
  cbn [Sizes.sequential app];
  repeat (first
    [ rewrite conv3_ok by side
    | rewrite conv1_ok by side
    | rewrite norm_ok by side
    | rewrite conv_transpose_ok by side
    | rewrite pool_ok by side
    | rewrite relu_ok
    | rewrite gelu_ok ];
    cbn [Sizes.rbind]).

Ltac inv_step H :=
  let a := fresh "sz" in
  let Ha := fresh "E" in
  apply rbind_inv in H; destruct H as (a & Ha & H);
  first
    [ apply conv3_inv in Ha; destruct Ha as (? & ? & ? & ->)
    | apply conv1_inv in Ha; destruct Ha as (? & ? & ? & ->)
    | apply norm_inv in Ha; destruct Ha as (? & ? & ->)
    | apply conv_transpose_inv in Ha; destruct Ha as (? & ->)
    | apply pool_inv in Ha; [destruct Ha as (? & ? & ->) | auto; fail]
    | rewrite relu_ok in Ha; inversion Ha; subst a; clear Ha
    | rewrite gelu_ok in Ha; inversion Ha; subst a; clear Ha ];
  cbn [batch channels height width] in *.

Ltac seq_inv H :=
  cbn [Sizes.sequential app] in H;
  repeat inv_step H.

Lemma double_conv_ok tr cin cout bn n c h w :
  c = cin -> 1 <= h -> 1 <= w -> norm_fits tr bn n cout h w ->
  Sizes.sequential tr (Arch.double_conv cin cout bn) (mkSize n c h w)
  = Ok (mkSize n cout h w).
Proof. intros. unfold Arch.double_conv. seq_ok. reflexivity. Qed.

Lemma double_conv_inv tr cin cout bn sz sz' :
  Sizes.sequential tr (Arch.double_conv cin cout bn) sz = Ok sz' ->
  channels sz = cin /\ 1 <= height sz /\ 1 <= width sz
  /\ norm_fits tr bn (batch sz) cout (height sz) (width sz)
  /\ sz' = mkSize (batch sz) cout (height sz) (width sz).
Proof.
  intros E. unfold Arch.double_conv in E. seq_inv E.
  inversion E; subst. cbn [min_side] in *. auto.
Qed.

Lemma decoder_ok tr cin cmid cout bn n c h w :
  c = cin -> 1 <= h -> 1 <= w -> norm_fits tr bn n cmid h w ->
  Sizes.sequential tr (Arch.decoder cin cmid cout bn) (mkSize n c h w)
  = Ok (mkSize n cout (2 * h) (2 * w)).
Proof. intros. unfold Arch.decoder, Arch.double_conv. seq_ok. reflexivity. Qed.

Lemma decoder_inv tr cin cmid cout bn sz sz' :
  Sizes.sequential tr (Arch.decoder cin cmid cout bn) sz = Ok sz' ->
  channels sz = cin /\ 1 <= height sz /\ 1 <= width sz
  /\ norm_fits tr bn (batch sz) cmid (height sz) (width sz)
  /\ sz' = mkSize (batch sz) cout (2 * height sz) (2 * width sz).
Proof.
  intros E. unfold Arch.decoder, Arch.double_conv in E. seq_inv E.
  inversion E; subst. cbn [min_side] in *. auto.
Qed.

Lemma double_conv_v2_ok tr cin cmid cout bn n c h w :
  c = cin -> 2 <= h -> 2 <= w ->
  norm_fits tr bn n cmid h w -> norm_fits tr bn n cout h w ->
  Sizes.sequential tr (Arch.double_conv_v2 cin cmid cout bn) (mkSize n c h w)
  = Ok (mkSize n cout h w).
Proof. intros. unfold Arch.double_conv_v2. seq_ok. reflexivity. Qed.

Lemma double_conv_v2_inv tr cin cmid cout bn sz sz' :
  Sizes.sequential tr (Arch.double_conv_v2 cin cmid cout bn) sz = Ok sz' ->
  channels sz = cin /\ 2 <= height sz /\ 2 <= width sz
  /\ sz' = mkSize (batch sz) cout (height sz) (width sz).
Proof.
  intros E. unfold Arch.double_conv_v2 in E. seq_inv E.
  inversion E; subst. cbn [min_side] in *. auto.
Qed.

Lemma dec1_v2_ok tr cin cout bn n c h w :
  c = cin -> 2 <= h -> 2 <= w -> norm_fits tr bn n cout h w ->
  Sizes.sequential tr (Arch.dec1_v2 cin cout bn) (mkSize n c h w)
  = Ok (mkSize n cout h w).
Proof. intros. unfold Arch.dec1_v2. seq_ok. reflexivity. Qed.

Lemma dec1_v2_inv tr cin cout bn sz sz' :
  Sizes.sequential tr (Arch.dec1_v2 cin cout bn) sz = Ok sz' ->
  channels sz = cin /\ 2 <= height sz /\ 2 <= width sz
  /\ sz' = mkSize (batch sz) cout (height sz) (width sz).
Proof.
  intros E. unfold Arch.dec1_v2 in E. seq_inv E.
  inversion E; subst. cbn [min_side] in *. auto.
Qed.

(** An encoder block without pooling keeps the spatial size. *)
Lemma encoder_first_ok tr cin cout bn n c h w :
  c = cin -> 1 <= h -> 1 <= w -> norm_fits tr bn n cout h w ->
  Sizes.encoder tr (Arch.pool_of false) (Arch.double_conv cin cout bn)
                (mkSize n c h w)
  = Ok (mkSize n cout h w).
Proof.
  intros. unfold Sizes.encoder, Arch.pool_of. cbn [Sizes.rbind].
  apply double_conv_ok; assumption.
Qed.

(** An encoder block with pooling halves it, rounding down. *)
Lemma encoder_pool_ok tr cin cout bn n c h w :
  c = cin -> 2 <= h -> 2 <= w -> norm_fits tr bn n cout (h / 2) (w / 2) ->
  Sizes.encoder tr (Arch.pool_of true) (Arch.double_conv cin cout bn)
                (mkSize n c h w)
  = Ok (mkSize n cout (h / 2) (w / 2)).
Proof.
  intros. unfold Sizes.encoder, Arch.pool_of.
  rewrite pool_ok by auto. cbn [Sizes.rbind].
  apply double_conv_ok; try assumption; dlia.
Qed.

Lemma encoder_inv tr polling cin cout bn sz sz' :
  Sizes.encoder tr (Arch.pool_of polling) (Arch.double_conv cin cout bn) sz
  = Ok sz' ->
  channels sz = cin
  /\ sz' = if polling
           then mkSize (batch sz) cout (height sz / 2) (width sz / 2)
           else mkSize (batch sz) cout (height sz) (width sz).
Proof.
  intros E. destruct polling; unfold Sizes.encoder, Arch.pool_of in E.
  - inv_step E. apply double_conv_inv in E. cbn [batch channels height width] in E.
    tauto.
  - cbn [Sizes.rbind] in E. apply double_conv_inv in E. tauto.
Qed.

Lemma encoder_v2_first_ok tr cin cout bn n c h w :
  c = cin -> 2 <= h -> 2 <= w -> norm_fits tr bn n cout h w ->
  Sizes.encoder tr (Arch.pool_of false) (Arch.double_conv_v2 cin cout cout bn)
                (mkSize n c h w)
  = Ok (mkSize n cout h w).
Proof.
  intros. unfold Sizes.encoder, Arch.pool_of. cbn [Sizes.rbind].
  apply double_conv_v2_ok; assumption.
Qed.

Lemma encoder_v2_pool_ok tr cin cout bn n c h w :
  c = cin -> 4 <= h -> 4 <= w -> norm_fits tr bn n cout (h / 2) (w / 2) ->
  Sizes.encoder tr (Arch.pool_of true) (Arch.double_conv_v2 cin cout cout bn)
                (mkSize n c h w)
  = Ok (mkSize n cout (h / 2) (w / 2)).
Proof.
  intros. unfold Sizes.encoder, Arch.pool_of.
  rewrite pool_ok by (auto; lia). cbn [Sizes.rbind].
  apply double_conv_v2_ok; try assumption; dlia.
Qed.

Lemma encoder_v2_inv tr polling cin cout bn sz sz' :
  Sizes.encoder tr (Arch.pool_of polling)
                (Arch.double_conv_v2 cin cout cout bn) sz
  = Ok sz' ->
  channels sz = cin
  /\ sz' = if polling
           then mkSize (batch sz) cout (height sz / 2) (width sz / 2)
           else mkSize (batch sz) cout (height sz) (width sz).
Proof.
  intros E. destruct polling; unfold Sizes.encoder, Arch.pool_of in E.
  - inv_step E. apply double_conv_v2_inv in E.
    cbn [batch channels height width] in E. tauto.
  - cbn [Sizes.rbind] in E. apply double_conv_v2_inv in E. tauto.
Qed.

(** Normalisation accepts every map that is not a single value per
    channel. *)
Lemma norm_fits_big tr bn n c h w :
  1 <= n -> 32 <= c -> 1 <= h -> 1 <= w -> 2 <= h \/ 2 <= w ->
  norm_fits tr bn n c h w.
Proof.
  intros Hn Hc Hh Hw Hb. unfold norm_fits. destruct bn.
  - intros _. nia.
  - assert (1 <= n * c / 32) by (apply Z.div_le_lower_bound; nia). nia.
Qed.

(** From 64 channels on, group normalisation accepts even a 1x1 map;
    batch normalisation in training mode does not, at batch size 1. *)
Lemma norm_fits_wide tr bn n c h w :
  1 <= n -> 64 <= c -> 1 <= h -> 1 <= w ->
  (bn = true -> tr = true -> 2 <= n \/ 2 <= h \/ 2 <= w) ->
  norm_fits tr bn n c h w.
Proof.
  intros Hn Hc Hh Hw Hb. unfold norm_fits. destruct bn.
  - intros Ht. specialize (Hb eq_refl Ht). nia.
  - assert (2 <= n * c / 32) by (apply Z.div_le_lower_bound; nia). nia.
Qed.

Ltac nf_wide := apply norm_fits_wide; solve [lia | dlia | intros; dlia].
Ltac nf_big := apply norm_fits_big; solve [lia | dlia].

Ltac net_side :=
  solve [ reflexivity | assumption | lia | dlia | nf_wide | nf_big | auto ].

Ltac net_ok :=
  repeat (first
    [ rewrite encoder_first_ok by net_side
    | rewrite encoder_pool_ok by net_side
    | rewrite encoder_v2_first_ok by net_side
    | rewrite encoder_v2_pool_ok by net_side
    | rewrite pool_ok by net_side
    | rewrite decoder_ok by net_side
    | rewrite double_conv_ok by net_side
    | rewrite double_conv_v2_ok by net_side
    | rewrite dec1_v2_ok by net_side
    | rewrite conv1_ok by net_side
    | rewrite interpolate_ok by net_side
    | rewrite cat_ok by net_side ];
    unfold Sizes.hw; cbn [Sizes.rbind height width Sizes.attr]).

Ltac unet_unfold :=
  unfold Sizes.unet, Arch.unet, Arch.encoder;
  cbn [UNet.enc1 UNet.enc2 UNet.enc3 UNet.enc4 UNet.polling UNet.center
       UNet.dec4 UNet.dec3 UNet.dec2 UNet.dec1 UNet.final
       _EncoderBlock.encode _EncoderBlock.pool _DecoderBlock.decode].

Ltac unet_unfold_in E :=
  unfold Sizes.unet, Arch.unet, Arch.encoder in E;
  cbn [UNet.enc1 UNet.enc2 UNet.enc3 UNet.enc4 UNet.polling UNet.center
       UNet.dec4 UNet.dec3 UNet.dec2 UNet.dec1 UNet.final
       _EncoderBlock.encode _EncoderBlock.pool _DecoderBlock.decode] in E.

Lemma unet_ok tr num_classes in_channels bn n c h w :
  1 <= n -> c = in_channels ->
  16 <= h -> 16 <= w -> h mod 8 = 0 -> w mod 8 = 0 ->
  (bn = true -> tr = true -> 2 <= n \/ 32 <= h \/ 32 <= w) ->
  Sizes.unet tr (Arch.unet num_classes in_channels bn) (mkSize n c h w)
  = Ok (mkSize n num_classes h w).
Proof.
  intros Hn Hc Hh Hw Hh8 Hw8 Hbn.
  unet_unfold. net_ok. size_eq.
Qed.

Ltac cat_case :=
  match goal with
  | |- context [Sizes.cat [mkSize _ _ ?h1 ?w1; mkSize _ _ ?h2 ?w2]] =>
      destruct (Z.eq_dec h2 h1);
      [ destruct (Z.eq_dec w2 w1);
        [ | rewrite cat_mismatch by (cbn [height width]; auto); reflexivity ]
      | rewrite cat_mismatch by (cbn [height width]; auto); reflexivity ]
  end.

(** Past the bottleneck nothing is resampled: a size that is not a
    multiple of 8 reaches a concatenation whose operands differ. *)
Lemma unet_mismatch tr num_classes in_channels bn n c h w :
  1 <= n -> c = in_channels ->
  16 <= h -> 16 <= w -> h mod 8 <> 0 \/ w mod 8 <> 0 ->
  (bn = true -> tr = true -> 2 <= n \/ 32 <= h \/ 32 <= w) ->
  Sizes.unet tr (Arch.unet num_classes in_channels bn) (mkSize n c h w)
  = Err SizesMustMatch.
Proof.
  intros Hn Hc Hh Hw H8 Hbn.
  unet_unfold. net_ok.
  cat_case. net_ok.
  cat_case. net_ok.
  cat_case. exfalso. dlia.
Qed.

Ltac net_inv_step H :=
  let a := fresh "sz" in
  let Ha := fresh "E" in
  apply rbind_inv in H; destruct H as (a & Ha & H);
  first
    [ apply encoder_inv in Ha; destruct Ha as (? & ->)
    | apply encoder_v2_inv in Ha; destruct Ha as (? & ->)
    | apply pool_inv in Ha; [destruct Ha as (? & ? & ->) | auto; fail]
    | apply decoder_inv in Ha; destruct Ha as (? & ? & ? & _ & ->)
    | apply double_conv_inv in Ha; destruct Ha as (? & ? & ? & _ & ->)
    | apply double_conv_v2_inv in Ha; destruct Ha as (? & ? & ? & ->)
    | apply dec1_v2_inv in Ha; destruct Ha as (? & ? & ? & ->)
    | apply conv1_inv in Ha; destruct Ha as (? & ? & ? & ->)
    | apply interpolate_inv in Ha; destruct Ha as (? & ? & ? & ? & ->)
    | apply cat_inv in Ha; destruct Ha as (? & ? & ? & ->) ];
  unfold Sizes.hw in *; cbn [batch channels height width fst snd] in *.

Lemma unet_inv tr num_classes in_channels bn sz sz' :
  Sizes.unet tr (Arch.unet num_classes in_channels bn) sz = Ok sz' ->
  channels sz = in_channels
  /\ height sz mod 8 = 0 /\ width sz mod 8 = 0
  /\ 16 <= height sz /\ 16 <= width sz
  /\ sz' = mkSize (batch sz) num_classes (height sz) (width sz).
Proof.
  intros E. unet_unfold_in E.
  do 15 net_inv_step E.
  apply conv1_inv in E. cbn [batch channels height width] in E.
  destruct E as (_ & _ & _ & ->).
  repeat split; try assumption; try dlia. size_eq.
Qed.


Ltac unet_v2_unfold :=
  unfold Sizes.unet_v2, Arch.unet_v2, Arch.encoder_v2, Arch.head;
  cbn [UNetV2.multi_scale UNetV2.enc1 UNetV2.enc2 UNetV2.enc3 UNetV2.enc4
       UNetV2.polling UNetV2.center UNetV2.dec4 UNetV2.dec3 UNetV2.dec2
       UNetV2.dec1 UNetV2.conv_8 UNetV2.conv_4 UNetV2.conv_2 UNetV2.final
       _EncoderBlockV2.encode _EncoderBlockV2.pool _DecoderBlockV2.decode].

Ltac unet_v2_unfold_in E :=
  unfold Sizes.unet_v2, Arch.unet_v2, Arch.encoder_v2, Arch.head in E;
  cbn [UNetV2.multi_scale UNetV2.enc1 UNetV2.enc2 UNetV2.enc3 UNetV2.enc4
       UNetV2.polling UNetV2.center UNetV2.dec4 UNetV2.dec3 UNetV2.dec2
       UNetV2.dec1 UNetV2.conv_8 UNetV2.conv_4 UNetV2.conv_2 UNetV2.final
       _EncoderBlockV2.encode _EncoderBlockV2.pool _DecoderBlockV2.decode] in E.

Lemma unet_v2_ok tr num_classes in_channels bn factors multi_scale n c h w :
  1 <= n -> c = in_channels -> 1 <= factors -> 32 <= h -> 32 <= w ->
  Sizes.unet_v2 tr (Arch.unet_v2 num_classes in_channels bn factors multi_scale)
                (mkSize n c h w)
  = Ok (v2_sizes multi_scale n num_classes h w).
Proof.
  intros Hn Hc Hf Hh Hw.
  unet_v2_unfold. net_ok.
  destruct multi_scale; cbn [Sizes.attr Sizes.rbind]; net_ok; unfold v2_sizes.
  - size_eq.
  - reflexivity.
Qed.

Lemma unet_v2_inv tr num_classes in_channels bn factors multi_scale sz out :
  Sizes.unet_v2 tr (Arch.unet_v2 num_classes in_channels bn factors multi_scale)
                sz = Ok out ->
  channels sz = in_channels /\ 32 <= height sz /\ 32 <= width sz
  /\ out = v2_sizes multi_scale (batch sz) num_classes (height sz) (width sz).
Proof.
  intros E. unet_v2_unfold_in E.
  do 19 net_inv_step E.
  destruct multi_scale; cbn [Sizes.attr Sizes.rbind] in E.
  - do 3 net_inv_step E. inversion E; subst.
    repeat split; try assumption; try dlia.
    unfold v2_sizes. size_eq.
  - inversion E; subst. repeat split; try assumption; try dlia.
Qed.

(** * Properties of the forward passes *)

Lemma rmap_ok_inv {A B} (f : A -> B) (r : Result A) b :
  Sizes.rmap f r = Ok b -> exists a, r = Ok a /\ f a = b.
Proof.
  destruct r as [a|e]; cbn; intros E; [|discriminate].
  exists a. split; [reflexivity | congruence].
Qed.

Section Runs.
Context `{Backend}.

Lemma returns_of_sizes {A SA} (m : M A) (f : A -> SA) s b :
  Sizes.rmap f (fst (m s)) = Ok b ->
  exists a s', m s = (Ok a, s') /\ f a = b.
Proof.
  intros E. destruct (rmap_ok_inv _ _ E) as (a & Ea & Ef).
  exists a, (snd (m s)). split; [|exact Ef].
  rewrite <- Ea. apply surjective_pairing.
Qed.

Lemma raises_of_sizes {A SA} (m : M A) (f : A -> SA) s e :
  Sizes.rmap f (fst (m s)) = Err e -> fst (m s) = Err e.
Proof. destruct (fst (m s)); cbn; congruence. Qed.

(** On inputs of batch size [n >= 1] whose sides are multiples of 8 and
    at least 16 a constructed [UNet] returns a tensor of the input's
    spatial size. *)
Lemma UNet_returns num_classes in_channels bn s0 net s1 x s :
  UNet.__init__ num_classes in_channels bn s0 = (Ok net, s1) ->
  1 <= batch (size x) -> channels (size x) = in_channels ->
  16 <= height (size x) -> 16 <= width (size x) ->
  height (size x) mod 8 = 0 -> width (size x) mod 8 = 0 ->
  (bn = true -> training s = true ->
   2 <= batch (size x) \/ 32 <= height (size x) \/ 32 <= width (size x)) ->
  exists out s',
    UNet.forward net x s = (Ok out, s')
    /\ size out = mkSize (batch (size x)) num_classes
                         (height (size x)) (width (size x)).
Proof.
  intros E Hn Hc Hh Hw Hh8 Hw8 Hbn.
  apply returns_of_sizes. erewrite UNet_sizes by exact E.
  destruct (size x) as [n c h w]; cbn [batch channels height width] in *.
  apply unet_ok; assumption.
Qed.

(** On inputs of batch size [n >= 1] whose sides are at least 32 a
    constructed [UNetV2] returns tensors of the sizes [v2_sizes]. *)
Lemma UNetV2_returns num_classes in_channels bn factors multi_scale
  s0 net s1 x s :
  UNetV2.__init__ num_classes in_channels bn factors multi_scale s0
  = (Ok net, s1) ->
  1 <= factors ->
  1 <= batch (size x) -> channels (size x) = in_channels ->
  32 <= height (size x) -> 32 <= width (size x) ->
  exists out s',
    UNetV2.forward net x s = (Ok out, s')
    /\ Sizes.omap size out
       = v2_sizes multi_scale (batch (size x)) num_classes
                  (height (size x)) (width (size x)).
Proof.
  intros E Hf Hn Hc Hh Hw.
  apply returns_of_sizes. erewrite UNetV2_sizes by exact E.
  destruct (size x) as [n c h w]; cbn [batch channels height width] in *.
  apply unet_v2_ok; assumption.
Qed.

End Runs.

Arguments UNet_returns {_} {num_classes in_channels bn s0 net s1} x s _ _ _ _ _ _ _ _.
Arguments UNetV2_returns {_} {num_classes in_channels bn factors multi_scale
  s0 net s1} x s _ _ _ _ _ _.

(** C1 as the specification states it fails on the smallest multiple of
    16: a default [UNetV2] (three input channels, one class, group
    normalisation, [factors = 2], multi-scale) rejects a [(1, 3, 16, 16)]
    input.  [enc4] is 2x2 there, the pooled map that enters [center] is
    1x1, and the reflect padding of [center]'s first convolution needs a
    side larger than the padding. *)
Lemma UNetV2_rejects_16x16 :
  fst ((model <- UNetV2.__init__ 1 3 false 2 true ;;
        UNetV2.forward model (input 1 3 16 16)) (store0 true))
  = Err PaddingTooLarge.
Proof. vm_compute. reflexivity. Qed.

(** C1, amended.  For every valid configuration and every input of
    shape [(1, in_channels, H, W)] with [H = 16 k] and [W = 16 l]:
    - when [k >= 2] and [l >= 2], the constructed [UNetV2] returns, in
      multi-scale mode, four tensors of spatial sizes [(H/8, W/8)],
      [(H/4, W/4)], [(H/2, W/2)] and [(H, W)], and with [multi_scale]
      disabled one tensor of spatial size [(H, W)];
    - when [k >= 1] and [l >= 1], the constructed [UNet] returns one
      tensor of spatial size [(H, W)], unless it uses batch
      normalisation in training mode and [H = W = 16]. *)
Theorem forward_sizes_on_multiples_of_16 `{Backend}
  (num_classes in_channels : Z) (bn : bool) (factors k l : Z) (d : D)
  (s0 : Store) :
  0 < num_classes -> 0 < in_channels -> 0 < factors -> 1 <= k -> 1 <= l ->
  (forall multi_scale,
      exists net s1,
        UNetV2.__init__ num_classes in_channels bn factors multi_scale s0
        = (Ok net, s1)
        /\ (2 <= k -> 2 <= l ->
            forall s, exists out s',
              UNetV2.forward
                net (mkTensor (mkSize 1 in_channels (16 * k) (16 * l)) d) s
              = (Ok out, s')
              /\ Sizes.omap size out
                 = if multi_scale
                   then OTuple [mkSize 1 num_classes (2 * k) (2 * l);
                                mkSize 1 num_classes (4 * k) (4 * l);
                                mkSize 1 num_classes (8 * k) (8 * l);
                                mkSize 1 num_classes (16 * k) (16 * l)]
                   else OTensor (mkSize 1 num_classes (16 * k) (16 * l))))
  /\ (exists net s1,
         UNet.__init__ num_classes in_channels bn s0 = (Ok net, s1)
         /\ forall s,
             (bn = true -> training s = true -> 2 <= k \/ 2 <= l) ->
             exists out s',
               UNet.forward
                 net (mkTensor (mkSize 1 in_channels (16 * k) (16 * l)) d) s
               = (Ok out, s')
               /\ size out = mkSize 1 num_classes (16 * k) (16 * l)).
Proof.
  intros Hnc Hic Hf Hk Hl. split.
  - intros multi_scale.
    destruct (@total_UNetV2 _ num_classes in_channels bn factors multi_scale
                ltac:(lia) ltac:(lia) Hf s0) as (net & s1 & E).
    exists net, s1. split; [exact E|].
    intros Hk2 Hl2 s.
    destruct (UNetV2_returns
                (mkTensor (mkSize 1 in_channels (16 * k) (16 * l)) d) s E)
      as (out & s' & Eo & Es); cbn [size batch channels height width];
      try lia.
    exists out, s'. split; [exact Eo|].
    rewrite Es. cbn [size batch channels height width]. unfold v2_sizes.
    destruct multi_scale; size_eq.
  - destruct (@total_UNet _ num_classes in_channels bn
                ltac:(lia) ltac:(lia) s0) as (net & s1 & E).
    exists net, s1. split; [exact E|].
    intros s Hbn.
    destruct (UNet_returns
                (mkTensor (mkSize 1 in_channels (16 * k) (16 * l)) d) s E)
      as (out & s' & Eo & Es); cbn [size batch channels height width];
      try lia; try dlia.
    + intros Hb Ht. specialize (Hbn Hb Ht). lia.
    + exists out, s'. split; [exact Eo | exact Es].
Qed.

(** A default [UNetV2] on a [(1, 3, 32, 32)] input, and the default
    [UNet] on the same input. *)
Lemma forward_sizes_on_multiples_of_16_witness :
  (exists net s1 out s',
      UNetV2.__init__ 1 3 false 2 true (store0 true) = (Ok net, s1)
      /\ UNetV2.forward net (input 1 3 32 32) s1 = (Ok out, s')
      /\ Sizes.omap size out
         = OTuple [mkSize 1 1 4 4; mkSize 1 1 8 8; mkSize 1 1 16 16;
                   mkSize 1 1 32 32])
  /\ (exists net s1 out s',
         UNet.__init__ 1 3 false (store0 true) = (Ok net, s1)
         /\ UNet.forward net (input 1 3 32 32) s1 = (Ok out, s')
         /\ size out = mkSize 1 1 32 32).
Proof.
  destruct (@forward_sizes_on_multiples_of_16 symbolic 1 3 false 2 2 2 EInput
              (store0 true))
    as (H2 & (net1 & s1 & E1 & F1)); try lia.
  split.
  - destruct (H2 true) as (net & s2 & E2 & F2).
    destruct (F2 ltac:(lia) ltac:(lia) s2) as (out & s' & Eo & Es).
    exists net, s2, out, s'. split; [exact E2 | split; [exact Eo | exact Es]].
  - destruct (F1 s1) as (out & s' & Eo & Es); [discriminate|].
    exists net1, s1, out, s'. split; [exact E1 | split; [exact Eo | exact Es]].
Defined.

Lemma omap_tuple4_inv {A B} (f : A -> B) (out : Output A) b1 b2 b3 b4 :
  Sizes.omap f out = OTuple [b1; b2; b3; b4] ->
  exists a1 a2 a3 a4,
    out = OTuple [a1; a2; a3; a4]
    /\ f a1 = b1 /\ f a2 = b2 /\ f a3 = b3 /\ f a4 = b4.
Proof.
  destruct out as [x|xs]; cbn; intros E; [discriminate|].
  destruct xs as [|a1 [|a2 [|a3 [|a4 [|a5 xs]]]]]; cbn in E; try discriminate.
  inversion E; subst. exists a1, a2, a3, a4. auto.
Qed.

Lemma omap_tensor_inv {A B} (f : A -> B) (out : Output A) b :
  Sizes.omap f out = OTensor b -> exists a, out = OTensor a /\ f a = b.
Proof.
  destruct out as [x|xs]; cbn; intros E; [|discriminate].
  inversion E; subst. exists x. auto.
Qed.

Section Returned.
Context `{Backend}.

(** Whatever a constructed [UNetV2] returns has the sizes [v2_sizes];
    it returns only on inputs with [in_channels] channels and sides of
    at least 32. *)
Lemma UNetV2_returned num_classes in_channels bn factors multi_scale
  s0 net s1 x s out s' :
  UNetV2.__init__ num_classes in_channels bn factors multi_scale s0
  = (Ok net, s1) ->
  UNetV2.forward net x s = (Ok out, s') ->
  channels (size x) = in_channels
  /\ 32 <= height (size x) /\ 32 <= width (size x)
  /\ Sizes.omap size out
     = v2_sizes multi_scale (batch (size x)) num_classes
                (height (size x)) (width (size x)).
Proof.
  intros E Eo.
  pose proof (UNetV2_sizes _ _ _ _ _ _ E x s) as Es.
  rewrite Eo in Es. cbn [fst Sizes.rmap] in Es. symmetry in Es.
  apply unet_v2_inv in Es. exact Es.
Qed.

(** Whatever a constructed [UNet] returns has the spatial size of the
    input; it returns only on inputs with [in_channels] channels and
    sides that are multiples of 8, at least 16. *)
Lemma UNet_returned num_classes in_channels bn s0 net s1 x s out s' :
  UNet.__init__ num_classes in_channels bn s0 = (Ok net, s1) ->
  UNet.forward net x s = (Ok out, s') ->
  channels (size x) = in_channels
  /\ height (size x) mod 8 = 0 /\ width (size x) mod 8 = 0
  /\ 16 <= height (size x) /\ 16 <= width (size x)
  /\ size out = mkSize (batch (size x)) num_classes
                       (height (size x)) (width (size x)).
Proof.
  intros E Eo.
  pose proof (UNet_sizes _ _ _ _ E x s) as Es.
  rewrite Eo in Es. cbn [fst Sizes.rmap] in Es. symmetry in Es.
  apply unet_inv in Es. exact Es.
Qed.

End Returned.

Arguments UNetV2_returned {_} {num_classes in_channels bn factors multi_scale
  s0 net s1 x s out s'} _ _.
Arguments UNet_returned {_} {num_classes in_channels bn s0 net s1 x s out s'} _ _.

Lemma v2_sizes_tensors multi_scale n num_classes h w :
  Forall (fun sz => channels sz = num_classes /\ batch sz = n)
         (tensors (v2_sizes multi_scale n num_classes h w)).
Proof. destruct multi_scale; cbn; repeat constructor. Qed.

Lemma tensors_omap {A B} (f : A -> B) (o : Output A) :
  tensors (Sizes.omap f o) = map f (tensors o).
Proof. destruct o; reflexivity. Qed.

(** C6.  Whenever a forward pass of a constructed network returns,
    every returned tensor has [num_classes] channels and the batch size
    of the input; and the sizes of what is returned are the same
    whatever [bn] and [factors] the network was constructed with. *)
Theorem output_channels_and_batch `{Backend} (num_classes in_channels : Z) :
  (forall bn factors multi_scale s0 net s1 x s out s',
      UNetV2.__init__ num_classes in_channels bn factors multi_scale s0
      = (Ok net, s1) ->
      UNetV2.forward net x s = (Ok out, s') ->
      Forall (fun y => channels (size y) = num_classes
                       /\ batch (size y) = batch (size x))
             (tensors out))
  /\ (forall bn s0 net s1 x s out s',
         UNet.__init__ num_classes in_channels bn s0 = (Ok net, s1) ->
         UNet.forward net x s = (Ok out, s') ->
         channels (size out) = num_classes
         /\ batch (size out) = batch (size x))
  /\ (forall multi_scale bn factors s0 net s1 bn' factors' s0' net' s1'
             x s out s1o x' s' out' s1o',
         UNetV2.__init__ num_classes in_channels bn factors multi_scale s0
         = (Ok net, s1) ->
         UNetV2.__init__ num_classes in_channels bn' factors' multi_scale s0'
         = (Ok net', s1') ->
         size x = size x' ->
         UNetV2.forward net x s = (Ok out, s1o) ->
         UNetV2.forward net' x' s' = (Ok out', s1o') ->
         Sizes.omap size out = Sizes.omap size out')
  /\ (forall bn s0 net s1 bn' s0' net' s1' x s out s1o x' s' out' s1o',
         UNet.__init__ num_classes in_channels bn s0 = (Ok net, s1) ->
         UNet.__init__ num_classes in_channels bn' s0' = (Ok net', s1') ->
         size x = size x' ->
         UNet.forward net x s = (Ok out, s1o) ->
         UNet.forward net' x' s' = (Ok out', s1o') ->
         size out = size out').
Proof.
  split; [|split; [|split]].
  - intros bn factors multi_scale s0 net s1 x s out s' E Eo.
    destruct (UNetV2_returned E Eo) as (_ & _ & _ & Es).
    pose proof (v2_sizes_tensors multi_scale (batch (size x)) num_classes
                  (height (size x)) (width (size x))) as HF.
    rewrite <- Es, tensors_omap, Forall_map in HF. exact HF.
  - intros bn s0 net s1 x s out s' E Eo.
    destruct (UNet_returned E Eo) as (_ & _ & _ & _ & _ & ->).
    split; reflexivity.
  - intros multi_scale bn factors s0 net s1 bn' factors' s0' net' s1'
           x s out s1o x' s' out' s1o' E E' Ex Eo Eo'.
    destruct (UNetV2_returned E Eo) as (_ & _ & _ & ->).
    destruct (UNetV2_returned E' Eo') as (_ & _ & _ & ->).
    rewrite Ex. reflexivity.
  - intros bn s0 net s1 bn' s0' net' s1' x s out s1o x' s' out' s1o'
           E E' Ex Eo Eo'.
    destruct (UNet_returned E Eo) as (_ & _ & _ & _ & _ & ->).
    destruct (UNet_returned E' Eo') as (_ & _ & _ & _ & _ & ->).
    rewrite Ex. reflexivity.
Qed.

(** Two [UNetV2] with two classes, one with group normalisation and
    [factors = 2], one with batch normalisation and [factors = 1], on
    the same batch of five 32x48 inputs. *)
Lemma output_channels_and_batch_witness :
  exists net s1 out so net' s1' out' so',
    UNetV2.__init__ 2 3 false 2 true (store0 true) = (Ok net, s1)
    /\ UNetV2.forward net (input 5 3 32 48) s1 = (Ok out, so)
    /\ UNetV2.__init__ 2 3 true 1 true (store0 true) = (Ok net', s1')
    /\ UNetV2.forward net' (input 5 3 32 48) s1' = (Ok out', so')
    /\ Forall (fun y => channels (size y) = 2 /\ batch (size y) = 5)
              (tensors out)
    /\ Sizes.omap size out = Sizes.omap size out'.
Proof.
  destruct (@total_UNetV2 symbolic 2 3 false 2 true
              ltac:(lia) ltac:(lia) ltac:(lia) (store0 true))
    as (net & s1 & E).
  destruct (UNetV2_returns (input 5 3 32 48) s1 E)
    as (out & so & Eo & _);
    cbn [input size batch channels height width]; try lia.
  destruct (@total_UNetV2 symbolic 2 3 true 1 true
              ltac:(lia) ltac:(lia) ltac:(lia) (store0 true))
    as (net' & s1' & E').
  destruct (UNetV2_returns (input 5 3 32 48) s1' E')
    as (out' & so' & Eo' & _);
    cbn [input size batch channels height width]; try lia.
  exists net, s1, out, so, net', s1', out', so'.
  destruct (@output_channels_and_batch symbolic 2 3) as (A & _ & C & _).
  split; [exact E|]. split; [exact Eo|]. split; [exact E'|].
  split; [exact Eo'|]. split.
  - exact (A _ _ _ _ _ _ _ _ _ _ E Eo).
  - exact (C _ _ _ _ _ _ _ _ _ _ _ _ _ _ _ _ _ _ _ E E' eq_refl Eo Eo').
Defined.

(** C7 as stated names 200x200 as a size [UNet] rejects.  It does not:
    200 is 8 x 25, so [enc4] is 25x25, the bottleneck output (24x24) is
    resampled to it, and from there on every transposed convolution
    doubles exactly onto the next encoder output (50, 100, 200). *)
Lemma UNet_accepts_200x200 :
  Sizes.rmap size
    (fst ((model <- UNet.__init__ 1 3 false ;;
           UNet.forward model (input 1 3 200 200)) (store0 true)))
  = Ok (mkSize 1 1 200 200).
Proof. vm_compute. reflexivity. Qed.

(** C7, amended.  There are sizes, not multiples of 16, on which [UNet]
    raises the size mismatch of [torch.cat]: every size with both sides
    at least 16 and a side that is not a multiple of 8 (for instance
    100x100, where [dec4] is 24x24 and [enc3] is 25x25).  For every
    [UNet] constructed with [num_classes >= 1] and [in_channels >= 1]
    and every input of batch size at least 1 with [in_channels] channels
    and such sides, the forward pass raises that error - with batch
    normalisation in training mode, provided the batch has two inputs or
    a side is at least 32, so that the bottleneck is not rejected
    first. *)
Theorem UNet_rejects_non_multiples_of_8 `{Backend}
  (num_classes in_channels : Z) (bn : bool) (s0 : Store) (net : UNet.t)
  (s1 : Store) (x : Tensor) (s : Store) :
  UNet.__init__ num_classes in_channels bn s0 = (Ok net, s1) ->
  0 < num_classes -> 0 < in_channels ->
  1 <= batch (size x) -> channels (size x) = in_channels ->
  16 <= height (size x) -> 16 <= width (size x) ->
  height (size x) mod 8 <> 0 \/ width (size x) mod 8 <> 0 ->
  (bn = true -> training s = true ->
   2 <= batch (size x) \/ 32 <= height (size x) \/ 32 <= width (size x)) ->
  fst (UNet.forward net x s) = Err SizesMustMatch.
Proof.
  intros E _ _ Hn Hc Hh Hw H8 Hbn.
  apply raises_of_sizes with (f := size).
  erewrite UNet_sizes by exact E.
  destruct (size x) as [n c h w]; cbn [batch channels height width] in *.
  apply unet_mismatch; assumption.
Qed.

(** The default [UNet] on a [(1, 3, 100, 100)] input. *)
Lemma UNet_rejects_non_multiples_of_8_witness :
  exists net s1,
    UNet.__init__ 1 3 false (store0 true) = (Ok net, s1)
    /\ fst (UNet.forward net (input 1 3 100 100) s1) = Err SizesMustMatch.
Proof.
  destruct (@total_UNet symbolic 1 3 false ltac:(lia) ltac:(lia) (store0 true))
    as (net & s1 & E).
  exists net, s1. split; [exact E|].
  apply (@UNet_rejects_non_multiples_of_8 symbolic 1 3 false (store0 true)
           net s1 (input 1 3 100 100) s1 E);
    cbn [input size batch channels height width];
    first [ lia | left; discriminate | discriminate ].
Defined.

(** ** Group normalisation *)

Lemma group_norms_strip ls : group_norms (map strip ls) = group_norms ls.
Proof.
  induction ls as [|l ls IH]; [reflexivity|].
  cbn [map]. unfold group_norms in *. cbn [flat_map]. rewrite IH.
  destruct l as [[]|[]|[]|[]| | | | |]; reflexivity.
Qed.

Lemma UNet_layers_strip net :
  UNet.layers (strip_unet net) = map strip (UNet.layers net).
Proof.
  destruct net as [[e1 p1] [e2 p2] [e3 p3] [e4 p4] pl [c] [d4] [d3] [d2] d1 fin].
  destruct p1, p2, p3, p4;
    unfold UNet.layers, strip_unet, strip_encoder, strip_decoder,
      _EncoderBlock.layers, _DecoderBlock.layers, Sequential.layers;
    cbn [UNet.enc1 UNet.enc2 UNet.enc3 UNet.enc4 UNet.polling UNet.center
         UNet.dec4 UNet.dec3 UNet.dec2 UNet.dec1 UNet.final
         _EncoderBlock.encode _EncoderBlock.pool _DecoderBlock.decode
         option_map];
    rewrite ?map_app; reflexivity.
Qed.

Lemma UNetV2_layers_strip net :
  UNetV2.layers (strip_unet_v2 net) = map strip (UNetV2.layers net).
Proof.
  destruct net as [ms [e1 p1] [e2 p2] [e3 p3] [e4 p4] pl [c] [d4] [d3] [d2] d1
                     c8 c4 c2 fin].
  destruct p1, p2, p3, p4, c8, c4, c2;
    unfold UNetV2.layers, strip_unet_v2, strip_encoder_v2, strip_decoder_v2,
      _EncoderBlockV2.layers, _DecoderBlockV2.layers, Sequential.layers,
      UNetV2.head;
    cbn [UNetV2.enc1 UNetV2.enc2 UNetV2.enc3 UNetV2.enc4 UNetV2.polling
         UNetV2.center UNetV2.dec4 UNetV2.dec3 UNetV2.dec2 UNetV2.dec1
         UNetV2.conv_8 UNetV2.conv_4 UNetV2.conv_2 UNetV2.final
         _EncoderBlockV2.encode _EncoderBlockV2.pool _DecoderBlockV2.decode
         option_map];
    rewrite ?map_app; reflexivity.
Qed.

Lemma UNet_group_norms num_classes in_channels :
  group_norms (UNet.layers (Arch.unet num_classes in_channels false))
  = [(32, 64); (32, 64); (32, 128); (32, 128); (32, 256); (32, 256);
     (32, 512); (32, 512); (32, 1024); (32, 1024); (32, 512); (32, 512);
     (32, 256); (32, 256); (32, 128); (32, 128); (32, 64); (32, 64)].
Proof. reflexivity. Qed.

Lemma UNetV2_group_norms num_classes in_channels factors multi_scale :
  group_norms (UNetV2.layers
                 (Arch.unet_v2 num_classes in_channels false factors multi_scale))
  = [(32, 32 * factors); (32, 32 * factors);
     (32, 64 * factors); (32, 64 * factors);
     (32, 128 * factors); (32, 128 * factors);
     (32, 256 * factors); (32, 256 * factors);
     (32, 512 * factors); (32, 256 * factors);
     (32, 256 * factors); (32, 128 * factors);
     (32, 128 * factors); (32, 64 * factors);
     (32, 64 * factors); (32, 32 * factors);
     (32, 32 * factors); (32, 32 * factors)].
Proof. destruct multi_scale; reflexivity. Qed.

(** C8.  With [bn = false] both constructors return for every positive
    [factors]: each of the eighteen [GroupNorm] layers gets 32 groups
    and a width that 32 divides - 64, 128, 256, 512 or 1024 in [UNet],
    and 32, 64, 128, 256 or 512 times [factors] in [UNetV2]. *)
Theorem group_norm_widths_divisible `{Backend}
  (num_classes in_channels factors : Z) (multi_scale : bool) (s0 : Store) :
  0 <= num_classes -> 0 <= in_channels -> 0 < factors ->
  (exists net s1,
      UNet.__init__ num_classes in_channels false s0 = (Ok net, s1)
      /\ length (group_norms (UNet.layers net)) = 18%nat
      /\ Forall (fun gc => fst gc = 32
                           /\ In (snd gc) [64; 128; 256; 512; 1024]
                           /\ snd gc mod fst gc = 0)
                (group_norms (UNet.layers net)))
  /\ (exists net s1,
         UNetV2.__init__ num_classes in_channels false factors multi_scale s0
         = (Ok net, s1)
         /\ length (group_norms (UNetV2.layers net)) = 18%nat
         /\ Forall (fun gc => fst gc = 32
                              /\ In (snd gc)
                                    [32 * factors; 64 * factors; 128 * factors;
                                     256 * factors; 512 * factors]
                              /\ snd gc mod fst gc = 0)
                   (group_norms (UNetV2.layers net))).
Proof.
  intros Hn Hi Hf. split.
  - destruct (@total_UNet _ num_classes in_channels false Hn Hi s0)
      as (net & s1 & E).
    exists net, s1. split; [exact E|].
    pose proof (@builds_UNet _ num_classes in_channels false s0 net s1 E) as HA.
    rewrite <- group_norms_strip, <- UNet_layers_strip, HA, UNet_group_norms.
    split; [reflexivity|].
    repeat (constructor;
            [ cbn [fst snd In]; split; [reflexivity|]; split;
              [auto 10 | reflexivity] | ]).
    constructor.
  - destruct (@total_UNetV2 _ num_classes in_channels false factors multi_scale
                Hn Hi Hf s0) as (net & s1 & E).
    exists net, s1. split; [exact E|].
    pose proof (@builds_UNetV2 _ num_classes in_channels false factors
                  multi_scale s0 net s1 E) as HA.
    rewrite <- group_norms_strip, <- UNetV2_layers_strip, HA,
      UNetV2_group_norms.
    split; [reflexivity|].
    pose proof (mul32_mod 1 factors). pose proof (mul32_mod 2 factors).
    pose proof (mul32_mod 4 factors). pose proof (mul32_mod 8 factors).
    pose proof (mul32_mod 16 factors).
    repeat (constructor;
            [ cbn [fst snd In]; split; [reflexivity|]; split;
              [auto 10 | assumption] | ]).
    constructor.
Qed.

(** A two-class [UNet] and a two-class [UNetV2] with [factors = 3]. *)
Lemma group_norm_widths_divisible_witness :
  (exists net s1,
      UNet.__init__ 2 3 false (store0 true) = (Ok net, s1)
      /\ length (group_norms (UNet.layers net)) = 18%nat)
  /\ (exists net s1,
         UNetV2.__init__ 2 3 false 3 true (store0 true) = (Ok net, s1)
         /\ Forall (fun gc => fst gc = 32
                              /\ In (snd gc) [96; 192; 384; 768; 1536]
                              /\ snd gc mod fst gc = 0)
                   (group_norms (UNetV2.layers net))).
Proof.
  destruct (@group_norm_widths_divisible symbolic 2 3 3 true (store0 true))
    as ((net & s1 & E & L & _) & (net' & s1' & E' & _ & F)); try lia.
  split.
  - exists net, s1. split; [exact E | exact L].
  - exists net', s1'. split; [exact E' | exact F].
Defined.

(** ** Determinism and the frame of a forward pass *)

Section Determinism.
Context `{Backend}.

Lemma deterministic_ret {A} (a : A) : deterministic (ret a).
Proof. intros s1 s2 _; reflexivity. Qed.

Lemma deterministic_raise {A} e : deterministic (@raise _ A e).
Proof. intros s1 s2 _; reflexivity. Qed.

Lemma deterministic_bind {A B} (m : M A) (k : A -> M B) :
  quiet m -> deterministic m -> (forall a, deterministic (k a)) ->
  deterministic (bind m k).
Proof.
  intros Hq Hm Hk s1 s2 Hs.
  pose proof (Hm s1 s2 Hs) as Er.
  destruct Hs as (T1 & T2 & Hp & Hb).
  destruct (Hq s1) as (_ & _ & Q1). destruct (Hq s2) as (_ & _ & Q2).
  specialize (Q1 T1). specialize (Q2 T2).
  unfold bind.
  destruct (m s1) as [r1 s1'], (m s2) as [r2 s2']; cbn in *; subst.
  destruct r2 as [a|e]; [|reflexivity].
  apply Hk. repeat split; assumption.
Qed.

Lemma deterministic_if {A} (b : bool) (m1 m2 : M A) :
  deterministic m1 -> deterministic m2 -> deterministic (if b then m1 else m2).
Proof. destruct b; auto. Qed.

Lemma deterministic_Conv2d m x : deterministic (Conv2d.forward m x).
Proof.
  intros s1 s2 (_ & _ & Hp & _).
  unfold Conv2d.forward, bind, get, ret, raise.
  destruct (Conv2d.padding_mode m); cbn;
    repeat (match goal with |- context [if ?b then _ else _] => destruct b end;
            cbn; try reflexivity);
    rewrite !Hp; reflexivity.
Qed.

Lemma deterministic_ConvTranspose2d m x :
  deterministic (ConvTranspose2d.forward m x).
Proof.
  intros s1 s2 (_ & _ & Hp & _).
  unfold ConvTranspose2d.forward, bind, get, ret, raise.
  destruct (negb _); cbn; [reflexivity|]. rewrite !Hp; reflexivity.
Qed.

Lemma deterministic_GroupNorm m x : deterministic (GroupNorm.forward m x).
Proof.
  intros s1 s2 (_ & _ & Hp & _).
  unfold GroupNorm.forward, bind, get, ret, raise.
  destruct (_ =? 1); [reflexivity|]. destruct (negb _); cbn; [reflexivity|].
  rewrite !Hp; reflexivity.
Qed.

(** In evaluation mode batch normalisation reads its parameters and its
    running statistics, nothing else. *)
Lemma deterministic_BatchNorm2d m x : deterministic (BatchNorm2d.forward m x).
Proof.
  intros s1 s2 (T1 & T2 & Hp & Hb).
  unfold BatchNorm2d.forward, bind, get, ret, raise.
  rewrite T1, T2. cbn.
  destruct (negb _); cbn; [reflexivity|]. rewrite !Hp, !Hb; reflexivity.
Qed.

(** In evaluation mode dropout is the identity and draws nothing. *)
Lemma deterministic_Dropout x : deterministic (Dropout.forward x).
Proof.
  intros s1 s2 (T1 & T2 & _).
  unfold Dropout.forward, bind, get. rewrite T1, T2. reflexivity.
Qed.

Lemma deterministic_call l x : deterministic (call l x).
Proof.
  destruct l; cbn [call].
  - apply deterministic_Conv2d.
  - apply deterministic_ConvTranspose2d.
  - apply deterministic_GroupNorm.
  - apply deterministic_BatchNorm2d.
  - apply deterministic_ret.
  - apply deterministic_ret.
  - apply deterministic_Dropout.
  - unfold MaxPool2d.forward.
    apply deterministic_if; [apply deterministic_raise | apply deterministic_ret].
  - unfold AvgPool2d.forward.
    apply deterministic_if; [apply deterministic_raise | apply deterministic_ret].
Qed.

Lemma deterministic_Sequential ls :
  forall x, deterministic (Sequential.forward ls x).
Proof.
  induction ls as [|l ls IH]; intros x; cbn [Sequential.forward].
  - apply deterministic_ret.
  - apply deterministic_bind;
      [apply quiet_call | apply deterministic_call | exact IH].
Qed.

Lemma deterministic_interpolate x target ac :
  deterministic (F.interpolate x target ac).
Proof.
  unfold F.interpolate.
  apply deterministic_if; [apply deterministic_raise | apply deterministic_ret].
Qed.

Lemma deterministic_cat ts : deterministic (torch.cat ts).
Proof.
  destruct ts as [|t ts]; cbn [torch.cat]; [apply deterministic_raise|].
  revert t. induction ts as [|t' ts IH]; intros t; cbn [torch.cat_onto].
  - apply deterministic_ret.
  - apply deterministic_if; [apply IH | apply deterministic_raise].
Qed.

Lemma deterministic_EncoderBlock b x :
  deterministic (_EncoderBlock.forward b x).
Proof.
  unfold _EncoderBlock.forward. apply deterministic_bind.
  - destruct (_EncoderBlock.pool b); [apply quiet_call | apply quiet_ret].
  - destruct (_EncoderBlock.pool b);
      [apply deterministic_call | apply deterministic_ret].
  - intros; apply deterministic_Sequential.
Qed.

Lemma deterministic_EncoderBlockV2 b x :
  deterministic (_EncoderBlockV2.forward b x).
Proof.
  unfold _EncoderBlockV2.forward. apply deterministic_bind.
  - destruct (_EncoderBlockV2.pool b); [apply quiet_call | apply quiet_ret].
  - destruct (_EncoderBlockV2.pool b);
      [apply deterministic_call | apply deterministic_ret].
  - intros; apply deterministic_Sequential.
Qed.

Lemma deterministic_DecoderBlock b x :
  deterministic (_DecoderBlock.forward b x).
Proof. apply deterministic_Sequential. Qed.

Lemma deterministic_DecoderBlockV2 b x :
  deterministic (_DecoderBlockV2.forward b x).
Proof. apply deterministic_Sequential. Qed.

Lemma deterministic_attr a : deterministic (UNetV2.attr a).
Proof. destruct a; [apply deterministic_ret | apply deterministic_raise]. Qed.

End Determinism.

Create HintDb determinism discriminated.

#[export] Hint Resolve deterministic_ret deterministic_raise deterministic_call
  deterministic_Sequential deterministic_interpolate deterministic_cat
  deterministic_EncoderBlock deterministic_EncoderBlockV2
  deterministic_DecoderBlock deterministic_DecoderBlockV2 deterministic_attr
  : determinism.

Ltac deterministic_steps :=
  repeat first
    [ solve [auto with determinism]
    | apply deterministic_bind;
      [ solve [auto with quiet] | solve [auto with determinism] | intros ? ]
    | apply deterministic_if ].

Section DeterminismNetworks.
Context `{Backend}.

Lemma deterministic_UNet net x : deterministic (UNet.forward net x).
Proof. unfold UNet.forward. deterministic_steps. Qed.

Lemma deterministic_UNetV2 net x : deterministic (UNetV2.forward net x).
Proof. unfold UNetV2.forward. deterministic_steps. Qed.

End DeterminismNetworks.

(** C9.  In evaluation mode a forward pass is a function of the
    parameters, the running statistics and the input: two passes of the
    same network on the same input return the same - the same tensors or
    the same exception - whether they start from two stores that agree
    on parameters and running statistics, or the second starts where the
    first one ended. *)
Theorem eval_forward_deterministic `{Backend} :
  (forall (net : UNet.t) x s1 s2,
      same_state s1 s2 ->
      fst (UNet.forward net x s1) = fst (UNet.forward net x s2))
  /\ (forall (net : UNetV2.t) x s1 s2,
         same_state s1 s2 ->
         fst (UNetV2.forward net x s1) = fst (UNetV2.forward net x s2))
  /\ (forall (net : UNet.t) x s,
         training s = false ->
         fst (UNet.forward net x (snd (UNet.forward net x s)))
         = fst (UNet.forward net x s))
  /\ (forall (net : UNetV2.t) x s,
         training s = false ->
         fst (UNetV2.forward net x (snd (UNetV2.forward net x s)))
         = fst (UNetV2.forward net x s)).
Proof.
  split; [|split; [|split]].
  - intros net x. apply deterministic_UNet.
  - intros net x. apply deterministic_UNetV2.
  - intros net x s T.
    destruct (quiet_UNet net x s) as (_ & _ & Q). rewrite (Q T). reflexivity.
  - intros net x s T.
    destruct (quiet_UNetV2 net x s) as (_ & _ & Q). rewrite (Q T). reflexivity.
Qed.

(** C10.  A forward pass, whether it returns or raises, leaves every
    learnable parameter as it was. *)
Theorem forward_keeps_parameters `{Backend} (x : Tensor) (s : Store) :
  (forall net : UNet.t, params (snd (UNet.forward net x s)) = params s)
  /\ (forall net : UNetV2.t, params (snd (UNetV2.forward net x s)) = params s).
Proof.
  split; intros net.
  - destruct (quiet_UNet net x s) as (_ & P & _). exact P.
  - destruct (quiet_UNetV2 net x s) as (_ & P & _). exact P.
Qed.

(** A constructed [UNet] with batch normalisation, put in evaluation
    mode, run from the store the constructor left and from one whose
    random generator is in another state. *)
Lemma eval_forward_deterministic_witness :
  exists net s1,
    UNet.__init__ 1 3 true (store0 true) = (Ok net, s1)
    /\ fst (UNet.forward net (input 1 3 32 32) (snd (set_training false s1)))
       = fst (UNet.forward net (input 1 3 32 32)
                (snd (set_rng 42%nat (snd (set_training false s1))))).
Proof.
  destruct (@total_UNet symbolic 1 3 true ltac:(lia) ltac:(lia) (store0 true))
    as (net & s1 & E).
  exists net, s1. split; [exact E|].
  apply (proj1 (@eval_forward_deterministic symbolic)).
  repeat split; reflexivity.
Defined.

(** By contrast, in training mode a pass through batch normalisation
    writes to the store: after one pass of a freshly constructed
    [UNet(1, bn=True)] the first layer's batch counter is 1. *)
Example training_pass_counts_a_batch :
  counters (snd ((model <- UNet.__init__ 1 3 true ;;
                  UNet.forward model (input 1 3 32 32)) (store0 true)))
           6%nat
  = 1.
Proof. vm_compute. reflexivity. Qed.

(** ** What [UNetV2.forward] returns *)

Ltac binv E a s Ea :=
  apply bind_inv in E; destruct E as (a & s & Ea & E).

Section Outputs.
Context `{Backend}.

Lemma attr_inv a l t t' : UNetV2.attr a t = (Ok l, t') -> a = Some l.
Proof. destruct a as [l0|]; cbn; intros X; inversion X; reflexivity. Qed.

(** A 1x1 convolution without padding keeps the spatial size. *)
Lemma head_keeps_spatial l cin cout x y :
  strip l = Arch.conv cin cout 1 0 zeros ->
  yields (call l x) y -> spatial y = spatial x.
Proof.
  intros El (s & s' & E).
  pose proof (sim_call l x s eq_refl) as S.
  rewrite E in S. cbn [fst Sizes.rmap] in S.
  rewrite <- layer_strip, El in S. symmetry in S. apply conv1_inv in S.
  destruct S as (_ & _ & _ & S). unfold spatial. rewrite S. reflexivity.
Qed.


(** The heads of a constructed [UNetV2] are 1x1 convolutions. *)
Lemma UNetV2_heads num_classes in_channels bn factors s0 net s1
  conv_8 conv_4 conv_2 :
  UNetV2.__init__ num_classes in_channels bn factors true s0 = (Ok net, s1) ->
  UNetV2.conv_8 net = Some conv_8 ->
  UNetV2.conv_4 net = Some conv_4 ->
  UNetV2.conv_2 net = Some conv_2 ->
  strip conv_8 = Arch.conv (128 * factors) num_classes 1 0 zeros
  /\ strip conv_4 = Arch.conv (64 * factors) num_classes 1 0 zeros
  /\ strip conv_2 = Arch.conv (32 * factors) num_classes 1 0 zeros.
Proof.
  intros E A8 A4 A2.
  pose proof (@builds_UNetV2 _ _ _ _ _ _ _ _ _ E) as HA. cbv beta in HA.
  pose proof (f_equal UNetV2.conv_8 HA) as P8.
  pose proof (f_equal UNetV2.conv_4 HA) as P4.
  pose proof (f_equal UNetV2.conv_2 HA) as P2.
  cbn [strip_unet_v2 Arch.unet_v2 UNetV2.conv_8 UNetV2.conv_4 UNetV2.conv_2
       Arch.head] in P8, P4, P2.
  rewrite A8 in P8. rewrite A4 in P4. rewrite A2 in P2.
  cbn [option_map] in P8, P4, P2.
  inversion P8. inversion P4. inversion P2. auto.
Qed.

End Outputs.



(** ** The ladder of [UNet] *)

Section LadderLemmas.
Context `{Backend}.

Lemma bind_ext {A B} (m : M A) (k k' : A -> M B) s :
  (forall a s1, k a s1 = k' a s1) -> bind m k s = bind m k' s.
Proof. intros Hk. unfold bind. destruct (m s) as [[a|e] s1]; auto. Qed.

Lemma bind_ret_r {A} (m : M A) s : bind m (fun a => ret a) s = m s.
Proof. unfold bind, ret. destruct (m s) as [[a|e] s1]; reflexivity. Qed.

(** A rung that does not resample concatenates and decodes. *)
Lemma rung_plain {B} prev skip decode (k : Tensor -> M B) s :
  bind (Ladder.rung false prev skip decode) k s
  = (fused <- torch.cat [prev; skip] ;; dec <- decode fused ;; k dec) s.
Proof.
  unfold Ladder.rung. rewrite bind_assoc, bind_ret_l, bind_assoc. reflexivity.
Qed.

(** A rung that resamples does so to the size of the skip connection,
    bilinearly, with aligned corners. *)
Lemma rung_resampling {B} prev skip decode (k : Tensor -> M B) s :
  bind (Ladder.rung true prev skip decode) k s
  = (up <- F.interpolate prev (spatial skip) true ;;
     fused <- torch.cat [up; skip] ;; dec <- decode fused ;; k dec) s.
Proof.
  unfold Ladder.rung. rewrite bind_assoc. apply bind_ext; intros up s1.
  rewrite bind_assoc. reflexivity.
Qed.

End LadderLemmas.

(** C3 as stated describes the ladder [Ladder.specified], in which all
    four steps resample.  [UNet.forward] is not that ladder: on a
    [(1, 3, 100, 100)] input the specified ladder returns a 100x100
    tensor, whereas [UNet.forward] raises the size mismatch of
    [torch.cat([dec4, enc3], 1)] - [dec4] is 24x24, [enc3] is 25x25, and
    nothing resampled [dec4]. *)
Lemma UNet_is_not_the_specified_ladder :
  Sizes.rmap size
    (fst ((model <- UNet.__init__ 1 3 false ;;
           Ladder.specified model (input 1 3 100 100)) (store0 true)))
  = Ok (mkSize 1 1 100 100)
  /\ Sizes.rmap size
       (fst ((model <- UNet.__init__ 1 3 false ;;
              UNet.forward model (input 1 3 100 100)) (store0 true)))
     = Err SizesMustMatch.
Proof. split; vm_compute; reflexivity. Qed.

(** C3, amended.  In [UNet.forward] only the first of the four
    fuse-and-decode steps, the one producing [dec4], resamples: the
    bottleneck output is brought to the spatial size of [enc4] by
    bilinear interpolation with aligned corners.  The steps producing
    [dec3], [dec2] and [dec1] take the previous decoder output as it is.
    Every step then concatenates channel-wise with the retained encoder
    output and runs its decoder block, or the [dec1] pair. *)
Theorem UNet_resamples_only_the_bottleneck `{Backend}
  (net : UNet.t) (x : Tensor) (s : Store) :
  UNet.forward net x s = Ladder.forward true false false false net x s.
Proof.
  unfold UNet.forward, Ladder.forward.
  do 6 (apply bind_ext; intros ? ?).
  rewrite rung_resampling.
  do 3 (apply bind_ext; intros ? ?).
  rewrite rung_plain.
  do 2 (apply bind_ext; intros ? ?).
  rewrite rung_plain.
  do 2 (apply bind_ext; intros ? ?).
  rewrite rung_plain.
  do 2 (apply bind_ext; intros ? ?).
  apply bind_ret_r.
Qed.

(** On the symbolic backend the value [UNet] returns for a 32x32 input
    went through one resampling, with aligned corners, to the 4x4 of
    [enc4]; the value the specified ladder returns went through four. *)
Example UNet_resamplings :
  Sizes.rmap (fun y => resamplings (data y))
    (fst ((model <- UNet.__init__ 1 3 false ;;
           UNet.forward model (input 1 3 32 32)) (store0 true)))
  = Ok [(true, (4, 4))]
  /\ Sizes.rmap (fun y => resamplings (data y))
       (fst ((model <- UNet.__init__ 1 3 false ;;
              Ladder.specified model (input 1 3 32 32)) (store0 true)))
     = Ok [(true, (4, 4)); (true, (8, 8)); (true, (16, 16)); (true, (32, 32))].
Proof. split; vm_compute; reflexivity. Qed.

(** ** Pooling in [UNetV2] *)

Lemma strip_max_pool l m : strip l = LMaxPool2d m -> l = LMaxPool2d m.
Proof. destruct l as [[]|[]|[]|[]| | | | |]; cbn; intros E; inversion E; reflexivity. Qed.

Lemma strip_avg_pool l m : strip l = LAvgPool2d m -> l = LAvgPool2d m.
Proof. destruct l as [[]|[]|[]|[]| | | | |]; cbn; intros E; inversion E; reflexivity. Qed.

Lemma strip_pool_of (o : option Layer) polling :
  option_map strip o = Arch.pool_of polling -> o = Arch.pool_of polling.
Proof.
  destruct polling, o as [l|]; cbn; intros E; try discriminate; [|reflexivity].
  inversion E as [E']. apply strip_max_pool in E'. rewrite E'. reflexivity.
Qed.

(** C4 as stated fails on every [UNetV2]: the pool that opens [enc2],
    [enc3] and [enc4] is the [MaxPool2d] of [_EncoderBlockV2]; only
    [self.polling], between [enc4] and [center], is an [AvgPool2d].
    Here for the network of the [__main__] block, with the poolings the
    final output of a 32x32 input went through, in order. *)
Lemma UNetV2_encoders_pool_by_max :
  Sizes.rmap
    (fun net => (map _EncoderBlockV2.pool
                     [UNetV2.enc2 net; UNetV2.enc3 net; UNetV2.enc4 net],
                 UNetV2.polling net))
    (fst (UNetV2.__init__ 1 1 false 2 true (store0 true)))
  = Ok ([Some (LMaxPool2d (MaxPool2d.mk 2 2));
         Some (LMaxPool2d (MaxPool2d.mk 2 2));
         Some (LMaxPool2d (MaxPool2d.mk 2 2))],
        LAvgPool2d (AvgPool2d.mk 2 2))
  /\ Sizes.rmap (fun out => map (fun y => poolings (data y)) (tensors out))
       (fst ((model <- UNetV2.__init__ 1 1 false 2 false ;;
              UNetV2.forward model (input 1 1 32 32)) (store0 true)))
     = Ok [[MaxPooling; MaxPooling; MaxPooling; AvgPooling]].
Proof. split; vm_compute; reflexivity. Qed.

(** C4, amended.  In every constructed [UNetV2] the 2x downsampling that
    opens [enc2], [enc3] and [enc4] is a 2x2 max-pooling of stride 2
    ([enc1] has none): each of these blocks first max-pools its input
    and then runs its layers.  The one average-pooling is
    [self.polling], applied between [enc4] and [center]. *)
Theorem UNetV2_pooling `{Backend}
  (num_classes in_channels : Z) (bn : bool) (factors : Z) (multi_scale : bool)
  (s0 : Store) (net : UNetV2.t) (s1 : Store) :
  UNetV2.__init__ num_classes in_channels bn factors multi_scale s0
  = (Ok net, s1) ->
  _EncoderBlockV2.pool (UNetV2.enc1 net) = None
  /\ Forall (fun b =>
               _EncoderBlockV2.pool b = Some (LMaxPool2d (MaxPool2d.mk 2 2))
               /\ forall x s,
                   _EncoderBlockV2.forward b x s
                   = (pooled <- MaxPool2d.forward (MaxPool2d.mk 2 2) x ;;
                      Sequential.forward (_EncoderBlockV2.encode b) pooled) s)
            [UNetV2.enc2 net; UNetV2.enc3 net; UNetV2.enc4 net]
  /\ UNetV2.polling net = LAvgPool2d (AvgPool2d.mk 2 2).
Proof.
  intros E.
  pose proof (@builds_UNetV2 _ _ _ _ _ _ _ _ _ E) as HA. cbv beta in HA.
  pose proof (f_equal UNetV2.enc1 HA) as P1.
  pose proof (f_equal UNetV2.enc2 HA) as P2.
  pose proof (f_equal UNetV2.enc3 HA) as P3.
  pose proof (f_equal UNetV2.enc4 HA) as P4.
  pose proof (f_equal UNetV2.polling HA) as Pl.
  clear HA.
  cbn [strip_unet_v2 Arch.unet_v2 UNetV2.enc1 UNetV2.enc2 UNetV2.enc3
       UNetV2.enc4 UNetV2.polling] in P1, P2, P3, P4, Pl.
  assert (Hp : forall b cin cout polling,
             strip_encoder_v2 b = Arch.encoder_v2 cin cout polling bn ->
             _EncoderBlockV2.pool b = Arch.pool_of polling).
  { intros b cin cout polling Eb.
    apply (f_equal _EncoderBlockV2.pool) in Eb.
    cbn [strip_encoder_v2 Arch.encoder_v2 _EncoderBlockV2.pool] in Eb.
    apply strip_pool_of. exact Eb. }
  apply Hp in P1, P2, P3, P4.
  assert (Hb : forall b,
             _EncoderBlockV2.pool b = Arch.pool_of true ->
             _EncoderBlockV2.pool b = Some (LMaxPool2d (MaxPool2d.mk 2 2))
             /\ forall x s,
                 _EncoderBlockV2.forward b x s
                 = (pooled <- MaxPool2d.forward (MaxPool2d.mk 2 2) x ;;
                    Sequential.forward (_EncoderBlockV2.encode b) pooled) s).
  { intros b Ep. split; [exact Ep|]. intros x s.
    unfold _EncoderBlockV2.forward. rewrite Ep. reflexivity. }
  split; [exact P1|]. split.
  - repeat (constructor; [apply Hb; assumption|]). constructor.
  - apply strip_avg_pool. exact Pl.
Qed.

(** The network of the [__main__] block. *)
Lemma UNetV2_pooling_witness :
  exists net s1,
    UNetV2.__init__ 1 1 false 2 true (store0 true) = (Ok net, s1)
    /\ map _EncoderBlockV2.pool
           [UNetV2.enc1 net; UNetV2.enc2 net; UNetV2.enc3 net; UNetV2.enc4 net]
       = [None; Some (LMaxPool2d (MaxPool2d.mk 2 2));
          Some (LMaxPool2d (MaxPool2d.mk 2 2));
          Some (LMaxPool2d (MaxPool2d.mk 2 2))]
    /\ UNetV2.polling net = LAvgPool2d (AvgPool2d.mk 2 2).
Proof.
  destruct (@total_UNetV2 symbolic 1 1 false 2 true
              ltac:(lia) ltac:(lia) ltac:(lia) (store0 true))
    as (net & s1 & E).
  exists net, s1. split; [exact E|].
  destruct (@UNetV2_pooling symbolic 1 1 false 2 true (store0 true) net s1 E)
    as (P1 & F & Pl).
  inversion F as [|b2 l2 [P2 _] F2]; subst.
  inversion F2 as [|b3 l3 [P3 _] F3]; subst.
  inversion F3 as [|b4 l4 [P4 _] F4]; subst.
  split; [|exact Pl].
  cbn [map]. rewrite P1, P2, P3, P4. reflexivity.
Defined.

(** * Further properties of the networks and of their blocks *)

(** ** How the networks reject an input *)


Lemma conv3_reflect_small tr cin cout n c h w :
  h < 2 \/ w < 2 ->
  Sizes.layer tr (Arch.conv cin cout 3 1 reflect) (mkSize n c h w)
  = Err PaddingTooLarge.
Proof.
  intros Hs. sz_unfold. size_cases; bools; try reflexivity; exfalso; lia.
Qed.

Lemma pool_small tr (p : Layer) n c h w :
  p = Arch.max_pool \/ p = Arch.avg_pool -> h < 2 \/ w < 2 ->
  Sizes.layer tr p (mkSize n c h w) = Err OutputTooSmall.
Proof.
  intros [-> | ->] Hs; sz_unfold; size_cases; bools; try reflexivity;
    exfalso; dlia.
Qed.

Lemma batch_norm_one_value cn c h w :
  h = 1 -> w = 1 ->
  Sizes.layer true (Arch.norm true cn) (mkSize 1 c h w) = Err OneValuePerChannel.
Proof. intros -> ->. reflexivity. Qed.



Lemma encoder_v2_first_small tr cin cout bn n c h w :
  h < 2 \/ w < 2 ->
  Sizes.encoder tr (Arch.pool_of false) (Arch.double_conv_v2 cin cout cout bn)
                (mkSize n c h w)
  = Err PaddingTooLarge.
Proof.
  intros Hs. unfold Sizes.encoder, Arch.pool_of, Arch.double_conv_v2.
  cbn [Sizes.rbind Sizes.sequential].
  rewrite conv3_reflect_small by assumption. reflexivity.
Qed.

Lemma encoder_v2_pool_small tr cin cout bn n c h w :
  2 <= h -> 2 <= w -> h < 4 \/ w < 4 ->
  Sizes.encoder tr (Arch.pool_of true) (Arch.double_conv_v2 cin cout cout bn)
                (mkSize n c h w)
  = Err PaddingTooLarge.
Proof.
  intros Hh Hw Hs. unfold Sizes.encoder, Arch.pool_of, Arch.double_conv_v2.
  rewrite pool_ok by auto. cbn [Sizes.rbind Sizes.sequential].
  rewrite conv3_reflect_small by dlia. reflexivity.
Qed.

Lemma double_conv_v2_small tr cin cmid cout bn n c h w :
  h < 2 \/ w < 2 ->
  Sizes.sequential tr (Arch.double_conv_v2 cin cmid cout bn) (mkSize n c h w)
  = Err PaddingTooLarge.
Proof.
  intros Hs. unfold Arch.double_conv_v2. cbn [Sizes.sequential].
  rewrite conv3_reflect_small by assumption. reflexivity.
Qed.

Lemma encoder_pool_small tr cin cout bn n c h w :
  h < 2 \/ w < 2 ->
  Sizes.encoder tr (Arch.pool_of true) (Arch.double_conv cin cout bn)
                (mkSize n c h w)
  = Err OutputTooSmall.
Proof.
  intros Hs. unfold Sizes.encoder, Arch.pool_of.
  rewrite pool_small by auto. reflexivity.
Qed.

Ltac small_or_not h w k :=
  let Hd := fresh "Hd" in
  assert (Hd : (h < k \/ w < k) \/ (k <= h /\ k <= w)) by lia;
  destruct Hd as [Hd | [? ?]].

(** [UNetV2]: a side below 32 fails at a reflection padding. *)
Lemma unet_v2_small tr num_classes in_channels bn factors ms n c h w :
  1 <= n -> c = in_channels -> 1 <= factors -> h < 32 \/ w < 32 ->
  Sizes.unet_v2 tr (Arch.unet_v2 num_classes in_channels bn factors ms)
                (mkSize n c h w)
  = Err PaddingTooLarge.
Proof.
  intros Hn Hc Hf Hs. unet_v2_unfold.
  small_or_not h w 2;
    [rewrite encoder_v2_first_small by assumption; reflexivity|].
  net_ok.
  small_or_not h w 4;
    [rewrite encoder_v2_pool_small by assumption; reflexivity|].
  net_ok.
  small_or_not (h / 2) (w / 2) 4;
    [rewrite encoder_v2_pool_small by (assumption || dlia); reflexivity|].
  net_ok.
  small_or_not (h / 2 / 2) (w / 2 / 2) 4;
    [rewrite encoder_v2_pool_small by (assumption || dlia); reflexivity|].
  net_ok.
  rewrite double_conv_v2_small by dlia. reflexivity.
Qed.

(** [UNet]: a side below 16 fails at a pooling. *)
Lemma unet_small tr num_classes in_channels bn n c h w :
  1 <= n -> c = in_channels -> 1 <= h -> 1 <= w -> h < 16 \/ w < 16 ->
  (bn = true -> tr = true -> 2 <= n) ->
  Sizes.unet tr (Arch.unet num_classes in_channels bn) (mkSize n c h w)
  = Err OutputTooSmall.
Proof.
  intros Hn Hc Hh Hw Hs Hbn. unet_unfold.
  net_ok.
  small_or_not h w 2;
    [rewrite encoder_pool_small by assumption; reflexivity|].
  net_ok.
  small_or_not (h / 2) (w / 2) 2;
    [rewrite encoder_pool_small by assumption; reflexivity|].
  net_ok.
  small_or_not (h / 2 / 2) (w / 2 / 2) 2;
    [rewrite encoder_pool_small by assumption; reflexivity|].
  net_ok.
  rewrite pool_small by (auto; dlia). reflexivity.
Qed.

(** [UNet] with batch normalisation, training on one small input: the
    bottleneck sees a 1x1 map. *)
Lemma unet_one_value num_classes in_channels c h w :
  c = in_channels -> 16 <= h < 32 -> 16 <= w < 32 ->
  Sizes.unet true (Arch.unet num_classes in_channels true) (mkSize 1 c h w)
  = Err OneValuePerChannel.
Proof.
  intros Hc Hh Hw. unet_unfold.
  net_ok.
  unfold Arch.decoder, Arch.double_conv. cbn [Sizes.sequential app].
  rewrite conv3_ok by (cbn [min_side]; first [reflexivity | dlia]).
  cbn [Sizes.rbind].
  rewrite batch_norm_one_value by dlia. reflexivity.
Qed.

(** X1.  A [UNetV2] constructed with [num_classes >= 1],
    [in_channels >= 1] and [factors >= 1] accepts an input of batch size
    at least 1 exactly when it has [in_channels] channels and both sides
    are at least 32 - multiples of 16 or not.  What it returns then has
    the sizes of the input divided by 8, 4, 2 and 1, rounded down (with
    [multi_scale]), or the size of the input (without). *)
Theorem UNetV2_accepts_sides_from_32 `{Backend}
  (num_classes in_channels : Z) (bn : bool) (factors : Z) (multi_scale : bool)
  (s0 : Store) (net : UNetV2.t) (s1 : Store) (x : Tensor) (s : Store) :
  UNetV2.__init__ num_classes in_channels bn factors multi_scale s0
  = (Ok net, s1) ->
  0 < num_classes -> 0 < in_channels ->
  1 <= factors -> 1 <= batch (size x) ->
  ((exists out s', UNetV2.forward net x s = (Ok out, s'))
   <-> channels (size x) = in_channels
       /\ 32 <= height (size x) /\ 32 <= width (size x))
  /\ (forall out s',
         UNetV2.forward net x s = (Ok out, s') ->
         Sizes.omap size out
         = if multi_scale
           then OTuple [mkSize (batch (size x)) num_classes
                               (height (size x) / 8) (width (size x) / 8);
                        mkSize (batch (size x)) num_classes
                               (height (size x) / 4) (width (size x) / 4);
                        mkSize (batch (size x)) num_classes
                               (height (size x) / 2) (width (size x) / 2);
                        mkSize (batch (size x)) num_classes
                               (height (size x)) (width (size x))]
           else OTensor (mkSize (batch (size x)) num_classes
                                (height (size x)) (width (size x)))).
Proof.
  intros E _ _ Hf Hn. split; [split|].
  - intros (out & s' & Eo).
    destruct (UNetV2_returned E Eo) as (Hc & Hh & Hw & _). auto.
  - intros (Hc & Hh & Hw).
    destruct (UNetV2_returns x s E Hf Hn Hc Hh Hw) as (out & s' & Eo & _).
    exists out, s'. exact Eo.
  - intros out s' Eo.
    destruct (UNetV2_returned E Eo) as (_ & _ & _ & Es). exact Es.
Qed.

Lemma UNetV2_accepts_sides_from_32_witness :
  exists net s1 out s',
    UNetV2.__init__ 2 3 true 1 true (store0 true) = (Ok net, s1)
    /\ UNetV2.forward net (input 4 3 45 70) s1 = (Ok out, s')
    /\ Sizes.omap size out
       = OTuple [mkSize 4 2 5 8; mkSize 4 2 11 17; mkSize 4 2 22 35;
                 mkSize 4 2 45 70].
Proof.
  destruct (@total_UNetV2 symbolic 2 3 true 1 true
              ltac:(lia) ltac:(lia) ltac:(lia) (store0 true))
    as (net & s1 & E).
  destruct (@UNetV2_accepts_sides_from_32 symbolic 2 3 true 1 true
              (store0 true) net s1 (input 4 3 45 70) s1 E
              ltac:(lia) ltac:(lia) ltac:(lia)
              ltac:(cbn [input size batch]; lia))
    as ((_ & R) & S).
  destruct R as (out & s' & Eo).
  { cbn [input size channels height width]. lia. }
  exists net, s1, out, s'. split; [exact E|]. split; [exact Eo|].
  exact (S out s' Eo).
Defined.

(** X2.  Below 32 a reflection padding rejects the input: on an input
    of batch size at least 1 with [in_channels] channels and positive
    sides, one of them below 32, a [UNetV2] constructed with
    [num_classes >= 1], [in_channels >= 1] and [factors >= 1] raises the
    padding-size error of [F.pad(..., mode='reflect')] - a 3x3
    convolution is reached by a map with a side of 1. *)
Theorem UNetV2_rejects_sides_below_32 `{Backend}
  (num_classes in_channels : Z) (bn : bool) (factors : Z) (multi_scale : bool)
  (s0 : Store) (net : UNetV2.t) (s1 : Store) (x : Tensor) (s : Store) :
  UNetV2.__init__ num_classes in_channels bn factors multi_scale s0
  = (Ok net, s1) ->
  0 < num_classes -> 0 < in_channels ->
  1 <= factors -> 1 <= batch (size x) ->
  channels (size x) = in_channels ->
  1 <= height (size x) -> 1 <= width (size x) ->
  height (size x) < 32 \/ width (size x) < 32 ->
  fst (UNetV2.forward net x s) = Err PaddingTooLarge.
Proof.
  intros E _ _ Hf Hn Hc _ _ Hs.
  apply raises_of_sizes with (f := Sizes.omap size).
  erewrite UNetV2_sizes by exact E.
  destruct (size x) as [n c h w]; cbn [batch channels height width] in *.
  apply unet_v2_small; assumption.
Qed.

Lemma UNetV2_rejects_sides_below_32_witness :
  exists net s1,
    UNetV2.__init__ 1 1 false 2 true (store0 true) = (Ok net, s1)
    /\ fst (UNetV2.forward net (input 1 1 200 31) s1) = Err PaddingTooLarge.
Proof.
  destruct (@total_UNetV2 symbolic 1 1 false 2 true
              ltac:(lia) ltac:(lia) ltac:(lia) (store0 true))
    as (net & s1 & E).
  exists net, s1. split; [exact E|].
  apply (@UNetV2_rejects_sides_below_32 symbolic 1 1 false 2 true
           (store0 true) net s1 (input 1 1 200 31) s1 E);
    cbn [input size batch channels height width]; lia.
Defined.



(** X4.  A [UNet] constructed with [num_classes >= 1] and
    [in_channels >= 1] accepts an input of batch size at least 1 exactly
    when it has [in_channels] channels, both sides are multiples of 8
    and at least 16, and - with batch normalisation in training mode -
    the bottleneck sees more than one value per channel (a batch of 2 or
    more, or a side of 32 or more).  It then returns a tensor of the
    input's spatial size. *)
Theorem UNet_accepts_multiples_of_8 `{Backend}
  (num_classes in_channels : Z) (bn : bool)
  (s0 : Store) (net : UNet.t) (s1 : Store) (x : Tensor) (s : Store) :
  UNet.__init__ num_classes in_channels bn s0 = (Ok net, s1) ->
  0 < num_classes -> 0 < in_channels ->
  1 <= batch (size x) ->
  ((exists out s', UNet.forward net x s = (Ok out, s'))
   <-> channels (size x) = in_channels
       /\ 16 <= height (size x) /\ 16 <= width (size x)
       /\ height (size x) mod 8 = 0 /\ width (size x) mod 8 = 0
       /\ (bn = true -> training s = true ->
           2 <= batch (size x) \/ 32 <= height (size x)
           \/ 32 <= width (size x)))
  /\ (forall out s',
         UNet.forward net x s = (Ok out, s') ->
         size out = mkSize (batch (size x)) num_classes
                           (height (size x)) (width (size x))).
Proof.
  intros E _ _ Hn. split; [split|].
  - intros (out & s' & Eo).
    destruct (UNet_returned E Eo) as (Hc & Hh8 & Hw8 & Hh & Hw & _).
    repeat split; try assumption.
    intros Hbn Htr.
    destruct (Z_lt_dec (batch (size x)) 2) as [Hn1|]; [|lia].
    destruct (Z_lt_dec (height (size x)) 32) as [Hh32|]; [|lia].
    destruct (Z_lt_dec (width (size x)) 32) as [Hw32|]; [|lia].
    exfalso.
    pose proof (UNet_sizes _ _ _ _ E x s) as Es.
    rewrite Eo, Hbn, Htr in Es. cbn [fst Sizes.rmap] in Es.
    destruct (size x) as [n c h w]; cbn [batch channels height width] in *.
    assert (n = 1) by lia. subst n.
    rewrite unet_one_value in Es by (assumption || lia). discriminate.
  - intros (Hc & Hh & Hw & Hh8 & Hw8 & Hbn).
    destruct (UNet_returns x s E Hn Hc Hh Hw Hh8 Hw8 Hbn) as (out & s' & Eo & _).
    exists out, s'. exact Eo.
  - intros out s' Eo.
    destruct (UNet_returned E Eo) as (_ & _ & _ & _ & _ & Es). exact Es.
Qed.

Lemma UNet_accepts_multiples_of_8_witness :
  exists net s1 out s',
    UNet.__init__ 2 3 true (store0 true) = (Ok net, s1)
    /\ UNet.forward net (input 1 3 24 40) s1 = (Ok out, s')
    /\ size out = mkSize 1 2 24 40.
Proof.
  destruct (@total_UNet symbolic 2 3 true ltac:(lia) ltac:(lia) (store0 true))
    as (net & s1 & E).
  destruct (@UNet_accepts_multiples_of_8 symbolic 2 3 true
              (store0 true) net s1 (input 1 3 24 40) s1 E
              ltac:(lia) ltac:(lia)
              ltac:(cbn [input size batch]; lia))
    as ((_ & R) & S).
  destruct R as (out & s' & Eo).
  { cbn [input size batch channels height width].
    repeat split; try reflexivity; try lia. }
  exists net, s1, out, s'. split; [exact E|]. split; [exact Eo|].
  exact (S out s' Eo).
Defined.

(** X5.  On an input of batch size at least 1 with [in_channels]
    channels, positive sides and a side below 16 a [UNet] constructed
    with [num_classes >= 1] and [in_channels >= 1] raises the error of a
    pooling whose output would be empty: one of the four poolings is
    reached by a map with a side of 1.  (With batch normalisation in
    training mode, for a batch of 2 or more: on a single 1x1 map the
    normalisation raises first.) *)
Theorem UNet_rejects_sides_below_16 `{Backend}
  (num_classes in_channels : Z) (bn : bool)
  (s0 : Store) (net : UNet.t) (s1 : Store) (x : Tensor) (s : Store) :
  UNet.__init__ num_classes in_channels bn s0 = (Ok net, s1) ->
  0 < num_classes -> 0 < in_channels ->
  1 <= batch (size x) -> channels (size x) = in_channels ->
  1 <= height (size x) -> 1 <= width (size x) ->
  height (size x) < 16 \/ width (size x) < 16 ->
  (bn = true -> training s = true -> 2 <= batch (size x)) ->
  fst (UNet.forward net x s) = Err OutputTooSmall.
Proof.
  intros E _ _ Hn Hc Hh Hw Hs Hbn.
  apply raises_of_sizes with (f := size).
  erewrite UNet_sizes by exact E.
  destruct (size x) as [n c h w]; cbn [batch channels height width] in *.
  apply unet_small; assumption.
Qed.

Lemma UNet_rejects_sides_below_16_witness :
  exists net s1,
    UNet.__init__ 1 3 false (store0 true) = (Ok net, s1)
    /\ fst (UNet.forward net (input 1 3 15 64) s1) = Err OutputTooSmall.
Proof.
  destruct (@total_UNet symbolic 1 3 false ltac:(lia) ltac:(lia) (store0 true))
    as (net & s1 & E).
  exists net, s1. split; [exact E|].
  apply (@UNet_rejects_sides_below_16 symbolic 1 3 false
           (store0 true) net s1 (input 1 3 15 64) s1 E);
    cbn [input size batch channels height width];
    first [ lia | intros Hb; discriminate Hb ].
Defined.

(** X6.  [UNet] with batch normalisation, constructed with
    [num_classes >= 1] and [in_channels >= 1], on a single input with both
    sides from 16 to 31: in training mode the forward pass raises
    "expected more than 1 value per channel" - the bottleneck map is
    1x1; in evaluation mode the same input is accepted when its sides
    are multiples of 8. *)
Theorem UNet_batch_norm_needs_two_values `{Backend}
  (num_classes in_channels : Z)
  (s0 : Store) (net : UNet.t) (s1 : Store) (x : Tensor) (s : Store) :
  UNet.__init__ num_classes in_channels true s0 = (Ok net, s1) ->
  0 < num_classes -> 0 < in_channels ->
  batch (size x) = 1 -> channels (size x) = in_channels ->
  16 <= height (size x) < 32 -> 16 <= width (size x) < 32 ->
  (training s = true -> fst (UNet.forward net x s) = Err OneValuePerChannel)
  /\ (training s = false ->
      height (size x) mod 8 = 0 -> width (size x) mod 8 = 0 ->
      exists out s', UNet.forward net x s = (Ok out, s')).
Proof.
  intros E _ _ Hn Hc Hh Hw. split.
  - intros Htr.
    apply raises_of_sizes with (f := size).
    erewrite UNet_sizes by exact E. rewrite Htr.
    destruct (size x) as [n c h w]; cbn [batch channels height width] in *.
    subst n. apply unet_one_value; assumption.
  - intros Htr Hh8 Hw8.
    destruct (UNet_returns x s E) as (out & s' & Eo & _);
      try assumption; try lia.
    + intros _ Ht. rewrite Htr in Ht. discriminate.
    + exists out, s'. exact Eo.
Qed.

Lemma UNet_batch_norm_needs_two_values_witness :
  exists net s1,
    UNet.__init__ 1 3 true (store0 false) = (Ok net, s1)
    /\ fst (UNet.forward net (input 1 3 16 16) (snd (set_training true s1)))
       = Err OneValuePerChannel.
Proof.
  destruct (@total_UNet symbolic 1 3 true ltac:(lia) ltac:(lia) (store0 false))
    as (net & s1 & E).
  exists net, s1. split; [exact E|].
  refine (proj1 (@UNet_batch_norm_needs_two_values symbolic 1 3
           (store0 false) net s1 (input 1 3 16 16)
           (snd (set_training true s1)) E _ _ _ _ _ _) _);
    cbn [input size batch channels height width]; try lia.
  reflexivity.
Defined.

(** ** The blocks on their own *)

Section Blocks.
Context `{Backend}.

Lemma builds_dropout (dropout : bool) (ls : list Layer) :
  builds (if dropout then d <- nn.Dropout ;; ret (ls ++ [d]) else ret ls)
         (fun ls' => ls' = ls ++ (if dropout then [LDropout] else [])).
Proof.
  intros s ls' s'. destruct dropout; cbn; intros E; inversion E; subst.
  - reflexivity.
  - rewrite app_nil_r. reflexivity.
Qed.

(** What [_EncoderBlock.__init__] builds, whatever [dropout]. *)
Lemma builds_EncoderBlock_dropout cin cout dropout polling bn :
  builds (_EncoderBlock.__init__ cin cout dropout polling bn)
         (fun b => exists base,
              _EncoderBlock.encode b
              = base ++ (if dropout then [LDropout] else [])
              /\ map strip base = Arch.double_conv cin cout bn
              /\ option_map strip (_EncoderBlock.pool b) = Arch.pool_of polling).
Proof.
  unfold _EncoderBlock.__init__, nn.ReLU. cbn zeta.
  do 7 builds_step.
  eapply builds_bind; [apply builds_dropout | cbv beta; intros ls ->].
  builds_step.
  apply builds_ret. subst.
  eexists. cbn [_EncoderBlock.encode _EncoderBlock.pool].
  split; [reflexivity|]. split.
  - cbn [map]. unfold Arch.double_conv.
    repeat match goal with E : strip _ = _ |- _ => rewrite E; clear E end.
    reflexivity.
  - destruct polling; reflexivity.
Qed.

Lemma builds_EncoderBlockV2_dropout cin cout dropout polling bn :
  builds (_EncoderBlockV2.__init__ cin cout dropout polling bn)
         (fun b => exists base,
              _EncoderBlockV2.encode b
              = base ++ (if dropout then [LDropout] else [])
              /\ map strip base = Arch.double_conv_v2 cin cout cout bn
              /\ option_map strip (_EncoderBlockV2.pool b)
                 = Arch.pool_of polling).
Proof.
  unfold _EncoderBlockV2.__init__, nn.GELU. cbn zeta.
  do 7 builds_step.
  eapply builds_bind; [apply builds_dropout | cbv beta; intros ls ->].
  builds_step.
  apply builds_ret. subst.
  eexists. cbn [_EncoderBlockV2.encode _EncoderBlockV2.pool].
  split; [reflexivity|]. split.
  - cbn [map]. unfold Arch.double_conv_v2.
    repeat match goal with E : strip _ = _ |- _ => rewrite E; clear E end.
    reflexivity.
  - destruct polling; reflexivity.
Qed.

End Blocks.

Lemma sequential_app tr ls1 ls2 :
  forall sz, Sizes.sequential tr (ls1 ++ ls2) sz
             = Sizes.rbind (Sizes.sequential tr ls1 sz) (Sizes.sequential tr ls2).
Proof.
  induction ls1 as [|l ls1 IH]; intros sz; cbn [app Sizes.sequential Sizes.rbind].
  - reflexivity.
  - destruct (Sizes.layer tr l sz) as [sz1|e]; cbn [Sizes.rbind];
      [apply IH | reflexivity].
Qed.

(** A trailing [Dropout] changes no size. *)
Lemma sequential_dropout tr ls (dropout : bool) sz :
  Sizes.sequential tr (ls ++ (if dropout then [LDropout] else [])) sz
  = Sizes.sequential tr ls sz.
Proof.
  rewrite sequential_app.
  destruct (Sizes.sequential tr ls sz), dropout; reflexivity.
Qed.

Lemma map_strip_dropout base (dropout : bool) :
  map strip (base ++ (if dropout then [LDropout] else []))
  = map strip base ++ (if dropout then [LDropout] else []).
Proof. rewrite map_app. destruct dropout; reflexivity. Qed.

Lemma encoder_dropout tr pool ls (dropout : bool) sz :
  Sizes.encoder tr pool (ls ++ (if dropout then [LDropout] else [])) sz
  = Sizes.encoder tr pool ls sz.
Proof.
  unfold Sizes.encoder. apply rbind_cong; [reflexivity|].
  intros a. apply sequential_dropout.
Qed.

Section BlockSizes.
Context `{Backend}.

Lemma EncoderBlock_sizes cin cout dropout polling bn s0 b s1 :
  _EncoderBlock.__init__ cin cout dropout polling bn s0 = (Ok b, s1) ->
  forall x s,
    Sizes.rmap size (fst (_EncoderBlock.forward b x s))
    = Sizes.encoder (training s) (Arch.pool_of polling)
                    (Arch.double_conv cin cout bn) (size x).
Proof.
  intros E x s.
  destruct (@builds_EncoderBlock_dropout _ _ _ _ _ _ _ _ _ E)
    as (base & Eb & Es & Ep).
  rewrite (@sim_EncoderBlock _ (training s) b x s eq_refl).
  rewrite <- encoder_strip, Ep, Eb, map_strip_dropout, Es.
  apply encoder_dropout.
Qed.

Lemma EncoderBlockV2_sizes cin cout dropout polling bn s0 b s1 :
  _EncoderBlockV2.__init__ cin cout dropout polling bn s0 = (Ok b, s1) ->
  forall x s,
    Sizes.rmap size (fst (_EncoderBlockV2.forward b x s))
    = Sizes.encoder (training s) (Arch.pool_of polling)
                    (Arch.double_conv_v2 cin cout cout bn) (size x).
Proof.
  intros E x s.
  destruct (@builds_EncoderBlockV2_dropout _ _ _ _ _ _ _ _ _ E)
    as (base & Eb & Es & Ep).
  rewrite (@sim_EncoderBlockV2 _ (training s) b x s eq_refl).
  rewrite <- encoder_strip, Ep, Eb, map_strip_dropout, Es.
  apply encoder_dropout.
Qed.

Lemma DecoderBlock_sizes cin cmid cout bn s0 b s1 :
  _DecoderBlock.__init__ cin cmid cout bn s0 = (Ok b, s1) ->
  forall x s,
    Sizes.rmap size (fst (_DecoderBlock.forward b x s))
    = Sizes.sequential (training s) (Arch.decoder cin cmid cout bn) (size x).
Proof.
  intros E x s.
  pose proof (@builds_DecoderBlock _ _ _ _ _ _ _ _ E) as Eb.
  apply (f_equal _DecoderBlock.decode) in Eb.
  cbn [strip_decoder _DecoderBlock.decode] in Eb.
  rewrite (@sim_DecoderBlock _ (training s) b x s eq_refl).
  rewrite <- sequential_strip, Eb. reflexivity.
Qed.

Lemma DecoderBlockV2_sizes cin cmid cout bn s0 b s1 :
  _DecoderBlockV2.__init__ cin cmid cout bn s0 = (Ok b, s1) ->
  forall x s,
    Sizes.rmap size (fst (_DecoderBlockV2.forward b x s))
    = Sizes.sequential (training s) (Arch.double_conv_v2 cin cmid cout bn)
                       (size x).
Proof.
  intros E x s.
  pose proof (@builds_DecoderBlockV2 _ _ _ _ _ _ _ _ E) as Eb.
  apply (f_equal _DecoderBlockV2.decode) in Eb.
  cbn [strip_decoder_v2 _DecoderBlockV2.decode] in Eb.
  rewrite (@sim_DecoderBlockV2 _ (training s) b x s eq_refl).
  rewrite <- sequential_strip, Eb. reflexivity.
Qed.

End BlockSizes.

(** Normalisation accepts every map with two values or more per
    channel, whatever the width under batch normalisation. *)
Lemma norm_fits_two tr (bn : bool) n c h w :
  1 <= n -> (bn = false -> 32 <= c) -> 2 <= h -> 2 <= w ->
  norm_fits tr bn n c h w.
Proof.
  intros Hn Hc Hh Hw. unfold norm_fits. destruct bn.
  - intros _. nia.
  - specialize (Hc eq_refl).
    assert (1 <= n * c / 32) by (apply Z.div_le_lower_bound; nia). nia.
Qed.

Lemma encoder_v2_inv_sides tr polling cin cout bn sz sz' :
  Sizes.encoder tr (Arch.pool_of polling)
                (Arch.double_conv_v2 cin cout cout bn) sz
  = Ok sz' ->
  (if polling then 4 else 2) <= height sz
  /\ (if polling then 4 else 2) <= width sz.
Proof.
  intros E. destruct polling; unfold Sizes.encoder, Arch.pool_of in E.
  - inv_step E. apply double_conv_v2_inv in E.
    cbn [batch channels height width] in E. split; dlia.
  - cbn [Sizes.rbind] in E. apply double_conv_v2_inv in E. tauto.
Qed.

(** X7.  [_EncoderBlock]: whatever a constructed block returns has
    [out_channels] channels, the batch size of the input and the input's
    spatial size - halved, rounding down, when the block was built with
    [polling]; it returns only on inputs with [in_channels] channels,
    and a block with [in_channels >= 1] and [out_channels >= 1] does
    return on every such input of batch size at least 1 whose sides are
    at least 2 after the pooling. *)
Theorem EncoderBlock_halves_or_keeps `{Backend}
  (cin cout : Z) (dropout polling bn : bool)
  (s0 : Store) (b : _EncoderBlock.t) (s1 : Store) (x : Tensor) (s : Store) :
  _EncoderBlock.__init__ cin cout dropout polling bn s0 = (Ok b, s1) ->
  (forall out s',
      _EncoderBlock.forward b x s = (Ok out, s') ->
      channels (size x) = cin
      /\ size out
         = if polling
           then mkSize (batch (size x)) cout
                       (height (size x) / 2) (width (size x) / 2)
           else mkSize (batch (size x)) cout
                       (height (size x)) (width (size x)))
  /\ (0 < cin -> 0 < cout ->
      1 <= batch (size x) -> channels (size x) = cin ->
      (bn = false -> 32 <= cout) ->
      (if polling then 4 else 2) <= height (size x) ->
      (if polling then 4 else 2) <= width (size x) ->
      exists out s', _EncoderBlock.forward b x s = (Ok out, s')).
Proof.
  intros E. pose proof (@EncoderBlock_sizes _ _ _ _ _ _ _ _ _ E x s) as Es. split.
  - intros out s' Eo. rewrite Eo in Es. cbn [fst Sizes.rmap] in Es.
    symmetry in Es. apply encoder_inv in Es. exact Es.
  - intros _ _ Hn Hc Hw32 Hh Hw.
    destruct (size x) as [n c h w] eqn:Ex;
      cbn [batch channels height width] in *.
    destruct polling.
    + rewrite encoder_pool_ok in Es
        by (try assumption; try lia; apply norm_fits_two; (assumption || dlia)).
      destruct (returns_of_sizes _ _ _ Es) as (out & s' & Eo & _).
      exists out, s'. exact Eo.
    + rewrite encoder_first_ok in Es
        by (try assumption; try lia; apply norm_fits_two; (assumption || dlia)).
      destruct (returns_of_sizes _ _ _ Es) as (out & s' & Eo & _).
      exists out, s'. exact Eo.
Qed.

Lemma EncoderBlock_halves_or_keeps_witness :
  exists b s1 out s',
    _EncoderBlock.__init__ 3 64 true true false (store0 true) = (Ok b, s1)
    /\ _EncoderBlock.forward b (input 2 3 9 13) s1 = (Ok out, s')
    /\ size out = mkSize 2 64 4 6.
Proof.
  destruct (_EncoderBlock.__init__ 3 64 true true false (store0 true))
    as [[b|e] s1] eqn:E; [|vm_compute in E; discriminate].
  destruct (@EncoderBlock_halves_or_keeps symbolic 3 64 true true false
              (store0 true) b s1 (input 2 3 9 13) s1 E) as (S & R).
  destruct R as (out & s' & Eo);
    [cbn [input size batch channels height width]; lia .. |].
  exists b, s1, out, s'. split; [reflexivity|]. split; [exact Eo|].
  exact (proj2 (S out s' Eo)).
Defined.

(** X8.  [_EncoderBlockV2] with [in_channels >= 1] and
    [out_channels >= 1] accepts an input of batch size at least 1
    exactly when it has [in_channels] channels and sides of at least 2
    after the pooling - 4 with [polling], 2 without: a reflection padding
    by 1 needs a side of 2.  The size it returns is that of
    [_EncoderBlock]. *)
Theorem EncoderBlockV2_needs_two_after_pooling `{Backend}
  (cin cout : Z) (dropout polling bn : bool)
  (s0 : Store) (b : _EncoderBlockV2.t) (s1 : Store) (x : Tensor) (s : Store) :
  _EncoderBlockV2.__init__ cin cout dropout polling bn s0 = (Ok b, s1) ->
  0 < cin -> 0 < cout ->
  1 <= batch (size x) -> (bn = false -> 32 <= cout) ->
  ((exists out s', _EncoderBlockV2.forward b x s = (Ok out, s'))
   <-> channels (size x) = cin
       /\ (if polling then 4 else 2) <= height (size x)
       /\ (if polling then 4 else 2) <= width (size x))
  /\ (forall out s',
         _EncoderBlockV2.forward b x s = (Ok out, s') ->
         size out
         = if polling
           then mkSize (batch (size x)) cout
                       (height (size x) / 2) (width (size x) / 2)
           else mkSize (batch (size x)) cout
                       (height (size x)) (width (size x))).
Proof.
  intros E _ _ Hn Hw32.
  pose proof (@EncoderBlockV2_sizes _ _ _ _ _ _ _ _ _ E x s) as Es.
  split; [split|].
  - intros (out & s' & Eo). rewrite Eo in Es. cbn [fst Sizes.rmap] in Es.
    symmetry in Es.
    destruct (@encoder_v2_inv _ _ _ _ _ _ _ Es) as (Hc & _).
    destruct (@encoder_v2_inv_sides _ _ _ _ _ _ _ Es) as (Hh & Hw). auto.
  - intros (Hc & Hh & Hw).
    destruct (size x) as [n c h w] eqn:Ex;
      cbn [batch channels height width] in *.
    destruct polling.
    + rewrite encoder_v2_pool_ok in Es
        by (try assumption; try lia; apply norm_fits_two; (assumption || dlia)).
      destruct (returns_of_sizes _ _ _ Es) as (out & s' & Eo & _).
      exists out, s'. exact Eo.
    + rewrite encoder_v2_first_ok in Es
        by (try assumption; try lia; apply norm_fits_two; (assumption || dlia)).
      destruct (returns_of_sizes _ _ _ Es) as (out & s' & Eo & _).
      exists out, s'. exact Eo.
  - intros out s' Eo. rewrite Eo in Es. cbn [fst Sizes.rmap] in Es.
    symmetry in Es. apply encoder_v2_inv in Es. exact (proj2 Es).
Qed.

Lemma EncoderBlockV2_needs_two_after_pooling_witness :
  exists b s1,
    _EncoderBlockV2.__init__ 3 64 false true false (store0 true) = (Ok b, s1)
    /\ (exists out s',
           _EncoderBlockV2.forward b (input 1 3 4 5) s1 = (Ok out, s')
           /\ size out = mkSize 1 64 2 2)
    /\ ~ exists out s',
           _EncoderBlockV2.forward b (input 1 3 3 5) s1 = (Ok out, s').
Proof.
  destruct (_EncoderBlockV2.__init__ 3 64 false true false (store0 true))
    as [[b|e] s1] eqn:E; [|vm_compute in E; discriminate].
  exists b, s1. split; [reflexivity|]. split.
  - destruct (@EncoderBlockV2_needs_two_after_pooling symbolic 3 64 false true
                false (store0 true) b s1 (input 1 3 4 5) s1 E
                ltac:(lia) ltac:(lia)
                ltac:(cbn [input size batch]; lia) ltac:(lia)) as ((_ & R) & S).
    destruct R as (out & s' & Eo);
      [cbn [input size batch channels height width]; lia|].
    exists out, s'. split; [exact Eo | exact (S out s' Eo)].
  - intros R.
    apply (proj1 (proj1 (@EncoderBlockV2_needs_two_after_pooling symbolic
                           3 64 false true false (store0 true) b s1
                           (input 1 3 3 5) s1 E
                           ltac:(lia) ltac:(lia)
                           ltac:(cbn [input size batch]; lia) ltac:(lia))))
      in R.
    cbn [input size batch channels height width] in R. lia.
Defined.

(** X9.  [_DecoderBlock] doubles: whatever a constructed block returns
    has [out_channels] channels and twice the height and width of the
    input - its last layer is a transposed convolution of stride 2 - and
    it returns only on inputs with [in_channels] channels.  A block with
    [in_channels], [middle_channels] and [out_channels] of at least 1
    does return on every such input of batch size at least 1 with sides
    of at least 2. *)
Theorem DecoderBlock_doubles `{Backend}
  (cin cmid cout : Z) (bn : bool)
  (s0 : Store) (b : _DecoderBlock.t) (s1 : Store) (x : Tensor) (s : Store) :
  _DecoderBlock.__init__ cin cmid cout bn s0 = (Ok b, s1) ->
  (forall out s',
      _DecoderBlock.forward b x s = (Ok out, s') ->
      channels (size x) = cin
      /\ size out = mkSize (batch (size x)) cout
                           (2 * height (size x)) (2 * width (size x)))
  /\ (0 < cin -> 0 < cmid -> 0 < cout ->
      1 <= batch (size x) -> channels (size x) = cin ->
      (bn = false -> 32 <= cmid) ->
      2 <= height (size x) -> 2 <= width (size x) ->
      exists out s', _DecoderBlock.forward b x s = (Ok out, s')).
Proof.
  intros E. pose proof (@DecoderBlock_sizes _ _ _ _ _ _ _ _ E x s) as Es. split.
  - intros out s' Eo. rewrite Eo in Es. cbn [fst Sizes.rmap] in Es.
    symmetry in Es. apply decoder_inv in Es. tauto.
  - intros _ _ _ Hn Hc Hw32 Hh Hw.
    destruct (size x) as [n c h w] eqn:Ex;
      cbn [batch channels height width] in *.
    rewrite decoder_ok in Es
      by (try assumption; try lia; apply norm_fits_two; assumption).
    destruct (returns_of_sizes _ _ _ Es) as (out & s' & Eo & _).
    exists out, s'. exact Eo.
Qed.

Lemma DecoderBlock_doubles_witness :
  exists b s1 out s',
    _DecoderBlock.__init__ 512 1024 512 true (store0 true) = (Ok b, s1)
    /\ _DecoderBlock.forward b (input 2 512 3 5) s1 = (Ok out, s')
    /\ size out = mkSize 2 512 6 10.
Proof.
  destruct (_DecoderBlock.__init__ 512 1024 512 true (store0 true))
    as [[b|e] s1] eqn:E; [|vm_compute in E; discriminate].
  destruct (@DecoderBlock_doubles symbolic 512 1024 512 true
              (store0 true) b s1 (input 2 512 3 5) s1 E) as (S & R).
  destruct R as (out & s' & Eo);
    [cbn [input size batch channels height width]; lia .. |].
  exists b, s1, out, s'. split; [reflexivity|]. split; [exact Eo|].
  exact (proj2 (S out s' Eo)).
Defined.

(** X10.  [_DecoderBlockV2] does not upsample: a block with
    [in_channels], [middle_channels] and [out_channels] of at least 1
    returns, on an input of batch size at least 1, a tensor of
    [out_channels] channels and of the input's own spatial size, exactly
    on the inputs with [in_channels] channels and sides of at least 2. *)
Theorem DecoderBlockV2_keeps_the_size `{Backend}
  (cin cmid cout : Z) (bn : bool)
  (s0 : Store) (b : _DecoderBlockV2.t) (s1 : Store) (x : Tensor) (s : Store) :
  _DecoderBlockV2.__init__ cin cmid cout bn s0 = (Ok b, s1) ->
  0 < cin -> 0 < cmid -> 0 < cout ->
  1 <= batch (size x) -> (bn = false -> 32 <= cmid /\ 32 <= cout) ->
  ((exists out s', _DecoderBlockV2.forward b x s = (Ok out, s'))
   <-> channels (size x) = cin
       /\ 2 <= height (size x) /\ 2 <= width (size x))
  /\ (forall out s',
         _DecoderBlockV2.forward b x s = (Ok out, s') ->
         size out = mkSize (batch (size x)) cout
                           (height (size x)) (width (size x))).
Proof.
  intros E _ _ _ Hn Hw32.
  pose proof (@DecoderBlockV2_sizes _ _ _ _ _ _ _ _ E x s) as Es.
  split; [split|].
  - intros (out & s' & Eo). rewrite Eo in Es. cbn [fst Sizes.rmap] in Es.
    symmetry in Es. apply double_conv_v2_inv in Es. tauto.
  - intros (Hc & Hh & Hw).
    destruct (size x) as [n c h w] eqn:Ex;
      cbn [batch channels height width] in *.
    rewrite double_conv_v2_ok in Es
      by (try assumption; apply norm_fits_two; try assumption;
          intros Hb; apply Hw32; exact Hb).
    destruct (returns_of_sizes _ _ _ Es) as (out & s' & Eo & _).
    exists out, s'. exact Eo.
  - intros out s' Eo. rewrite Eo in Es. cbn [fst Sizes.rmap] in Es.
    symmetry in Es. apply double_conv_v2_inv in Es. tauto.
Qed.

Lemma DecoderBlockV2_keeps_the_size_witness :
  exists b s1 out s',
    _DecoderBlockV2.__init__ 128 64 32 false (store0 true) = (Ok b, s1)
    /\ _DecoderBlockV2.forward b (input 1 128 7 2) s1 = (Ok out, s')
    /\ size out = mkSize 1 32 7 2.
Proof.
  destruct (_DecoderBlockV2.__init__ 128 64 32 false (store0 true))
    as [[b|e] s1] eqn:E; [|vm_compute in E; discriminate].
  destruct (@DecoderBlockV2_keeps_the_size symbolic 128 64 32 false
              (store0 true) b s1 (input 1 128 7 2) s1 E
              ltac:(lia) ltac:(lia) ltac:(lia)
              ltac:(cbn [input size batch]; lia) ltac:(lia)) as ((_ & R) & S).
  destruct R as (out & s' & Eo);
    [cbn [input size batch channels height width]; lia|].
  exists b, s1, out, s'. split; [reflexivity|]. split; [exact Eo|].
  exact (S out s' Eo).
Defined.

(** ** Dropout in the encoder blocks *)

Section DropoutLemmas.
Context `{Backend}.

Lemma forward_app ls1 ls2 :
  forall x s,
    Sequential.forward (ls1 ++ ls2) x s
    = (y <- Sequential.forward ls1 x ;; Sequential.forward ls2 y) s.
Proof.
  induction ls1 as [|l ls1 IH]; intros x s; cbn [app Sequential.forward].
  - reflexivity.
  - rewrite bind_assoc. apply bind_ext. intros y s1. apply IH.
Qed.

Lemma forward_dropout_last base x s :
  Sequential.forward (base ++ [LDropout]) x s
  = (y <- Sequential.forward base x ;; Dropout.forward y) s.
Proof.
  rewrite forward_app. apply bind_ext. intros y s1.
  cbn [Sequential.forward call]. apply bind_ret_r.
Qed.

(** In evaluation mode [Dropout] hands its input on. *)
Lemma bind_dropout_eval (m : M Tensor) s :
  quiet m -> training s = false ->
  (y <- m ;; Dropout.forward y) s = m s.
Proof.
  intros Q T. destruct (Q s) as (Tm & _ & _). rewrite T in Tm.
  unfold bind at 1. destruct (m s) as [[y|e] s1]; [|reflexivity].
  cbn [snd] in Tm. unfold Dropout.forward, bind, get. rewrite Tm. reflexivity.
Qed.

Lemma strip_base_no_dropout base ls :
  map strip base = ls -> ~ In LDropout ls -> ~ In LDropout base.
Proof.
  intros <- Hn Hi. apply Hn. apply in_map_iff. exists LDropout. auto.
Qed.

Lemma double_conv_no_dropout cin cout bn :
  ~ In LDropout (Arch.double_conv cin cout bn).
Proof.
  unfold Arch.double_conv, Arch.norm, Arch.conv, Arch.relu.
  destruct bn; cbn [In]; intros Hi;
    repeat (destruct Hi as [Hi|Hi]; [discriminate|]); exact Hi.
Qed.

Lemma double_conv_v2_no_dropout cin cmid cout bn :
  ~ In LDropout (Arch.double_conv_v2 cin cmid cout bn).
Proof.
  unfold Arch.double_conv_v2, Arch.norm, Arch.conv.
  destruct bn; cbn [In]; intros Hi;
    repeat (destruct Hi as [Hi|Hi]; [discriminate|]); exact Hi.
Qed.

End DropoutLemmas.

(** X11.  [dropout=True] appends one [Dropout] layer after the second
    activation of an encoder block: the block computes what its first
    six layers compute and then applies dropout, which in evaluation
    mode is what the block without dropout computes.  With
    [dropout=False] the block has six layers, none of them a dropout. *)
Theorem dropout_goes_last `{Backend} (cin cout : Z) (polling bn : bool) :
  (forall s0 b s1,
      _EncoderBlock.__init__ cin cout true polling bn s0 = (Ok b, s1) ->
      exists base,
        _EncoderBlock.encode b = base ++ [LDropout]
        /\ length base = 6%nat /\ ~ In LDropout base
        /\ (forall x s,
               _EncoderBlock.forward b x s
               = (y <- _EncoderBlock.forward
                         (_EncoderBlock.mk base (_EncoderBlock.pool b)) x ;;
                  Dropout.forward y) s)
        /\ (forall x s,
               training s = false ->
               _EncoderBlock.forward b x s
               = _EncoderBlock.forward
                   (_EncoderBlock.mk base (_EncoderBlock.pool b)) x s))
  /\ (forall s0 b s1,
         _EncoderBlockV2.__init__ cin cout true polling bn s0 = (Ok b, s1) ->
         exists base,
           _EncoderBlockV2.encode b = base ++ [LDropout]
           /\ length base = 6%nat /\ ~ In LDropout base
           /\ (forall x s,
                  _EncoderBlockV2.forward b x s
                  = (y <- _EncoderBlockV2.forward
                            (_EncoderBlockV2.mk base (_EncoderBlockV2.pool b)) x ;;
                     Dropout.forward y) s)
           /\ (forall x s,
                  training s = false ->
                  _EncoderBlockV2.forward b x s
                  = _EncoderBlockV2.forward
                      (_EncoderBlockV2.mk base (_EncoderBlockV2.pool b)) x s))
  /\ (forall s0 b s1,
         _EncoderBlock.__init__ cin cout false polling bn s0 = (Ok b, s1) ->
         length (_EncoderBlock.encode b) = 6%nat
         /\ ~ In LDropout (_EncoderBlock.encode b))
  /\ (forall s0 b s1,
         _EncoderBlockV2.__init__ cin cout false polling bn s0 = (Ok b, s1) ->
         length (_EncoderBlockV2.encode b) = 6%nat
         /\ ~ In LDropout (_EncoderBlockV2.encode b)).
Proof.
  split; [|split; [|split]].
  - intros s0 b s1 E.
    destruct (@builds_EncoderBlock_dropout _ _ _ _ _ _ _ _ _ E)
      as (base & Eb & Es & _).
    exists base. split; [exact Eb|].
    split; [rewrite <- (length_map strip), Es; reflexivity|].
    split; [exact (@strip_base_no_dropout _ _ Es (@double_conv_no_dropout _ _ _))|].
    assert (Hf : forall x s,
               _EncoderBlock.forward b x s
               = (y <- _EncoderBlock.forward
                         (_EncoderBlock.mk base (_EncoderBlock.pool b)) x ;;
                  Dropout.forward y) s).
    { intros x s. unfold _EncoderBlock.forward.
      cbn [_EncoderBlock.encode _EncoderBlock.pool].
      rewrite Eb, bind_assoc. apply bind_ext. intros y s2.
      apply forward_dropout_last. }
    split; [exact Hf|].
    intros x s T. rewrite Hf.
    apply bind_dropout_eval; [apply quiet_EncoderBlock | exact T].
  - intros s0 b s1 E.
    destruct (@builds_EncoderBlockV2_dropout _ _ _ _ _ _ _ _ _ E)
      as (base & Eb & Es & _).
    exists base. split; [exact Eb|].
    split; [rewrite <- (length_map strip), Es; reflexivity|].
    split; [exact (@strip_base_no_dropout _ _ Es (@double_conv_v2_no_dropout _ _ _ _))|].
    assert (Hf : forall x s,
               _EncoderBlockV2.forward b x s
               = (y <- _EncoderBlockV2.forward
                         (_EncoderBlockV2.mk base (_EncoderBlockV2.pool b)) x ;;
                  Dropout.forward y) s).
    { intros x s. unfold _EncoderBlockV2.forward.
      cbn [_EncoderBlockV2.encode _EncoderBlockV2.pool].
      rewrite Eb, bind_assoc. apply bind_ext. intros y s2.
      apply forward_dropout_last. }
    split; [exact Hf|].
    intros x s T. rewrite Hf.
    apply bind_dropout_eval; [apply quiet_EncoderBlockV2 | exact T].
  - intros s0 b s1 E.
    destruct (@builds_EncoderBlock_dropout _ _ _ _ _ _ _ _ _ E)
      as (base & Eb & Es & _).
    rewrite app_nil_r in Eb. rewrite Eb.
    split; [rewrite <- (length_map strip), Es; reflexivity|].
    exact (@strip_base_no_dropout _ _ Es (@double_conv_no_dropout _ _ _)).
  - intros s0 b s1 E.
    destruct (@builds_EncoderBlockV2_dropout _ _ _ _ _ _ _ _ _ E)
      as (base & Eb & Es & _).
    rewrite app_nil_r in Eb. rewrite Eb.
    split; [rewrite <- (length_map strip), Es; reflexivity|].
    exact (@strip_base_no_dropout _ _ Es (@double_conv_v2_no_dropout _ _ _ _)).
Qed.

Lemma dropout_goes_last_witness :
  exists b s1 base,
    _EncoderBlockV2.__init__ 3 32 true true false (store0 false) = (Ok b, s1)
    /\ _EncoderBlockV2.encode b = base ++ [LDropout]
    /\ length base = 6%nat.
Proof.
  destruct (_EncoderBlockV2.__init__ 3 32 true true false (store0 false))
    as [[b|e] s1] eqn:E; [|vm_compute in E; discriminate E].
  destruct (proj1 (proj2 (@dropout_goes_last symbolic 3 32 true false))
              (store0 false) b s1 E) as (base & Eb & L & _).
  exists b, s1, base. split; [reflexivity|]. split; [exact Eb | exact L].
Defined.

(** ** Constructing the blocks *)

Section ConstructorErrors.
Context `{Backend}.

Lemma raises_after {A B} (m : M A) (k : A -> M B) e s :
  total m -> (forall a s', fst (k a s') = Err e) -> fst (bind m k s) = Err e.
Proof.
  intros Hm Hk. destruct (Hm s) as (a & s' & E).
  rewrite (bind_ok _ _ _ E). apply Hk.
Qed.

Lemma raises_now {A B} (m : M A) (k : A -> M B) e s :
  fst (m s) = Err e -> fst (bind m k s) = Err e.
Proof.
  unfold bind. destruct (m s) as [[a|e'] s']; cbn [fst]; intros E.
  - discriminate.
  - inversion E; reflexivity.
Qed.

Lemma GroupNorm_not_divisible c s :
  c mod 32 <> 0 -> fst (nn.GroupNorm 32 c s) = Err NotDivisible.
Proof.
  intros Hc. unfold nn.GroupNorm, GroupNorm.__init__, bind.
  destruct (Z.eqb_spec (c mod 32) 0); [contradiction | reflexivity].
Qed.

Lemma total_BatchNorm2d c : 0 <= c -> total (nn.BatchNorm2d c).
Proof.
  intros Hc s. unfold nn.BatchNorm2d, BatchNorm2d.__init__, bind.
  destruct (Z.ltb_spec c 0); [lia|]. cbn. eexists _, _; reflexivity.
Qed.

Lemma total_GroupNorm c : 0 <= c -> c mod 32 = 0 -> total (nn.GroupNorm 32 c).
Proof. intros Hc Hm. exact (@total_norm _ false c Hc Hm). Qed.

Lemma total_dropout (dropout : bool) (ls : list Layer) :
  total (if dropout then d <- nn.Dropout ;; ret (ls ++ [d]) else ret ls).
Proof. intros s; destruct dropout; eexists _, _; reflexivity. Qed.

End ConstructorErrors.

Ltac construct_steps :=
  repeat first
    [ apply total_Conv2d; lia
    | apply total_ConvTranspose2d; lia
    | apply total_BatchNorm2d; lia
    | apply total_GroupNorm; [lia | assumption]
    | apply total_dropout
    | solve [auto with construct]
    | apply total_bind; [ | intros ? ] ].

Ltac raise_steps :=
  repeat first
    [ apply raises_now; apply GroupNorm_not_divisible; assumption
    | apply raises_after;
      [ first [ apply total_Conv2d; lia
              | apply total_GroupNorm; [lia | assumption]
              | solve [auto with construct] ]
      | intros ? ? ] ].

(** X12.  With group normalisation a block constructor returns exactly
    when 32 divides the widths it normalises - [out_channels] for the
    encoder blocks, [middle_channels] for [_DecoderBlock],
    [middle_channels] and [out_channels] for [_DecoderBlockV2] - and
    otherwise raises the divisibility error of [nn.GroupNorm]; with batch
    normalisation it returns for all positive widths. *)
Theorem group_norm_blocks_need_multiples_of_32 `{Backend}
  (cin cmid cout : Z) (dropout polling : bool) (s0 : Store) :
  1 <= cin -> 1 <= cmid -> 1 <= cout ->
  (((exists b s1, _EncoderBlock.__init__ cin cout dropout polling false s0
                  = (Ok b, s1))
    <-> cout mod 32 = 0)
   /\ ((exists b s1, _EncoderBlockV2.__init__ cin cout dropout polling false s0
                     = (Ok b, s1))
       <-> cout mod 32 = 0)
   /\ ((exists b s1, _DecoderBlock.__init__ cin cmid cout false s0 = (Ok b, s1))
       <-> cmid mod 32 = 0)
   /\ ((exists b s1, _DecoderBlockV2.__init__ cin cmid cout false s0
                     = (Ok b, s1))
       <-> cmid mod 32 = 0 /\ cout mod 32 = 0))
  /\ (cout mod 32 <> 0 ->
      fst (_EncoderBlock.__init__ cin cout dropout polling false s0)
      = Err NotDivisible
      /\ fst (_EncoderBlockV2.__init__ cin cout dropout polling false s0)
         = Err NotDivisible)
  /\ (cmid mod 32 <> 0 ->
      fst (_DecoderBlock.__init__ cin cmid cout false s0) = Err NotDivisible
      /\ fst (_DecoderBlockV2.__init__ cin cmid cout false s0)
         = Err NotDivisible)
  /\ (cmid mod 32 = 0 -> cout mod 32 <> 0 ->
      fst (_DecoderBlockV2.__init__ cin cmid cout false s0) = Err NotDivisible)
  /\ (exists b s1, _EncoderBlock.__init__ cin cout dropout polling true s0
                   = (Ok b, s1))
  /\ (exists b s1, _EncoderBlockV2.__init__ cin cout dropout polling true s0
                   = (Ok b, s1))
  /\ (exists b s1, _DecoderBlock.__init__ cin cmid cout true s0 = (Ok b, s1))
  /\ (exists b s1, _DecoderBlockV2.__init__ cin cmid cout true s0 = (Ok b, s1)).
Proof.
  intros Hi Hm Ho.
  assert (R1 : cout mod 32 <> 0 ->
               fst (_EncoderBlock.__init__ cin cout dropout polling false s0)
               = Err NotDivisible).
  { intros Hd. unfold _EncoderBlock.__init__. cbn zeta. raise_steps. }
  assert (R2 : cout mod 32 <> 0 ->
               fst (_EncoderBlockV2.__init__ cin cout dropout polling false s0)
               = Err NotDivisible).
  { intros Hd. unfold _EncoderBlockV2.__init__. cbn zeta. raise_steps. }
  assert (R3 : cmid mod 32 <> 0 ->
               fst (_DecoderBlock.__init__ cin cmid cout false s0)
               = Err NotDivisible).
  { intros Hd. unfold _DecoderBlock.__init__. raise_steps. }
  assert (R4 : cmid mod 32 <> 0 ->
               fst (_DecoderBlockV2.__init__ cin cmid cout false s0)
               = Err NotDivisible).
  { intros Hd. unfold _DecoderBlockV2.__init__. raise_steps. }
  assert (R5 : cmid mod 32 = 0 -> cout mod 32 <> 0 ->
               fst (_DecoderBlockV2.__init__ cin cmid cout false s0)
               = Err NotDivisible).
  { intros Hd Hd'. unfold _DecoderBlockV2.__init__, nn.GELU. raise_steps. }
  assert (T1 : forall bn, (bn = false -> cout mod 32 = 0) ->
               total (_EncoderBlock.__init__ cin cout dropout polling bn)).
  { intros [|] Hd; [|specialize (Hd eq_refl)];
      unfold _EncoderBlock.__init__, nn.ReLU; cbn zeta; construct_steps. }
  assert (T2 : forall bn, (bn = false -> cout mod 32 = 0) ->
               total (_EncoderBlockV2.__init__ cin cout dropout polling bn)).
  { intros [|] Hd; [|specialize (Hd eq_refl)];
      unfold _EncoderBlockV2.__init__, nn.GELU; cbn zeta; construct_steps. }
  assert (T3 : forall bn, (bn = false -> cmid mod 32 = 0) ->
               total (_DecoderBlock.__init__ cin cmid cout bn)).
  { intros [|] Hd; [|specialize (Hd eq_refl)];
      unfold _DecoderBlock.__init__, nn.ReLU; construct_steps. }
  assert (T4 : forall bn, (bn = false -> cmid mod 32 = 0 /\ cout mod 32 = 0) ->
               total (_DecoderBlockV2.__init__ cin cmid cout bn)).
  { intros [|] Hd; [|destruct (Hd eq_refl)];
      unfold _DecoderBlockV2.__init__, nn.GELU; construct_steps. }
  assert (N : forall {A} (m : M A) e,
             fst (m s0) = Err e -> ~ exists a s1, m s0 = (Ok a, s1)).
  { intros A m e Ee (a & s1 & Ea). rewrite Ea in Ee. discriminate. }
  split; [split; [|split; [|split]]|].
  - split; [intros Hx | intros Hd; apply T1; auto].
    destruct (Z.eq_dec (cout mod 32) 0) as [|Hd]; [assumption|].
    exfalso. exact (N _ _ _ (R1 Hd) Hx).
  - split; [intros Hx | intros Hd; apply T2; auto].
    destruct (Z.eq_dec (cout mod 32) 0) as [|Hd]; [assumption|].
    exfalso. exact (N _ _ _ (R2 Hd) Hx).
  - split; [intros Hx | intros Hd; apply T3; auto].
    destruct (Z.eq_dec (cmid mod 32) 0) as [|Hd]; [assumption|].
    exfalso. exact (N _ _ _ (R3 Hd) Hx).
  - split; [intros Hx | intros Hd; apply T4; auto].
    destruct (Z.eq_dec (cmid mod 32) 0) as [Hd|Hd];
      [|exfalso; exact (N _ _ _ (R4 Hd) Hx)].
    destruct (Z.eq_dec (cout mod 32) 0) as [Hd'|Hd']; [auto|].
    exfalso. exact (N _ _ _ (R5 Hd Hd') Hx).
  - split; [intros Hd; split; [apply R1 | apply R2]; assumption|].
    split; [intros Hd; split; [apply R3 | apply R4]; assumption|].
    split; [exact R5|].
    split; [apply T1; discriminate|].
    split; [apply T2; discriminate|].
    split; [apply T3; discriminate | apply T4; discriminate].
Qed.

Lemma group_norm_blocks_need_multiples_of_32_witness :
  fst (_DecoderBlockV2.__init__ 64 32 16 false (store0 true))
  = Err NotDivisible
  /\ exists b s1, _DecoderBlock.__init__ 64 32 16 false (store0 true)
                  = (Ok b, s1).
Proof.
  destruct (@group_norm_blocks_need_multiples_of_32 symbolic 64 32 16
              false true (store0 true) ltac:(lia) ltac:(lia) ltac:(lia))
    as ((_ & _ & (_ & D1) & _) & _ & _ & R & _).
  split.
  - apply R; [reflexivity | discriminate].
  - apply D1. reflexivity.
Defined.

(** ** The flag and the heads of [UNetV2] *)

Lemma strip_set_multi_scale b net :
  strip_unet_v2 (set_multi_scale b net) = set_multi_scale b (strip_unet_v2 net).
Proof. reflexivity. Qed.

(** The main path runs to its end before the missing head is looked up. *)
Lemma unet_v2_without_heads tr num_classes in_channels bn factors n c h w :
  1 <= n -> c = in_channels -> 1 <= factors -> 32 <= h -> 32 <= w ->
  Sizes.unet_v2 tr
    (set_multi_scale true (Arch.unet_v2 num_classes in_channels bn factors false))
    (mkSize n c h w)
  = Err AttributeError.
Proof.
  intros Hn Hc Hf Hh Hw.
  unfold set_multi_scale. unet_v2_unfold. net_ok. reflexivity.
Qed.

Section Flag.
Context `{Backend}.

Lemma Conv2d_keeps_store m x s : snd (Conv2d.forward m x s) = s.
Proof.
  unfold Conv2d.forward, bind, get, ret, raise.
  destruct (Conv2d.padding_mode m); cbn;
    repeat (match goal with |- context [if ?b then _ else _] => destruct b end;
            cbn; try reflexivity).
Qed.

Lemma strip_conv_inv l cin cout k p mode :
  strip l = Arch.conv cin cout k p mode -> exists m, l = LConv2d m.
Proof.
  destruct l as [m| | | | | | | |]; cbn; intros E; try discriminate.
  exists m. reflexivity.
Qed.

Lemma head_keeps_store l cin cout k p mode x s y s' :
  strip l = Arch.conv cin cout k p mode ->
  call l x s = (Ok y, s') -> s' = s.
Proof.
  intros El E. destruct (strip_conv_inv _ El) as (m & ->). cbn [call] in E.
  pose proof (Conv2d_keeps_store m x s) as K. rewrite E in K. exact K.
Qed.

Lemma attr_keeps_store a l t t' : UNetV2.attr a t = (Ok l, t') -> t' = t.
Proof. destruct a; cbn; intros E; inversion E; reflexivity. Qed.

End Flag.

(** X13.  [UNetV2.forward] consults the flag [self.multi_scale], not the
    presence of the heads: a network built without heads - with
    [num_classes >= 1], [in_channels >= 1] and [factors >= 1] - whose
    flag is then set raises [AttributeError] on every input the network
    accepts, once the whole main path has run. *)
Theorem multi_scale_flag_without_heads `{Backend}
  (num_classes in_channels : Z) (bn : bool) (factors : Z)
  (s0 : Store) (net : UNetV2.t) (s1 : Store) (x : Tensor) (s : Store) :
  UNetV2.__init__ num_classes in_channels bn factors false s0 = (Ok net, s1) ->
  0 < num_classes -> 0 < in_channels ->
  1 <= factors -> 1 <= batch (size x) -> channels (size x) = in_channels ->
  32 <= height (size x) -> 32 <= width (size x) ->
  UNetV2.conv_8 net = None
  /\ fst (UNetV2.forward (set_multi_scale true net) x s) = Err AttributeError.
Proof.
  intros E _ _ Hf Hn Hc Hh Hw.
  pose proof (@builds_UNetV2 _ _ _ _ _ _ _ _ _ E) as HA. cbv beta in HA.
  split.
  - pose proof (f_equal UNetV2.conv_8 HA) as P8.
    cbn [strip_unet_v2 Arch.unet_v2 UNetV2.conv_8 Arch.head] in P8.
    destruct (UNetV2.conv_8 net); [discriminate | reflexivity].
  - apply raises_of_sizes with (f := Sizes.omap size).
    rewrite (@sim_UNetV2 _ (training s) (set_multi_scale true net) x s eq_refl).
    rewrite <- unet_v2_strip, strip_set_multi_scale, HA.
    destruct (size x) as [n c h w]; cbn [batch channels height width] in *.
    apply unet_v2_without_heads; assumption.
Qed.

Lemma multi_scale_flag_without_heads_witness :
  exists net s1,
    UNetV2.__init__ 1 1 false 2 false (store0 true) = (Ok net, s1)
    /\ fst (UNetV2.forward (set_multi_scale true net) (input 1 1 200 200) s1)
       = Err AttributeError.
Proof.
  destruct (@total_UNetV2 symbolic 1 1 false 2 false
              ltac:(lia) ltac:(lia) ltac:(lia) (store0 true))
    as (net & s1 & E).
  exists net, s1. split; [exact E|].
  apply (@multi_scale_flag_without_heads symbolic 1 1 false 2
           (store0 true) net s1 (input 1 1 200 200) s1 E);
    cbn [input size batch channels height width]; lia.
Defined.

(** X14.  Clearing the flag of a [UNetV2] built with [multi_scale]: the
    forward pass returns the one tensor [final] - the tensor that the
    multi-scale pass returns last - and leaves the same store. *)
Theorem multi_scale_flag_off_returns_final `{Backend}
  (num_classes in_channels : Z) (bn : bool) (factors : Z)
  (s0 : Store) (net : UNetV2.t) (s1 : Store) (x : Tensor) (s : Store)
  (out : Output Tensor) (s' : Store) :
  UNetV2.__init__ num_classes in_channels bn factors true s0 = (Ok net, s1) ->
  UNetV2.forward net x s = (Ok out, s') ->
  exists out_8 out_4 out_2 final,
    out = OTuple [out_8; out_4; out_2; final]
    /\ UNetV2.forward (set_multi_scale false net) x s = (Ok (OTensor final), s').
Proof.
  intros E Eo.
  pose proof (@builds_UNetV2 _ _ _ _ _ _ _ _ _ E) as HA. cbv beta in HA.
  assert (Hms : UNetV2.multi_scale net = true).
  { change (UNetV2.multi_scale (strip_unet_v2 net) = true).
    rewrite HA. reflexivity. }
  pose proof (f_equal UNetV2.conv_8 HA) as P8.
  pose proof (f_equal UNetV2.conv_4 HA) as P4.
  pose proof (f_equal UNetV2.conv_2 HA) as P2.
  cbn [strip_unet_v2 Arch.unet_v2 UNetV2.conv_8 UNetV2.conv_4 UNetV2.conv_2
       Arch.head] in P8, P4, P2.
  clear HA.
  unfold UNetV2.forward in *.
  cbn [set_multi_scale UNetV2.multi_scale UNetV2.enc1 UNetV2.enc2 UNetV2.enc3
       UNetV2.enc4 UNetV2.polling UNetV2.center UNetV2.dec4 UNetV2.dec3
       UNetV2.dec2 UNetV2.dec1 UNetV2.final].
  rewrite Hms in Eo.
  do 19 (let a := fresh "a" in let t := fresh "t" in let Ea := fresh "Ea" in
         binv Eo a t Ea; rewrite (bind_ok _ _ _ Ea)).
  binv Eo conv_8 u1 A8. binv Eo out_8 u2 C8.
  binv Eo conv_4 u3 A4. binv Eo out_4 u4 C4.
  binv Eo conv_2 u5 A2. binv Eo out_2 u6 C2.
  inversion Eo; subst out s'; clear Eo.
  pose proof (attr_keeps_store _ _ A8). pose proof (attr_keeps_store _ _ A4).
  pose proof (attr_keeps_store _ _ A2).
  apply attr_inv in A8, A4, A2. rewrite A8 in P8. rewrite A4 in P4.
  rewrite A2 in P2. cbn [option_map] in P8, P4, P2.
  inversion P8 as [Q8]. inversion P4 as [Q4]. inversion P2 as [Q2].
  pose proof (head_keeps_store _ _ _ Q8 C8).
  pose proof (head_keeps_store _ _ _ Q4 C4).
  pose proof (head_keeps_store _ _ _ Q2 C2).
  subst. eexists _, _, _, _. split; reflexivity.
Qed.

Lemma multi_scale_flag_off_returns_final_witness :
  exists net s1 out_8 out_4 out_2 final s',
    UNetV2.__init__ 1 1 false 2 true (store0 true) = (Ok net, s1)
    /\ UNetV2.forward net (input 1 1 200 200) s1
       = (Ok (OTuple [out_8; out_4; out_2; final]), s')
    /\ UNetV2.forward (set_multi_scale false net) (input 1 1 200 200) s1
       = (Ok (OTensor final), s').
Proof.
  destruct (@total_UNetV2 symbolic 1 1 false 2 true
              ltac:(lia) ltac:(lia) ltac:(lia) (store0 true))
    as (net & s1 & E).
  destruct (UNetV2_returns (input 1 1 200 200) s1 E)
    as (out & s' & Eo & _);
    [cbn [input size batch channels height width]; lia .. |].
  destruct (@multi_scale_flag_off_returns_final symbolic 1 1 false 2
              (store0 true) net s1 (input 1 1 200 200) s1 out s' E Eo)
    as (o8 & o4 & o2 & fin & Eout & Ef).
  exists net, s1, o8, o4, o2, fin, s'.
  split; [exact E|]. split; [rewrite <- Eout; exact Eo | exact Ef].
Defined.

(** ** Networks that keep no state *)

Section Pure.
Context `{Backend}.

Lemma pure_ret {A} (a : A) : pure (ret a).
Proof. intros s; split; [reflexivity | intros s' _; reflexivity]. Qed.

Lemma pure_raise {A} e : pure (@raise _ A e).
Proof. intros s; split; [reflexivity | intros s' _; reflexivity]. Qed.

Lemma pure_bind {A B} (m : M A) (k : A -> M B) :
  pure m -> (forall a, pure (k a)) -> pure (bind m k).
Proof.
  intros Hm Hk s. destruct (Hm s) as (Sm & Fm). split.
  - unfold bind. destruct (m s) as [[a|e] s1]; cbn [snd] in *; subst s1.
    + apply (Hk a s).
    + reflexivity.
  - intros s' Hp. specialize (Fm s' Hp).
    destruct (Hm s') as (Sm' & _). unfold bind.
    destruct (m s) as [r s1], (m s') as [r' s1']; cbn [fst snd] in *; subst.
    destruct r as [a|e]; [|reflexivity].
    apply (Hk a s). exact Hp.
Qed.

Lemma pure_if {A} (b : bool) (m1 m2 : M A) :
  pure m1 -> pure m2 -> pure (if b then m1 else m2).
Proof. destruct b; auto. Qed.

Lemma pure_Conv2d m x : pure (Conv2d.forward m x).
Proof.
  intros s. split; [apply Conv2d_keeps_store|]. intros s' Hp.
  unfold Conv2d.forward, bind, get, ret, raise.
  destruct (Conv2d.padding_mode m); cbn;
    repeat (match goal with |- context [if ?b then _ else _] => destruct b end;
            cbn; try reflexivity);
    rewrite !Hp; reflexivity.
Qed.

Lemma pure_ConvTranspose2d m x : pure (ConvTranspose2d.forward m x).
Proof.
  intros s. unfold ConvTranspose2d.forward, bind, get, ret, raise.
  destruct (negb _); cbn; (split; [reflexivity|]); intros s' Hp;
    [reflexivity|]. rewrite !Hp; reflexivity.
Qed.

Lemma pure_GroupNorm m x : pure (GroupNorm.forward m x).
Proof.
  intros s. unfold GroupNorm.forward, bind, get, ret, raise.
  destruct (_ =? 1); [split; [reflexivity | intros; reflexivity]|].
  destruct (negb _); cbn; (split; [reflexivity|]); intros s' Hp;
    [reflexivity|]. rewrite !Hp; reflexivity.
Qed.

Lemma pure_call l x : stateless l = true -> pure (call l x).
Proof.
  destruct l; cbn [call stateless]; intros Hs; try discriminate.
  - apply pure_Conv2d.
  - apply pure_ConvTranspose2d.
  - apply pure_GroupNorm.
  - apply pure_ret.
  - apply pure_ret.
  - unfold MaxPool2d.forward. apply pure_if; [apply pure_raise | apply pure_ret].
  - unfold AvgPool2d.forward. apply pure_if; [apply pure_raise | apply pure_ret].
Qed.

Lemma pure_Sequential ls :
  forallb stateless ls = true -> forall x, pure (Sequential.forward ls x).
Proof.
  induction ls as [|l ls IH]; cbn [forallb Sequential.forward]; intros Hs x.
  - apply pure_ret.
  - apply andb_prop in Hs. destruct Hs as (Hl & Hls).
    apply pure_bind; [apply pure_call; exact Hl | intros y; apply IH; exact Hls].
Qed.

Lemma pure_interpolate x target ac : pure (F.interpolate x target ac).
Proof.
  unfold F.interpolate. apply pure_if; [apply pure_raise | apply pure_ret].
Qed.

Lemma pure_cat ts : pure (torch.cat ts).
Proof.
  destruct ts as [|t ts]; cbn [torch.cat]; [apply pure_raise|].
  revert t. induction ts as [|t' ts IH]; intros t; cbn [torch.cat_onto].
  - apply pure_ret.
  - apply pure_if; [apply IH | apply pure_raise].
Qed.

Lemma pure_attr a : pure (UNetV2.attr a).
Proof. destruct a; [apply pure_ret | apply pure_raise]. Qed.

Lemma pure_EncoderBlock b x :
  forallb stateless (_EncoderBlock.layers b) = true ->
  pure (_EncoderBlock.forward b x).
Proof.
  unfold _EncoderBlock.layers, Sequential.layers, _EncoderBlock.forward.
  rewrite forallb_app. intros Hs. apply andb_prop in Hs. destruct Hs as (He & Hp).
  apply pure_bind.
  - destruct (_EncoderBlock.pool b); [|apply pure_ret].
    cbn [forallb] in Hp. apply andb_prop in Hp. apply pure_call. tauto.
  - intros y. apply pure_Sequential. exact He.
Qed.

Lemma pure_EncoderBlockV2 b x :
  forallb stateless (_EncoderBlockV2.layers b) = true ->
  pure (_EncoderBlockV2.forward b x).
Proof.
  unfold _EncoderBlockV2.layers, Sequential.layers, _EncoderBlockV2.forward.
  rewrite forallb_app. intros Hs. apply andb_prop in Hs. destruct Hs as (He & Hp).
  apply pure_bind.
  - destruct (_EncoderBlockV2.pool b); [|apply pure_ret].
    cbn [forallb] in Hp. apply andb_prop in Hp. apply pure_call. tauto.
  - intros y. apply pure_Sequential. exact He.
Qed.

Lemma pure_bind_ret {A B} (a : A) (k : A -> M B) :
  pure (k a) -> pure (bind (ret a) k).
Proof. intros Hk s. exact (Hk s). Qed.

Lemma pure_bind_raise {A B} e (k : A -> M B) : pure (bind (raise e) k).
Proof. intros s; split; [reflexivity | intros s' _; reflexivity]. Qed.

End Pure.

Ltac pure_base :=
  solve [auto using pure_ret, pure_raise, pure_call, pure_Sequential,
           pure_interpolate, pure_cat, pure_EncoderBlock, pure_EncoderBlockV2].

Ltac split_layers Hs :=
  rewrite ?forallb_app in Hs; cbn [forallb] in Hs; rewrite ?andb_true_r in Hs;
  repeat match goal with
         | H : _ && _ = true |- _ => apply andb_prop in H; destruct H
         end.

Ltac pure_steps :=
  repeat first
    [ pure_base
    | apply pure_bind_raise
    | apply pure_bind_ret; cbv beta
    | apply pure_bind; [ pure_base | intros ? ]
    | apply pure_if ].

Section PureNetworks.
Context `{Backend}.

Lemma pure_UNet net x :
  forallb stateless (UNet.layers net) = true -> pure (UNet.forward net x).
Proof.
  intros Hs.
  unfold UNet.layers, _DecoderBlock.layers, Sequential.layers in Hs.
  split_layers Hs.
  unfold UNet.forward, _DecoderBlock.forward. pure_steps.
Qed.

Lemma pure_UNetV2 net x :
  forallb stateless (UNetV2.layers net) = true -> pure (UNetV2.forward net x).
Proof.
  intros Hs.
  unfold UNetV2.layers, _DecoderBlockV2.layers, Sequential.layers in Hs.
  unfold UNetV2.forward, _DecoderBlockV2.forward.
  destruct (UNetV2.conv_8 net) as [c8|], (UNetV2.conv_4 net) as [c4|],
    (UNetV2.conv_2 net) as [c2|]; cbn [UNetV2.head] in Hs;
    unfold UNetV2.attr; cbv iota;
    split_layers Hs; pure_steps.
Qed.

End PureNetworks.

Lemma stateless_strip ls :
  forallb stateless (map strip ls) = forallb stateless ls.
Proof.
  induction ls as [|l ls IH]; [reflexivity|]. cbn [map forallb]. rewrite IH.
  destruct l as [[]|[]|[]|[]| | | | |]; reflexivity.
Qed.

(** ** The [__main__] block *)

Section Main.
Context `{Backend}.

(** No layer of a network constructed with group normalisation keeps
    state. *)
Lemma UNetV2_group_norm_stateless num_classes in_channels factors multi_scale
  s0 net s1 :
  UNetV2.__init__ num_classes in_channels false factors multi_scale s0
  = (Ok net, s1) ->
  forallb stateless (UNetV2.layers net) = true.
Proof.
  intros E. rewrite <- stateless_strip, <- UNetV2_layers_strip.
  rewrite (@builds_UNetV2 _ _ _ _ _ _ _ _ _ E).
  destruct multi_scale; reflexivity.
Qed.

End Main.

(** A step [E : m s = (Ok a, t)] of a computation that keeps no state
    left the store as it was. *)
Ltac kept E :=
  match type of E with
  | ?m ?s = (Ok _, ?t) =>
      let P := fresh "P" in
      assert (P : pure m) by (unfold _DecoderBlockV2.forward; pure_steps);
      let K := fresh "K" in
      pose proof (proj1 (P s)) as K; rewrite E in K; cbn [snd] in K;
      subst t; clear P
  end.

(** C5.  The [__main__] scenario, step by step.  From every store the
    constructor returns a [model]; [torch.randn] draws an [x] of size
    [(1, 1, 200, 200)]; what [__main__] computes is
    [UNetV2.forward model x], and that pass returns.  Each line of
    [forward] returns, in the order of the source and leaving the store
    as it was: the four encoder blocks, the average pooling, the centre,
    and for each level the resampling to the encoder map, the
    concatenation and the decoder block.  The result is the tuple of the
    three heads applied to the [dec4], [dec3] and [dec2] of this pass
    and of [final]: four tensors of batch size 1 with one channel, the
    first three of the spatial sizes of the maps they are computed from,
    25x25, 50x50 and 100x100, the fourth 200x200. *)
Theorem main_returns_four_sizes `{Backend} (s : Store) :
  exists model s1 x s2 out,
    UNetV2.__init__ 1 1 false 2 true s = (Ok model, s1)
    /\ torch.randn 1 1 200 200 s1 = (Ok x, s2)
    /\ size x = mkSize 1 1 200 200
    /\ UNetV2.forward model x s2 = (Ok out, s2)
    /\ main s = (Ok out, s2)
    /\ exists enc1 enc2 enc3 enc4 pooled center up4 fused4 dec4
              up3 fused3 dec3 up2 fused2 dec2 up1 fused1 dec1 final
              conv_8 conv_4 conv_2 out_8 out_4 out_2,
        _EncoderBlockV2.forward (UNetV2.enc1 model) x s2 = (Ok enc1, s2)
        /\ _EncoderBlockV2.forward (UNetV2.enc2 model) enc1 s2 = (Ok enc2, s2)
        /\ _EncoderBlockV2.forward (UNetV2.enc3 model) enc2 s2 = (Ok enc3, s2)
        /\ _EncoderBlockV2.forward (UNetV2.enc4 model) enc3 s2 = (Ok enc4, s2)
        /\ call (UNetV2.polling model) enc4 s2 = (Ok pooled, s2)
        /\ _DecoderBlockV2.forward (UNetV2.center model) pooled s2
           = (Ok center, s2)
        /\ F.interpolate center (spatial enc4) false s2 = (Ok up4, s2)
        /\ torch.cat [up4; enc4] s2 = (Ok fused4, s2)
        /\ _DecoderBlockV2.forward (UNetV2.dec4 model) fused4 s2 = (Ok dec4, s2)
        /\ F.interpolate dec4 (spatial enc3) false s2 = (Ok up3, s2)
        /\ torch.cat [up3; enc3] s2 = (Ok fused3, s2)
        /\ _DecoderBlockV2.forward (UNetV2.dec3 model) fused3 s2 = (Ok dec3, s2)
        /\ F.interpolate dec3 (spatial enc2) false s2 = (Ok up2, s2)
        /\ torch.cat [up2; enc2] s2 = (Ok fused2, s2)
        /\ _DecoderBlockV2.forward (UNetV2.dec2 model) fused2 s2 = (Ok dec2, s2)
        /\ F.interpolate dec2 (spatial enc1) false s2 = (Ok up1, s2)
        /\ torch.cat [up1; enc1] s2 = (Ok fused1, s2)
        /\ Sequential.forward (UNetV2.dec1 model) fused1 s2 = (Ok dec1, s2)
        /\ call (UNetV2.final model) dec1 s2 = (Ok final, s2)
        /\ UNetV2.multi_scale model = true
        /\ UNetV2.conv_8 model = Some conv_8
        /\ call conv_8 dec4 s2 = (Ok out_8, s2)
        /\ UNetV2.conv_4 model = Some conv_4
        /\ call conv_4 dec3 s2 = (Ok out_4, s2)
        /\ UNetV2.conv_2 model = Some conv_2
        /\ call conv_2 dec2 s2 = (Ok out_2, s2)
        /\ out = OTuple [out_8; out_4; out_2; final]
        /\ spatial dec4 = (25, 25) /\ size out_8 = mkSize 1 1 25 25
        /\ spatial dec3 = (50, 50) /\ size out_4 = mkSize 1 1 50 50
        /\ spatial dec2 = (100, 100) /\ size out_2 = mkSize 1 1 100 100
        /\ size final = mkSize 1 1 200 200.
Proof.
  unfold main.
  destruct (@total_UNetV2 _ 1 1 false 2 true
              ltac:(lia) ltac:(lia) ltac:(lia) s) as (net & s1 & E).
  rewrite (bind_ok _ _ _ E).
  assert (Ex : exists x s2,
             torch.randn 1 1 200 200 s1 = (Ok x, s2)
             /\ size x = mkSize 1 1 200 200).
  { eexists _, _. split.
    - unfold torch.randn, bind, get, set_rng, ret. cbn. reflexivity.
    - reflexivity. }
  destruct Ex as (x & s2 & Ex & Esz).
  rewrite (bind_ok _ _ _ Ex).
  destruct (UNetV2_returns x s2 E)
    as (out & s' & Eo & Es); rewrite ?Esz; cbn [batch channels height width];
    try lia.
  rewrite Esz in Es. cbn [batch channels height width v2_sizes] in Es.
  change (200 / 8) with 25 in Es. change (200 / 4) with 50 in Es.
  change (200 / 2) with 100 in Es.
  assert (Hms : UNetV2.multi_scale net = true).
  { pose proof (@builds_UNetV2 _ _ _ _ _ _ _ _ _ E) as HA.
    change (UNetV2.multi_scale (strip_unet_v2 net) = true).
    rewrite HA. reflexivity. }
  pose proof (@UNetV2_group_norm_stateless _ _ _ _ _ _ _ _ E) as Hs.
  unfold UNetV2.layers, _DecoderBlockV2.layers, Sequential.layers in Hs.
  split_layers Hs.
  pose proof Eo as Et. unfold UNetV2.forward in Et. rewrite Hms in Et.
  binv Et enc1 t1 E1. kept E1. binv Et enc2 t2 E2. kept E2.
  binv Et enc3 t3 E3. kept E3. binv Et enc4 t4 E4. kept E4.
  binv Et pooled t5 E5. kept E5. binv Et center t6 E6. kept E6.
  binv Et up4 t7 E7. kept E7. binv Et fused4 t8 E8. kept E8.
  binv Et dec4 t9 E9. kept E9.
  binv Et up3 t10 E10. kept E10. binv Et fused3 t11 E11. kept E11.
  binv Et dec3 t12 E12. kept E12.
  binv Et up2 t13 E13. kept E13. binv Et fused2 t14 E14. kept E14.
  binv Et dec2 t15 E15. kept E15.
  binv Et up1 t16 E16. kept E16. binv Et fused1 t17 E17. kept E17.
  binv Et dec1 t18 E18. kept E18. binv Et final t19 E19. kept E19.
  binv Et conv_8 u1 A8. binv Et out_8 u2 C8.
  binv Et conv_4 u3 A4. binv Et out_4 u4 C4.
  binv Et conv_2 u5 A2. binv Et out_2 u6 C2.
  pose proof (attr_inv _ _ A8) as B8. pose proof (attr_inv _ _ A4) as B4.
  pose proof (attr_inv _ _ A2) as B2.
  destruct (@UNetV2_heads _ _ _ _ _ _ _ _ _ _ _ E B8 B4 B2) as (G8 & G4 & G2).
  pose proof (attr_keeps_store _ _ A8) as K1. subst u1.
  pose proof (@head_keeps_store _ _ _ _ _ _ _ _ _ _ _ G8 C8) as K2. subst u2.
  pose proof (attr_keeps_store _ _ A4) as K3. subst u3.
  pose proof (@head_keeps_store _ _ _ _ _ _ _ _ _ _ _ G4 C4) as K4. subst u4.
  pose proof (attr_keeps_store _ _ A2) as K5. subst u5.
  pose proof (@head_keeps_store _ _ _ _ _ _ _ _ _ _ _ G2 C2) as K6. subst u6.
  inversion Et; subst out s'; clear Et.
  cbn [Sizes.omap map] in Es.
  assert (S8 : size out_8 = mkSize 1 1 25 25) by congruence.
  assert (S4 : size out_4 = mkSize 1 1 50 50) by congruence.
  assert (S2 : size out_2 = mkSize 1 1 100 100) by congruence.
  assert (Sf : size final = mkSize 1 1 200 200) by congruence.
  clear Es.
  assert (P8 : spatial out_8 = spatial dec4)
    by (apply (@head_keeps_spatial _ _ _ _ _ _ G8); exists s2, s2; exact C8).
  assert (P4 : spatial out_4 = spatial dec3)
    by (apply (@head_keeps_spatial _ _ _ _ _ _ G4); exists s2, s2; exact C4).
  assert (P2 : spatial out_2 = spatial dec2)
    by (apply (@head_keeps_spatial _ _ _ _ _ _ G2); exists s2, s2; exact C2).
  exists net, s1, x, s2, (OTuple [out_8; out_4; out_2; final]).
  split; [exact E|]. split; [exact Ex|]. split; [exact Esz|].
  split; [exact Eo|]. split; [exact Eo|].
  exists enc1, enc2, enc3, enc4, pooled, center, up4, fused4, dec4,
    up3, fused3, dec3, up2, fused2, dec2, up1, fused1, dec1, final,
    conv_8, conv_4, conv_2, out_8, out_4, out_2.
  repeat match goal with
         | |- _ /\ _ => split; [first [ eassumption | reflexivity ] |]
         end.
  split; [rewrite <- P8; unfold spatial; rewrite S8; reflexivity|].
  split; [exact S8|].
  split; [rewrite <- P4; unfold spatial; rewrite S4; reflexivity|].
  split; [exact S4|].
  split; [rewrite <- P2; unfold spatial; rewrite S2; reflexivity|].
  split; [exact S2 | exact Sf].
Qed.

(** X15.  With group normalisation ([bn=False]) a forward pass keeps no
    state: it leaves the store as it found it, in training mode too, and
    what it returns depends on the store through the parameters only -
    it is the same in training and in evaluation mode. *)
Theorem group_norm_networks_keep_no_state `{Backend}
  (num_classes in_channels : Z) (x : Tensor) (s s' : Store) :
  (forall r, params s' r = params s r) ->
  (forall s0 net s1,
      UNet.__init__ num_classes in_channels false s0 = (Ok net, s1) ->
      snd (UNet.forward net x s) = s
      /\ fst (UNet.forward net x s') = fst (UNet.forward net x s))
  /\ (forall factors multi_scale s0 net s1,
         UNetV2.__init__ num_classes in_channels false factors multi_scale s0
         = (Ok net, s1) ->
         snd (UNetV2.forward net x s) = s
         /\ fst (UNetV2.forward net x s') = fst (UNetV2.forward net x s)).
Proof.
  intros Hp. split.
  - intros s0 net s1 E.
    assert (Hs : forallb stateless (UNet.layers net) = true).
    { rewrite <- stateless_strip, <- UNet_layers_strip.
      rewrite (@builds_UNet _ _ _ _ _ _ _ E). reflexivity. }
    destruct (pure_UNet net x Hs s) as (K & R).
    split; [exact K | exact (R s' Hp)].
  - intros factors multi_scale s0 net s1 E.
    assert (Hs : forallb stateless (UNetV2.layers net) = true).
    { rewrite <- stateless_strip, <- UNetV2_layers_strip.
      rewrite (@builds_UNetV2 _ _ _ _ _ _ _ _ _ E).
      destruct multi_scale; reflexivity. }
    destruct (pure_UNetV2 net x Hs s) as (K & R).
    split; [exact K | exact (R s' Hp)].
Qed.

Lemma group_norm_networks_keep_no_state_witness :
  exists net s1,
    UNet.__init__ 1 3 false (store0 true) = (Ok net, s1)
    /\ snd (UNet.forward net (input 1 3 32 32) s1) = s1
    /\ fst (UNet.forward net (input 1 3 32 32) (snd (set_training false s1)))
       = fst (UNet.forward net (input 1 3 32 32) s1).
Proof.
  destruct (@total_UNet symbolic 1 3 false ltac:(lia) ltac:(lia) (store0 true))
    as (net & s1 & E).
  exists net, s1. split; [exact E|].
  apply (proj1 (@group_norm_networks_keep_no_state symbolic 1 3
                  (input 1 3 32 32) s1 (snd (set_training false s1))
                  ltac:(intros r; reflexivity)) (store0 true) net s1 E).
Defined.

(** ** The random generator *)

Section RngFree.
Context `{Backend}.

Lemma set_rng_same s : snd (set_rng (rng s) s) = s.
Proof. destruct s; reflexivity. Qed.

Lemma rng_free_ret {A} (a : A) : rng_free (ret a).
Proof. intros s g; reflexivity. Qed.

Lemma rng_free_raise {A} e : rng_free (@raise _ A e).
Proof. intros s g; reflexivity. Qed.

Lemma rng_free_bind {A B} (m : M A) (k : A -> M B) :
  rng_free m -> (forall a, rng_free (k a)) -> rng_free (bind m k).
Proof.
  intros Hm Hk s g. unfold bind at 1. rewrite (Hm s g).
  unfold bind. destruct (m s) as [[a|e] s1]; cbn [fst snd].
  - apply Hk.
  - reflexivity.
Qed.

Lemma rng_free_bind_ret {A B} (a : A) (k : A -> M B) :
  rng_free (k a) -> rng_free (bind (ret a) k).
Proof. intros Hk s g. exact (Hk s g). Qed.

Lemma rng_free_bind_raise {A B} e (k : A -> M B) : rng_free (bind (raise e) k).
Proof. intros s g; reflexivity. Qed.

Lemma rng_free_if {A} (b : bool) (m1 m2 : M A) :
  rng_free m1 -> rng_free m2 -> rng_free (if b then m1 else m2).
Proof. destruct b; auto. Qed.

Lemma rng_free_Conv2d m x : rng_free (Conv2d.forward m x).
Proof.
  intros s g. unfold Conv2d.forward, bind, get, ret, raise.
  destruct (Conv2d.padding_mode m); cbn;
    repeat (match goal with |- context [if ?b then _ else _] => destruct b end;
            cbn; try reflexivity).
Qed.

Lemma rng_free_ConvTranspose2d m x : rng_free (ConvTranspose2d.forward m x).
Proof.
  intros s g. unfold ConvTranspose2d.forward, bind, get, ret, raise.
  destruct (negb _); reflexivity.
Qed.

Lemma rng_free_GroupNorm m x : rng_free (GroupNorm.forward m x).
Proof.
  intros s g. unfold GroupNorm.forward, bind, get, ret, raise.
  destruct (_ =? 1); [reflexivity|]. destruct (negb _); reflexivity.
Qed.

(** Batch normalisation writes its counter and its running statistics,
    not the generator. *)
Lemma rng_free_BatchNorm2d m x : rng_free (BatchNorm2d.forward m x).
Proof.
  intros s g. unfold BatchNorm2d.forward, bind, get, ret, raise.
  cbn [set_rng snd training]. destruct (training s) eqn:T; cbn; rewrite ?T.
  - destruct (_ =? 1); cbn; rewrite ?T; [reflexivity|].
    destruct (negb _); cbn; rewrite ?T; reflexivity.
  - destruct (negb _); cbn; rewrite ?T; reflexivity.
Qed.

Lemma rng_free_call l x : no_dropout l = true -> rng_free (call l x).
Proof.
  destruct l; cbn [call no_dropout]; intros Hs; try discriminate.
  - apply rng_free_Conv2d.
  - apply rng_free_ConvTranspose2d.
  - apply rng_free_GroupNorm.
  - apply rng_free_BatchNorm2d.
  - apply rng_free_ret.
  - apply rng_free_ret.
  - unfold MaxPool2d.forward.
    apply rng_free_if; [apply rng_free_raise | apply rng_free_ret].
  - unfold AvgPool2d.forward.
    apply rng_free_if; [apply rng_free_raise | apply rng_free_ret].
Qed.

Lemma rng_free_Sequential ls :
  forallb no_dropout ls = true -> forall x, rng_free (Sequential.forward ls x).
Proof.
  induction ls as [|l ls IH]; cbn [forallb Sequential.forward]; intros Hs x.
  - apply rng_free_ret.
  - apply andb_prop in Hs. destruct Hs as (Hl & Hls).
    apply rng_free_bind;
      [apply rng_free_call; exact Hl | intros y; apply IH; exact Hls].
Qed.

Lemma rng_free_interpolate x target ac : rng_free (F.interpolate x target ac).
Proof.
  unfold F.interpolate.
  apply rng_free_if; [apply rng_free_raise | apply rng_free_ret].
Qed.

Lemma rng_free_cat ts : rng_free (torch.cat ts).
Proof.
  destruct ts as [|t ts]; cbn [torch.cat]; [apply rng_free_raise|].
  revert t. induction ts as [|t' ts IH]; intros t; cbn [torch.cat_onto].
  - apply rng_free_ret.
  - apply rng_free_if; [apply IH | apply rng_free_raise].
Qed.

Lemma rng_free_EncoderBlock b x :
  forallb no_dropout (_EncoderBlock.layers b) = true ->
  rng_free (_EncoderBlock.forward b x).
Proof.
  unfold _EncoderBlock.layers, Sequential.layers, _EncoderBlock.forward.
  rewrite forallb_app. intros Hs. apply andb_prop in Hs. destruct Hs as (He & Hp).
  apply rng_free_bind.
  - destruct (_EncoderBlock.pool b); [|apply rng_free_ret].
    cbn [forallb] in Hp. apply andb_prop in Hp. apply rng_free_call. tauto.
  - intros y. apply rng_free_Sequential. exact He.
Qed.

Lemma rng_free_EncoderBlockV2 b x :
  forallb no_dropout (_EncoderBlockV2.layers b) = true ->
  rng_free (_EncoderBlockV2.forward b x).
Proof.
  unfold _EncoderBlockV2.layers, Sequential.layers, _EncoderBlockV2.forward.
  rewrite forallb_app. intros Hs. apply andb_prop in Hs. destruct Hs as (He & Hp).
  apply rng_free_bind.
  - destruct (_EncoderBlockV2.pool b); [|apply rng_free_ret].
    cbn [forallb] in Hp. apply andb_prop in Hp. apply rng_free_call. tauto.
  - intros y. apply rng_free_Sequential. exact He.
Qed.

End RngFree.

Ltac rng_free_base :=
  solve [auto using rng_free_ret, rng_free_raise, rng_free_call,
           rng_free_Sequential, rng_free_interpolate, rng_free_cat,
           rng_free_EncoderBlock, rng_free_EncoderBlockV2].

Ltac rng_free_steps :=
  repeat first
    [ rng_free_base
    | apply rng_free_bind_raise
    | apply rng_free_bind_ret; cbv beta
    | apply rng_free_bind; [ rng_free_base | intros ? ]
    | apply rng_free_if ].

Section RngFreeNetworks.
Context `{Backend}.

Lemma rng_free_UNet net x :
  forallb no_dropout (UNet.layers net) = true -> rng_free (UNet.forward net x).
Proof.
  intros Hs.
  unfold UNet.layers, _DecoderBlock.layers, Sequential.layers in Hs.
  split_layers Hs.
  unfold UNet.forward, _DecoderBlock.forward. rng_free_steps.
Qed.

Lemma rng_free_UNetV2 net x :
  forallb no_dropout (UNetV2.layers net) = true ->
  rng_free (UNetV2.forward net x).
Proof.
  intros Hs.
  unfold UNetV2.layers, _DecoderBlockV2.layers, Sequential.layers in Hs.
  unfold UNetV2.forward, _DecoderBlockV2.forward.
  destruct (UNetV2.conv_8 net) as [c8|], (UNetV2.conv_4 net) as [c4|],
    (UNetV2.conv_2 net) as [c2|]; cbn [UNetV2.head] in Hs;
    unfold UNetV2.attr; cbv iota;
    split_layers Hs; rng_free_steps.
Qed.

End RngFreeNetworks.

Lemma no_dropout_strip ls :
  forallb no_dropout (map strip ls) = forallb no_dropout ls.
Proof.
  induction ls as [|l ls IH]; [reflexivity|]. cbn [map forallb]. rewrite IH.
  destruct l as [[]|[]|[]|[]| | | | |]; reflexivity.
Qed.

(** X16.  No constructed network has a [Dropout] layer: a forward pass
    neither advances nor reads the random generator, in training mode
    too. *)
Theorem forward_uses_no_random_numbers `{Backend}
  (num_classes in_channels : Z) (bn : bool) (x : Tensor) (s : Store) (g : Seed) :
  (forall s0 net s1,
      UNet.__init__ num_classes in_channels bn s0 = (Ok net, s1) ->
      forallb no_dropout (UNet.layers net) = true
      /\ rng (snd (UNet.forward net x s)) = rng s
      /\ fst (UNet.forward net x (snd (set_rng g s)))
         = fst (UNet.forward net x s))
  /\ (forall factors multi_scale s0 net s1,
         UNetV2.__init__ num_classes in_channels bn factors multi_scale s0
         = (Ok net, s1) ->
         forallb no_dropout (UNetV2.layers net) = true
         /\ rng (snd (UNetV2.forward net x s)) = rng s
         /\ fst (UNetV2.forward net x (snd (set_rng g s)))
            = fst (UNetV2.forward net x s)).
Proof.
  assert (K : forall {A} (m : M A), rng_free m ->
              rng (snd (m s)) = rng s
              /\ fst (m (snd (set_rng g s))) = fst (m s)).
  { intros A m Hm. split.
    - pose proof (Hm s (rng s)) as E. rewrite set_rng_same in E.
      rewrite E. reflexivity.
    - rewrite (Hm s g). reflexivity. }
  split.
  - intros s0 net s1 E.
    assert (Hs : forallb no_dropout (UNet.layers net) = true).
    { rewrite <- no_dropout_strip, <- UNet_layers_strip.
      rewrite (@builds_UNet _ _ _ _ _ _ _ E). destruct bn; reflexivity. }
    split; [exact Hs|]. apply K. apply rng_free_UNet. exact Hs.
  - intros factors multi_scale s0 net s1 E.
    assert (Hs : forallb no_dropout (UNetV2.layers net) = true).
    { rewrite <- no_dropout_strip, <- UNetV2_layers_strip.
      rewrite (@builds_UNetV2 _ _ _ _ _ _ _ _ _ E).
      destruct bn, multi_scale; reflexivity. }
    split; [exact Hs|]. apply K. apply rng_free_UNetV2. exact Hs.
Qed.

Lemma forward_uses_no_random_numbers_witness :
  exists net s1,
    UNet.__init__ 1 3 true (store0 true) = (Ok net, s1)
    /\ rng (snd (UNet.forward net (input 2 3 32 32) s1)) = rng s1.
Proof.
  destruct (@total_UNet symbolic 1 3 true ltac:(lia) ltac:(lia) (store0 true))
    as (net & s1 & E).
  exists net, s1. split; [exact E|].
  exact (proj1 (proj2 (proj1 (@forward_uses_no_random_numbers symbolic 1 3 true
                                (input 2 3 32 32) s1 0%nat)
                         (store0 true) net s1 E))).
Defined.

(** ** Allocation *)

Lemma ranged_nil lo : ranged lo lo [].
Proof. repeat split; [lia | constructor | constructor]. Qed.

Lemma ranged_app lo mid hi rs1 rs2 :
  ranged lo mid rs1 -> ranged mid hi rs2 -> ranged lo hi (rs1 ++ rs2).
Proof.
  intros (L1 & N1 & F1) (L2 & N2 & F2). repeat split; [lia | |].
  - clear L1 L2. induction rs1 as [|r rs1 IH]; cbn [app]; [exact N2|].
    inversion N1 as [|? ? Hr N1']; inversion F1 as [|? ? Hr1 F1']; subst.
    constructor; [|apply IH; assumption].
    intros Hi. apply in_app_or in Hi. destruct Hi as [Hi|Hi]; [contradiction|].
    rewrite Forall_forall in F2. specialize (F2 _ Hi). lia.
  - apply Forall_app. split.
    + eapply Forall_impl; [|exact F1]. cbv beta. intros r Hr. lia.
    + eapply Forall_impl; [|exact F2]. cbv beta. intros r Hr. lia.
Qed.

Lemma ranged_two lo hi :
  (S (S lo) <= hi)%nat -> ranged lo hi [lo; S lo].
Proof.
  intros Hh. repeat split; [lia | |].
  - constructor; [cbn; lia|]. constructor; [cbn; tauto | constructor].
  - repeat constructor; lia.
Qed.

Lemma ranged_one lo r hi : (lo <= r < hi)%nat -> ranged lo hi [r].
Proof.
  intros Hr. repeat split; try lia.
  - constructor; [cbn; tauto | constructor].
  - repeat constructor; lia.
Qed.

Lemma ranged_none lo hi : (lo <= hi)%nat -> ranged lo hi [].
Proof. intros Hh. repeat split; [lia | constructor | constructor]. Qed.

Lemma ranged_disjoint lo mid hi rs1 rs2 :
  ranged lo mid rs1 -> ranged mid hi rs2 ->
  forall r, In r rs1 -> ~ In r rs2.
Proof.
  intros (_ & _ & F1) (_ & _ & F2) r H1 H2.
  rewrite Forall_forall in F1, F2.
  specialize (F1 _ H1). specialize (F2 _ H2). lia.
Qed.

Section Owned.
Context `{Backend}.

Lemma Conv2d_parameters cin cout k p mode :
  owns Layer_parameters (nn.Conv2d cin cout k p mode).
Proof.
  intros s l s'. unfold nn.Conv2d, Conv2d.__init__, bind.
  destruct (_ || _); cbn; [discriminate|].
  intros E; inversion E; subst; cbn. apply ranged_two. lia.
Qed.

Lemma ConvTranspose2d_parameters cin cout k st :
  owns Layer_parameters (nn.ConvTranspose2d cin cout k st).
Proof.
  intros s l s'. unfold nn.ConvTranspose2d, ConvTranspose2d.__init__, bind.
  destruct (_ || _); cbn; [discriminate|].
  intros E; inversion E; subst; cbn. apply ranged_two. lia.
Qed.

(** A normalisation layer owns two parameters; batch normalisation
    allocates its two running statistics and its counter after them. *)
Lemma norm_parameters (bn : bool) c :
  owns Layer_parameters (if bn then nn.BatchNorm2d c else nn.GroupNorm 32 c).
Proof.
  intros s l s'. destruct bn.
  - unfold nn.BatchNorm2d, BatchNorm2d.__init__, bind.
    destruct (c <? 0); cbn; [discriminate|].
    intros E; inversion E; subst; cbn. apply ranged_two. lia.
  - unfold nn.GroupNorm, GroupNorm.__init__, bind.
    destruct (negb _); cbn; [discriminate|].
    destruct (c <? 0); cbn; [discriminate|].
    intros E; inversion E; subst; cbn. apply ranged_two. lia.
Qed.

Lemma Conv2d_counters cin cout k p mode :
  owns Layer_counters (nn.Conv2d cin cout k p mode).
Proof.
  intros s l s'. unfold nn.Conv2d, Conv2d.__init__, bind.
  destruct (_ || _); cbn; [discriminate|].
  intros E; inversion E; subst; cbn. apply ranged_none. lia.
Qed.

Lemma ConvTranspose2d_counters cin cout k st :
  owns Layer_counters (nn.ConvTranspose2d cin cout k st).
Proof.
  intros s l s'. unfold nn.ConvTranspose2d, ConvTranspose2d.__init__, bind.
  destruct (_ || _); cbn; [discriminate|].
  intros E; inversion E; subst; cbn. apply ranged_none. lia.
Qed.

Lemma norm_counters (bn : bool) c :
  owns Layer_counters (if bn then nn.BatchNorm2d c else nn.GroupNorm 32 c).
Proof.
  intros s l s'. destruct bn.
  - unfold nn.BatchNorm2d, BatchNorm2d.__init__, bind.
    destruct (c <? 0); cbn; [discriminate|].
    intros E; inversion E; subst; cbn. apply ranged_one. lia.
  - unfold nn.GroupNorm, GroupNorm.__init__, bind.
    destruct (negb _); cbn; [discriminate|].
    destruct (c <? 0); cbn; [discriminate|].
    intros E; inversion E; subst; cbn. apply ranged_none. lia.
Qed.

Lemma initialize_weights_next_ref ps :
  forall s, next_ref (snd (initialize_weights ps s)) = next_ref s.
Proof.
  induction ps as [|r ps IH]; intros s; cbn [initialize_weights];
    [reflexivity|].
  unfold bind at 1.
  destruct (init_parameter r s) as [[u|e] s1] eqn:E.
  - rewrite IH. change s1 with (snd (Ok u, s1)). rewrite <- E. reflexivity.
  - cbn [snd]. change s1 with (snd (@Err unit e, s1)). rewrite <- E.
    reflexivity.
Qed.

Lemma initialize_weights_allocates_nothing ps s u s' :
  initialize_weights ps s = (Ok u, s') -> next_ref s' = next_ref s.
Proof.
  intros E. pose proof (initialize_weights_next_ref ps s) as N.
  rewrite E in N. exact N.
Qed.

End Owned.

Ltac plain_step E :=
  unfold nn.Module_init, set_training, nn.ReLU, nn.GELU, nn.Dropout,
    nn.MaxPool2d, nn.AvgPool2d, ret in E;
  inversion E; subst; clear E; cbn [next_ref] in *.

Ltac chain :=
  repeat first
    [ assumption
    | apply ranged_nil
    | eapply ranged_app; [eassumption|] ].

(** The constructors, for any reading [refs] of what a layer owns that
    the three allocating layer constructors respect. *)
Section Allocation.
Context `{Backend}.
Variable refs : Layer -> list Ref.
Hypothesis refs_Conv2d :
  forall cin cout k p mode, owns refs (nn.Conv2d cin cout k p mode).
Hypothesis refs_ConvTranspose2d :
  forall cin cout k st, owns refs (nn.ConvTranspose2d cin cout k st).
Hypothesis refs_norm :
  forall (bn : bool) c,
    owns refs (if bn then nn.BatchNorm2d c else nn.GroupNorm 32 c).
Hypothesis refs_ReLU : forall m, refs (LReLU m) = [].
Hypothesis refs_GELU : refs LGELU = [].
Hypothesis refs_Dropout : refs LDropout = [].
Hypothesis refs_MaxPool2d : forall m, refs (LMaxPool2d m) = [].
Hypothesis refs_AvgPool2d : forall m, refs (LAvgPool2d m) = [].

Ltac alloc_step E :=
  first [ apply refs_Conv2d in E
        | apply refs_ConvTranspose2d in E
        | apply refs_norm in E
        | plain_step E ].

Ltac flatten :=
  rewrite ?flat_map_app; cbn [flat_map app];
  rewrite ?refs_ReLU, ?refs_GELU, ?refs_Dropout, ?refs_MaxPool2d,
    ?refs_AvgPool2d;
  cbn [app]; rewrite ?app_nil_r, <- ?app_assoc.

Lemma EncoderBlock_ranged cin cout dropout polling bn s b s' :
  _EncoderBlock.__init__ cin cout dropout polling bn s = (Ok b, s') ->
  ranged (next_ref s) (next_ref s') (flat_map refs (_EncoderBlock.layers b)).
Proof.
  unfold _EncoderBlock.__init__. cbn zeta. intros E.
  binv E u t0 E0. binv E l0 t1 E1. binv E l1 t2 E2. binv E l2 t3 E3.
  binv E l3 t4 E4. binv E l4 t5 E5. binv E l5 t6 E6.
  binv E ls t7 E7. binv E pool t8 E8.
  alloc_step E0. alloc_step E1. alloc_step E2. alloc_step E3.
  alloc_step E4. alloc_step E5. alloc_step E6.
  destruct dropout, polling; cbn in E7, E8;
    inversion E7; inversion E8; inversion E; subst;
    unfold _EncoderBlock.layers, Sequential.layers;
    cbn [_EncoderBlock.encode _EncoderBlock.pool]; flatten; chain.
Qed.

Lemma EncoderBlockV2_ranged cin cout dropout polling bn s b s' :
  _EncoderBlockV2.__init__ cin cout dropout polling bn s = (Ok b, s') ->
  ranged (next_ref s) (next_ref s') (flat_map refs (_EncoderBlockV2.layers b)).
Proof.
  unfold _EncoderBlockV2.__init__. cbn zeta. intros E.
  binv E u t0 E0. binv E l0 t1 E1. binv E l1 t2 E2. binv E l2 t3 E3.
  binv E l3 t4 E4. binv E l4 t5 E5. binv E l5 t6 E6.
  binv E ls t7 E7. binv E pool t8 E8.
  alloc_step E0. alloc_step E1. alloc_step E2. alloc_step E3.
  alloc_step E4. alloc_step E5. alloc_step E6.
  destruct dropout, polling; cbn in E7, E8;
    inversion E7; inversion E8; inversion E; subst;
    unfold _EncoderBlockV2.layers, Sequential.layers;
    cbn [_EncoderBlockV2.encode _EncoderBlockV2.pool]; flatten; chain.
Qed.

Lemma DecoderBlock_ranged cin cmid cout bn s b s' :
  _DecoderBlock.__init__ cin cmid cout bn s = (Ok b, s') ->
  ranged (next_ref s) (next_ref s') (flat_map refs (_DecoderBlock.layers b)).
Proof.
  unfold _DecoderBlock.__init__. intros E.
  binv E u t0 E0. binv E l0 t1 E1. binv E l1 t2 E2. binv E l2 t3 E3.
  binv E l3 t4 E4. binv E l4 t5 E5. binv E l5 t6 E6. binv E l6 t7 E7.
  alloc_step E0. alloc_step E1. alloc_step E2. alloc_step E3.
  alloc_step E4. alloc_step E5. alloc_step E6. alloc_step E7.
  inversion E; subst.
  unfold _DecoderBlock.layers, Sequential.layers.
  cbn [_DecoderBlock.decode]. flatten. chain.
Qed.

Lemma DecoderBlockV2_ranged cin cmid cout bn s b s' :
  _DecoderBlockV2.__init__ cin cmid cout bn s = (Ok b, s') ->
  ranged (next_ref s) (next_ref s') (flat_map refs (_DecoderBlockV2.layers b)).
Proof.
  unfold _DecoderBlockV2.__init__. intros E.
  binv E u t0 E0. binv E l0 t1 E1. binv E l1 t2 E2. binv E l2 t3 E3.
  binv E l3 t4 E4. binv E l4 t5 E5. binv E l5 t6 E6.
  alloc_step E0. alloc_step E1. alloc_step E2. alloc_step E3.
  alloc_step E4. alloc_step E5. alloc_step E6.
  inversion E; subst.
  unfold _DecoderBlockV2.layers, Sequential.layers.
  cbn [_DecoderBlockV2.decode]. flatten. chain.
Qed.

Ltac block_step E :=
  first [ apply EncoderBlock_ranged in E
        | apply EncoderBlockV2_ranged in E
        | apply DecoderBlock_ranged in E
        | apply DecoderBlockV2_ranged in E
        | alloc_step E ].

Lemma UNet_ranged num_classes in_channels bn s net s' :
  UNet.__init__ num_classes in_channels bn s = (Ok net, s') ->
  ranged (next_ref s) (next_ref s') (flat_map refs (UNet.layers net)).
Proof.
  unfold UNet.__init__. intros E.
  binv E u t0 E0. binv E enc1 t1 E1. binv E enc2 t2 E2. binv E enc3 t3 E3.
  binv E enc4 t4 E4. binv E polling t5 E5. binv E center t6 E6.
  binv E dec4 t7 E7. binv E dec3 t8 E8. binv E dec2 t9 E9.
  binv E l0 t10 E10. binv E l1 t11 E11. binv E l2 t12 E12.
  binv E l3 t13 E13. binv E l4 t14 E14. binv E l5 t15 E15.
  binv E final t16 E16. cbv zeta in E. binv E v t17 E17.
  block_step E0. block_step E1. block_step E2. block_step E3. block_step E4.
  block_step E5. block_step E6. block_step E7. block_step E8. block_step E9.
  block_step E10. block_step E11. block_step E12. block_step E13.
  block_step E14. block_step E15. block_step E16.
  apply initialize_weights_allocates_nothing in E17. inversion E; subst.
  rewrite E17.
  unfold UNet.layers, Sequential.layers.
  cbn [UNet.enc1 UNet.enc2 UNet.enc3 UNet.enc4 UNet.polling UNet.center
       UNet.dec4 UNet.dec3 UNet.dec2 UNet.dec1 UNet.final].
  flatten. chain.
Qed.

Lemma UNetV2_ranged num_classes in_channels bn factors multi_scale s net s' :
  UNetV2.__init__ num_classes in_channels bn factors multi_scale s
  = (Ok net, s') ->
  ranged (next_ref s) (next_ref s') (flat_map refs (UNetV2.layers net)).
Proof.
  unfold UNetV2.__init__. intros E.
  binv E u t0 E0. binv E enc1 t1 E1. binv E enc2 t2 E2. binv E enc3 t3 E3.
  binv E enc4 t4 E4. binv E polling t5 E5. binv E center t6 E6.
  binv E dec4 t7 E7. binv E dec3 t8 E8. binv E dec2 t9 E9.
  binv E l0 t10 E10. binv E l1 t11 E11. binv E l2 t12 E12.
  binv E l3 t13 E13. binv E l4 t14 E14. binv E l5 t15 E15.
  binv E heads t16 Eh.
  destruct heads as [[conv_8 conv_4] conv_2]. cbv zeta iota beta in E.
  binv E final t17 E16. binv E v t18 E17.
  block_step E0. block_step E1. block_step E2. block_step E3. block_step E4.
  block_step E5. block_step E6. block_step E7. block_step E8. block_step E9.
  block_step E10. block_step E11. block_step E12. block_step E13.
  block_step E14. block_step E15. block_step E16.
  apply initialize_weights_allocates_nothing in E17. inversion E; subst.
  rewrite E17.
  unfold UNetV2.layers, Sequential.layers.
  cbn [UNetV2.enc1 UNetV2.enc2 UNetV2.enc3 UNetV2.enc4 UNetV2.polling
       UNetV2.center UNetV2.dec4 UNetV2.dec3 UNetV2.dec2 UNetV2.dec1
       UNetV2.conv_8 UNetV2.conv_4 UNetV2.conv_2 UNetV2.final].
  destruct multi_scale.
  - binv Eh c8 u1 A8. binv Eh c4 u2 A4. binv Eh c2 u3 A2.
    block_step A8. block_step A4. block_step A2.
    inversion Eh; subst. cbn [UNetV2.head]. flatten. chain.
  - inversion Eh; subst. cbn [UNetV2.head]. flatten. chain.
Qed.

End Allocation.

(** ** Batch counters *)

Section Counts.
Context `{Backend}.

Lemma counts_ret {A} (a : A) : counts (ret a) [].
Proof.
  intros s a' s' T E. inversion E; subst. split; [exact T|].
  intros r. cbn. lia.
Qed.

Lemma counts_bind {A B} (m : M A) (k : A -> M B) rs1 rs2 :
  counts m rs1 -> (forall a, counts (k a) rs2) -> counts (bind m k) (rs1 ++ rs2).
Proof.
  intros Hm Hk s b s' T E.
  destruct (bind_inv _ _ _ E) as (a & s1 & E1 & E2).
  destruct (Hm _ _ _ T E1) as (T1 & C1).
  destruct (Hk a _ _ _ T1 E2) as (T2 & C2).
  split; [exact T2|]. intros r.
  rewrite C2, C1, count_occ_app. unfold Ref. lia.
Qed.

Lemma counts_bind_ret {A B} (a : A) (k : A -> M B) rs :
  counts (k a) rs -> counts (bind (ret a) k) rs.
Proof. intros Hk s b s' T E. exact (Hk s b s' T E). Qed.

Lemma counts_bind_raise {A B} e (k : A -> M B) : counts (bind (raise e) k) [].
Proof. intros s b s' T E. discriminate E. Qed.

Lemma counts_raise {A} e : counts (@raise _ A e) [].
Proof. intros s b s' T E. discriminate E. Qed.

Lemma counts_if {A} (b : bool) (m1 m2 : M A) rs :
  counts m1 rs -> counts m2 rs -> counts (if b then m1 else m2) rs.
Proof. destruct b; auto. Qed.

(** The same counters in another order. *)
Lemma counts_equiv {A} (m : M A) rs rs' :
  counts m rs ->
  (forall r, count_occ Nat.eq_dec rs' r = count_occ Nat.eq_dec rs r) ->
  counts m rs'.
Proof.
  intros Hm He s a s' T E. destruct (Hm _ _ _ T E) as (T' & C).
  split; [exact T'|]. intros r. rewrite He. apply C.
Qed.

(** A layer other than batch normalisation touches no counter. *)
Lemma counts_same {A} (m : M A) :
  (forall s, training (snd (m s)) = training s
             /\ counters (snd (m s)) = counters s) ->
  counts m [].
Proof.
  intros Hm s a s' T E. destruct (Hm s) as (Tm & Cm). rewrite E in Tm, Cm.
  cbn [snd] in Tm, Cm. split; [congruence|].
  intros r. rewrite Cm. cbn. lia.
Qed.

Lemma counts_Conv2d m x : counts (Conv2d.forward m x) [].
Proof.
  apply counts_same. intros s. rewrite Conv2d_keeps_store. auto.
Qed.

Lemma counts_ConvTranspose2d m x : counts (ConvTranspose2d.forward m x) [].
Proof.
  apply counts_same. intros s.
  unfold ConvTranspose2d.forward, bind, get, ret, raise.
  destruct (negb _); auto.
Qed.

Lemma counts_GroupNorm m x : counts (GroupNorm.forward m x) [].
Proof.
  apply counts_same. intros s.
  unfold GroupNorm.forward, bind, get, ret, raise.
  destruct (_ =? 1); [auto|]. destruct (negb _); auto.
Qed.

Lemma counts_Dropout x : counts (Dropout.forward x) [].
Proof.
  apply counts_same. intros s. unfold Dropout.forward, bind, get.
  destruct (training s) eqn:T; cbn; auto.
Qed.

(** Batch normalisation in training mode counts the batch. *)
Lemma counts_BatchNorm2d m x :
  counts (BatchNorm2d.forward m x) [BatchNorm2d.num_batches_tracked m].
Proof.
  intros s a s' T. unfold BatchNorm2d.forward, bind, get, ret, raise.
  rewrite T. cbn.
  destruct (_ =? 1); cbn; [discriminate|].
  destruct (negb _); cbn; [discriminate|].
  intros E; inversion E; subst; clear E. cbn. split; [exact T|].
  intros r. unfold upd.
  destruct (Nat.eq_dec (BatchNorm2d.num_batches_tracked m) r) as [->|Hn].
  - rewrite Nat.eqb_refl. lia.
  - destruct (Nat.eqb_spec r (BatchNorm2d.num_batches_tracked m));
      [congruence | lia].
Qed.

Lemma counts_call l x : counts (call l x) (Layer_counters l).
Proof.
  destruct l; cbn [call Layer_counters].
  - apply counts_Conv2d.
  - apply counts_ConvTranspose2d.
  - apply counts_GroupNorm.
  - apply counts_BatchNorm2d.
  - apply counts_ret.
  - apply counts_ret.
  - apply counts_Dropout.
  - unfold MaxPool2d.forward. apply counts_if; [apply counts_raise | apply counts_ret].
  - unfold AvgPool2d.forward. apply counts_if; [apply counts_raise | apply counts_ret].
Qed.

Lemma counts_Sequential ls :
  forall x, counts (Sequential.forward ls x) (flat_map Layer_counters ls).
Proof.
  induction ls as [|l ls IH]; intros x; cbn [Sequential.forward flat_map].
  - apply counts_ret.
  - apply counts_bind; [apply counts_call | exact IH].
Qed.

Lemma counts_interpolate x target ac : counts (F.interpolate x target ac) [].
Proof.
  unfold F.interpolate. apply counts_if; [apply counts_raise | apply counts_ret].
Qed.

Lemma counts_cat ts : counts (torch.cat ts) [].
Proof.
  destruct ts as [|t ts]; cbn [torch.cat]; [apply counts_raise|].
  revert t. induction ts as [|t' ts IH]; intros t; cbn [torch.cat_onto].
  - apply counts_ret.
  - apply counts_if; [apply IH | apply counts_raise].
Qed.

Lemma counts_EncoderBlock b x :
  counts (_EncoderBlock.forward b x)
         (flat_map Layer_counters (_EncoderBlock.layers b)).
Proof.
  unfold _EncoderBlock.forward, _EncoderBlock.layers, Sequential.layers.
  eapply counts_equiv.
  - apply counts_bind with (rs1 := match _EncoderBlock.pool b with
                                   | Some p => Layer_counters p
                                   | None => []
                                   end).
    + destruct (_EncoderBlock.pool b); [apply counts_call | apply counts_ret].
    + intros y. apply counts_Sequential.
  - intros r. rewrite flat_map_app, !count_occ_app.
    destruct (_EncoderBlock.pool b); cbn [flat_map app];
      rewrite ?app_nil_r; lia.
Qed.

Lemma counts_EncoderBlockV2 b x :
  counts (_EncoderBlockV2.forward b x)
         (flat_map Layer_counters (_EncoderBlockV2.layers b)).
Proof.
  unfold _EncoderBlockV2.forward, _EncoderBlockV2.layers, Sequential.layers.
  eapply counts_equiv.
  - apply counts_bind with (rs1 := match _EncoderBlockV2.pool b with
                                   | Some p => Layer_counters p
                                   | None => []
                                   end).
    + destruct (_EncoderBlockV2.pool b); [apply counts_call | apply counts_ret].
    + intros y. apply counts_Sequential.
  - intros r. rewrite flat_map_app, !count_occ_app.
    destruct (_EncoderBlockV2.pool b); cbn [flat_map app];
      rewrite ?app_nil_r; lia.
Qed.

End Counts.

Ltac counts_base :=
  solve [eauto using counts_ret, counts_raise, counts_call, counts_Sequential,
           counts_interpolate, counts_cat, counts_EncoderBlock,
           counts_EncoderBlockV2].

Ltac counts_steps :=
  repeat first
    [ counts_base
    | apply counts_bind_raise
    | apply counts_bind_ret; cbv beta
    | eapply counts_bind; [ counts_base | intros ? ] ].

Section CountsNetworks.
Context `{Backend}.

Lemma counts_UNet net x :
  counts (UNet.forward net x) (flat_map Layer_counters (UNet.layers net)).
Proof.
  eapply counts_equiv.
  - unfold UNet.forward, _DecoderBlock.forward. counts_steps.
  - intros r. unfold UNet.layers, _DecoderBlock.layers, Sequential.layers.
    rewrite ?flat_map_app, ?count_occ_app. cbn [flat_map app].
    rewrite ?app_nil_r, ?count_occ_app. cbn [count_occ]. lia.
Qed.

(** [UNetV2.forward] calls the heads it has when the flag is on, and
    none when it is off. *)
Lemma counts_UNetV2 net x :
  (if UNetV2.multi_scale net
   then UNetV2.conv_8 net <> None /\ UNetV2.conv_4 net <> None
        /\ UNetV2.conv_2 net <> None
   else UNetV2.conv_8 net = None /\ UNetV2.conv_4 net = None
        /\ UNetV2.conv_2 net = None) ->
  counts (UNetV2.forward net x) (flat_map Layer_counters (UNetV2.layers net)).
Proof.
  intros Hh. unfold UNetV2.forward, UNetV2.layers, _DecoderBlockV2.forward,
    _DecoderBlockV2.layers, Sequential.layers, UNetV2.attr.
  destruct (UNetV2.multi_scale net).
  - destruct Hh as (H8 & H4 & H2).
    destruct (UNetV2.conv_8 net) as [c8|]; [|contradiction].
    destruct (UNetV2.conv_4 net) as [c4|]; [|contradiction].
    destruct (UNetV2.conv_2 net) as [c2|]; [|contradiction].
    eapply counts_equiv.
    + counts_steps.
    + intros r. cbn [UNetV2.head].
      rewrite ?flat_map_app, ?count_occ_app. cbn [flat_map app].
      rewrite ?app_nil_r, ?count_occ_app. cbn [count_occ]. lia.
  - destruct Hh as (-> & -> & ->).
    eapply counts_equiv.
    + counts_steps.
    + intros r. cbn [UNetV2.head].
      rewrite ?flat_map_app, ?count_occ_app. cbn [flat_map app].
      rewrite ?app_nil_r, ?count_occ_app. cbn [count_occ]. lia.
Qed.

End CountsNetworks.

(** ** What a constructor allocates, what a training pass counts *)

Lemma parameters_strip ls :
  length (flat_map Layer_parameters (map strip ls))
  = length (flat_map Layer_parameters ls).
Proof.
  induction ls as [|l ls IH]; [reflexivity|].
  cbn [map flat_map]. rewrite !length_app, IH.
  destruct l as [[]|[]|[]|[]| | | | |]; reflexivity.
Qed.

Lemma counters_strip ls :
  length (flat_map Layer_counters (map strip ls))
  = length (flat_map Layer_counters ls).
Proof.
  induction ls as [|l ls IH]; [reflexivity|].
  cbn [map flat_map]. rewrite !length_app, IH.
  destruct l as [[]|[]|[]|[]| | | | |]; reflexivity.
Qed.

Section Instances.
Context `{Backend}.

Lemma UNet_parameters_ranged num_classes in_channels bn s net s' :
  UNet.__init__ num_classes in_channels bn s = (Ok net, s') ->
  ranged (next_ref s) (next_ref s') (UNet.parameters net).
Proof.
  apply UNet_ranged;
    auto using Conv2d_parameters, ConvTranspose2d_parameters, norm_parameters.
Qed.

Lemma UNetV2_parameters_ranged num_classes in_channels bn factors multi_scale
  s net s' :
  UNetV2.__init__ num_classes in_channels bn factors multi_scale s
  = (Ok net, s') ->
  ranged (next_ref s) (next_ref s') (UNetV2.parameters net).
Proof.
  apply UNetV2_ranged;
    auto using Conv2d_parameters, ConvTranspose2d_parameters, norm_parameters.
Qed.

Lemma UNet_counters_ranged num_classes in_channels bn s net s' :
  UNet.__init__ num_classes in_channels bn s = (Ok net, s') ->
  ranged (next_ref s) (next_ref s')
         (flat_map Layer_counters (UNet.layers net)).
Proof.
  apply UNet_ranged;
    auto using Conv2d_counters, ConvTranspose2d_counters, norm_counters.
Qed.

Lemma UNetV2_counters_ranged num_classes in_channels bn factors multi_scale
  s net s' :
  UNetV2.__init__ num_classes in_channels bn factors multi_scale s
  = (Ok net, s') ->
  ranged (next_ref s) (next_ref s')
         (flat_map Layer_counters (UNetV2.layers net)).
Proof.
  apply UNetV2_ranged;
    auto using Conv2d_counters, ConvTranspose2d_counters, norm_counters.
Qed.

(** Whether a constructed [UNetV2] has its heads. *)
Lemma UNetV2_has_heads num_classes in_channels bn factors multi_scale
  s net s' :
  UNetV2.__init__ num_classes in_channels bn factors multi_scale s
  = (Ok net, s') ->
  if UNetV2.multi_scale net
  then UNetV2.conv_8 net <> None /\ UNetV2.conv_4 net <> None
       /\ UNetV2.conv_2 net <> None
  else UNetV2.conv_8 net = None /\ UNetV2.conv_4 net = None
       /\ UNetV2.conv_2 net = None.
Proof.
  intros E.
  pose proof (@builds_UNetV2 _ _ _ _ _ _ _ _ _ E) as HA. cbv beta in HA.
  pose proof (f_equal UNetV2.multi_scale HA) as Pm.
  pose proof (f_equal UNetV2.conv_8 HA) as P8.
  pose proof (f_equal UNetV2.conv_4 HA) as P4.
  pose proof (f_equal UNetV2.conv_2 HA) as P2.
  cbn [strip_unet_v2 Arch.unet_v2 UNetV2.multi_scale UNetV2.conv_8
       UNetV2.conv_4 UNetV2.conv_2 Arch.head] in Pm, P8, P4, P2.
  rewrite Pm. destruct multi_scale.
  - destruct (UNetV2.conv_8 net), (UNetV2.conv_4 net), (UNetV2.conv_2 net);
      try discriminate. repeat split; discriminate.
  - destruct (UNetV2.conv_8 net), (UNetV2.conv_4 net), (UNetV2.conv_2 net);
      try discriminate. auto.
Qed.

End Instances.

Lemma counted_once (rs : list Ref) (c c' : Ref -> Z) :
  NoDup rs ->
  (forall r, c' r = c r + Z.of_nat (count_occ Nat.eq_dec rs r)) ->
  forall r, (In r rs -> c' r = c r + 1) /\ (~ In r rs -> c' r = c r).
Proof.
  intros N C r. rewrite C. split; intros Hi.
  - rewrite (proj1 (NoDup_count_occ' Nat.eq_dec rs) N r Hi). reflexivity.
  - rewrite (proj1 (count_occ_not_In Nat.eq_dec rs r) Hi). cbn. lia.
Qed.

(** X17.  The parameters of a constructed network are pairwise distinct
    tensors, allocated by its constructor: 82 of them for [UNet]; 74 for
    [UNetV2], and 80 with the three heads of [multi_scale] - whatever
    [bn].  Two networks constructed one after the other share none. *)
Theorem parameters_are_fresh_and_distinct `{Backend}
  (num_classes in_channels : Z) (bn : bool) :
  (forall s0 net s1,
      UNet.__init__ num_classes in_channels bn s0 = (Ok net, s1) ->
      NoDup (UNet.parameters net)
      /\ Forall (fun r => (next_ref s0 <= r < next_ref s1)%nat)
                (UNet.parameters net)
      /\ length (UNet.parameters net) = 82%nat
      /\ forall bn' net' s2,
           UNet.__init__ num_classes in_channels bn' s1 = (Ok net', s2) ->
           forall r, In r (UNet.parameters net) ->
                     ~ In r (UNet.parameters net'))
  /\ (forall factors multi_scale s0 net s1,
         UNetV2.__init__ num_classes in_channels bn factors multi_scale s0
         = (Ok net, s1) ->
         NoDup (UNetV2.parameters net)
         /\ Forall (fun r => (next_ref s0 <= r < next_ref s1)%nat)
                   (UNetV2.parameters net)
         /\ length (UNetV2.parameters net)
            = (if multi_scale then 80 else 74)%nat
         /\ forall bn' factors' multi_scale' net' s2,
              UNetV2.__init__ num_classes in_channels bn' factors'
                              multi_scale' s1
              = (Ok net', s2) ->
              forall r, In r (UNetV2.parameters net) ->
                        ~ In r (UNetV2.parameters net')).
Proof.
  split.
  - intros s0 net s1 E.
    pose proof (@UNet_parameters_ranged _ _ _ _ _ _ _ E) as R.
    destruct R as (L & N & F).
    split; [exact N|]. split; [exact F|]. split.
    + unfold UNet.parameters.
      rewrite <- parameters_strip, <- UNet_layers_strip.
      rewrite (@builds_UNet _ _ _ _ _ _ _ E). destruct bn; reflexivity.
    + intros bn' net' s2 E'.
      apply (@ranged_disjoint (next_ref s0) (next_ref s1) (next_ref s2)).
      * repeat split; assumption.
      * exact (@UNet_parameters_ranged _ _ _ _ _ _ _ E').
  - intros factors multi_scale s0 net s1 E.
    pose proof (@UNetV2_parameters_ranged _ _ _ _ _ _ _ _ _ E) as R.
    destruct R as (L & N & F).
    split; [exact N|]. split; [exact F|]. split.
    + unfold UNetV2.parameters.
      rewrite <- parameters_strip, <- UNetV2_layers_strip.
      rewrite (@builds_UNetV2 _ _ _ _ _ _ _ _ _ E).
      destruct bn, multi_scale; reflexivity.
    + intros bn' factors' multi_scale' net' s2 E'.
      apply (@ranged_disjoint (next_ref s0) (next_ref s1) (next_ref s2)).
      * repeat split; assumption.
      * exact (@UNetV2_parameters_ranged _ _ _ _ _ _ _ _ _ E').
Qed.

Lemma parameters_are_fresh_and_distinct_witness :
  exists net s1,
    UNetV2.__init__ 1 1 false 2 true (store0 true) = (Ok net, s1)
    /\ NoDup (UNetV2.parameters net)
    /\ length (UNetV2.parameters net) = 80%nat.
Proof.
  destruct (@total_UNetV2 symbolic 1 1 false 2 true
              ltac:(lia) ltac:(lia) ltac:(lia) (store0 true))
    as (net & s1 & E).
  exists net, s1. split; [exact E|].
  destruct (proj2 (@parameters_are_fresh_and_distinct symbolic 1 1 false)
              2 true (store0 true) net s1 E) as (N & _ & L & _).
  split; [exact N | exact L].
Defined.

(** X18.  In training mode a forward pass that returns has applied every
    batch normalisation layer exactly once: each of the 18 batch
    counters of a network built with [bn] has grown by one, and no other
    counter has changed. *)
Theorem training_pass_counts_each_batch_once `{Backend}
  (num_classes in_channels : Z) (bn : bool) :
  (forall s0 net s1 x s out s',
      UNet.__init__ num_classes in_channels bn s0 = (Ok net, s1) ->
      training s = true ->
      UNet.forward net x s = (Ok out, s') ->
      length (flat_map Layer_counters (UNet.layers net))
      = (if bn then 18 else 0)%nat
      /\ forall r,
           (In r (flat_map Layer_counters (UNet.layers net)) ->
            counters s' r = counters s r + 1)
           /\ (~ In r (flat_map Layer_counters (UNet.layers net)) ->
               counters s' r = counters s r))
  /\ (forall factors multi_scale s0 net s1 x s out s',
         UNetV2.__init__ num_classes in_channels bn factors multi_scale s0
         = (Ok net, s1) ->
         training s = true ->
         UNetV2.forward net x s = (Ok out, s') ->
         length (flat_map Layer_counters (UNetV2.layers net))
         = (if bn then 18 else 0)%nat
         /\ forall r,
              (In r (flat_map Layer_counters (UNetV2.layers net)) ->
               counters s' r = counters s r + 1)
              /\ (~ In r (flat_map Layer_counters (UNetV2.layers net)) ->
                  counters s' r = counters s r)).
Proof.
  split.
  - intros s0 net s1 x s out s' E T Eo. split.
    + rewrite <- counters_strip, <- UNet_layers_strip.
      rewrite (@builds_UNet _ _ _ _ _ _ _ E). destruct bn; reflexivity.
    + destruct (@UNet_counters_ranged _ _ _ _ _ _ _ E) as (_ & N & _).
      pose proof (counts_UNet net x) as Cn.
      destruct (Cn _ _ _ T Eo) as (_ & C).
      exact (@counted_once _ _ _ N C).
  - intros factors multi_scale s0 net s1 x s out s' E T Eo. split.
    + rewrite <- counters_strip, <- UNetV2_layers_strip.
      rewrite (@builds_UNetV2 _ _ _ _ _ _ _ _ _ E).
      destruct bn, multi_scale; reflexivity.
    + destruct (@UNetV2_counters_ranged _ _ _ _ _ _ _ _ _ E) as (_ & N & _).
      pose proof (@counts_UNetV2 _ net x
                    (@UNetV2_has_heads _ _ _ _ _ _ _ _ _ E)) as Cn.
      destruct (Cn _ _ _ T Eo) as (_ & C).
      exact (@counted_once _ _ _ N C).
Qed.

Lemma training_pass_counts_each_batch_once_witness :
  exists net s1 out s',
    UNet.__init__ 1 3 true (store0 false) = (Ok net, s1)
    /\ UNet.forward net (input 2 3 16 16) (snd (set_training true s1))
       = (Ok out, s')
    /\ length (flat_map Layer_counters (UNet.layers net)) = 18%nat
    /\ Forall (fun r => counters s' r = counters s1 r + 1)
              (flat_map Layer_counters (UNet.layers net)).
Proof.
  destruct (@total_UNet symbolic 1 3 true ltac:(lia) ltac:(lia) (store0 false))
    as (net & s1 & E).
  destruct (UNet_returns (input 2 3 16 16) (snd (set_training true s1)) E)
    as (out & s' & Eo & _);
    [cbn [input size batch channels height width]; first [reflexivity | lia] .. |].
  exists net, s1, out, s'. split; [exact E|]. split; [exact Eo|].
  destruct (proj1 (@training_pass_counts_each_batch_once symbolic 1 3 true)
              (store0 false) net s1 (input 2 3 16 16)
              (snd (set_training true s1)) out s' E eq_refl Eo) as (L & C).
  split; [exact L|].
  apply Forall_forall. intros r Hr. exact (proj1 (C r) Hr).
Defined.

(** X19.  In evaluation mode a forward pass writes nothing: whether it
    returns or raises, the store - parameters, running statistics, batch
    counters, generator state - is left as it was found. *)
Theorem eval_pass_writes_nothing `{Backend} (x : Tensor) (s : Store) :
  training s = false ->
  (forall net : UNet.t, snd (UNet.forward net x s) = s)
  /\ (forall net : UNetV2.t, snd (UNetV2.forward net x s) = s).
Proof.
  intros T. split; intros net.
  - destruct (quiet_UNet net x s) as (_ & _ & Q). exact (Q T).
  - destruct (quiet_UNetV2 net x s) as (_ & _ & Q). exact (Q T).
Qed.

Lemma eval_pass_writes_nothing_witness :
  exists net s1,
    UNet.__init__ 1 3 true (store0 true) = (Ok net, s1)
    /\ snd (UNet.forward net (input 1 3 16 16) (snd (set_training false s1)))
       = snd (set_training false s1).
Proof.
  destruct (@total_UNet symbolic 1 3 true ltac:(lia) ltac:(lia) (store0 true))
    as (net & s1 & E).
  exists net, s1. split; [exact E|].
  exact (proj1 (@eval_pass_writes_nothing symbolic (input 1 3 16 16)
                  (snd (set_training false s1)) eq_refl) net).
Defined.
